(** * cloudfile-mover: URL parsing and the chunked parallel transfer engine

    A shallow embedding of [cloudfile_mover/core.py], of its copy under
    [build/lib] and of the in-memory handles of [tests/test_move_file.py],
    together with the properties of [parse_cloud_url] and of the transfer
    engine: part planning, per-part retry, the thread pool, the
    finalize-or-abort decision and the three destination handles.

    How the program is modelled:
    - Python ints are [Z]; [file_size / chunk_size] is Python's true
      division, a correctly rounded binary64 quotient, and [math.ceil] its
      ceiling ([Module Py]);
    - a [str] is a [string] whose characters are the code points below
      256; [re.match] is a backtracking matcher over the pattern
      constructs the program uses ([Module Re]), and [urlparse] is a
      parameter of [parse_cloud_url];
    - a function that may raise is a state transformer returning [Ok] or
      [Raise], in a small state-and-exception monad that also records the
      calls made on the handles, the sleeps and the log records;
    - a handle is a record of its methods over the state it owns; the
      provider behind a concrete handle is part of that state: what it
      stores, the requests it was sent and the outcomes (success or an
      exception) of the requests to come;
    - the thread pool runs every submitted [transfer_part] to its end, one
      after the other in the order the futures complete; that order is any
      one a pool of the given size allows. *)

From Stdlib Require Import ZArith List Bool Lia Permutation Sorted.
From Stdlib Require Import String Ascii DecimalString DecimalN DecimalPos.
Import ListNotations.
Open Scope Z_scope.

Set Implicit Arguments.

(** ** Python values the program manipulates *)

(** [bytes] objects. *)
Definition bytes := list Byte.byte.

(** [len(data)]. *)
Definition len (data : bytes) : Z := Z.of_nat (List.length data).

(** [data[lo:hi]] for non-negative bounds. *)
Definition slice (data : bytes) (lo hi : Z) : bytes :=
  firstn (Z.to_nat (hi - lo)) (skipn (Z.to_nat lo) data).

(** The exceptions that can travel through [move_file].  Everything an SDK
    client raises is a [ProviderError], told apart by a code. *)
Inductive exn : Type :=
| ZeroDivisionError
| OverflowError
| ValueError
| TypeError
| RuntimeError
| ProviderError (code : nat).

Inductive result (A : Type) : Type :=
| Ok (a : A)
| Raise (e : exn).
Arguments Ok {A} a.
Arguments Raise {A} e.

(** The exception a call ended with, if any. *)
Definition exc_of {A} (r : result A) : option exn :=
  match r with Ok _ => None | Raise e => Some e end.

(** ** Python arithmetic: [int / int] and [math.ceil] *)

Module Py.

(** A binary64 value [mant * 2 ^ expo]. *)
Record float : Type := mkfloat { mant : Z; expo : Z }.

(** [floor (log2 (a / b))] for positive [a], [b]. *)
Definition ilog2_quot (a b : Z) : Z :=
  let e0 := Z.log2 a - Z.log2 b in
  if b * 2 ^ Z.max 0 e0 <=? a * 2 ^ Z.max 0 (- e0) then e0 else e0 - 1.

(** The quotient of two positive integers rounded to the nearest binary64
    value, ties to even: 53 significant bits, and never more than 1074
    fractional bits (the subnormal range). *)
Definition round_quot (a b : Z) : float :=
  let ex := ilog2_quot a b in
  let sh := Z.min (52 - ex) 1074 in
  let n := a * 2 ^ Z.max 0 sh in
  let d := b * 2 ^ Z.max 0 (- sh) in
  let q := n / d in
  let r := n mod d in
  let m := if (d <? 2 * r) || ((2 * r =? d) && Z.odd q) then q + 1 else q in
  mkfloat m (- sh).

(** [a / b] on Python ints: true division, correctly rounded;
    [ZeroDivisionError] on a zero divisor and [OverflowError] when the
    quotient does not fit a float. *)
Definition truediv (a b : Z) : result float :=
  if b =? 0 then Raise ZeroDivisionError
  else if a =? 0 then Ok (mkfloat 0 0)
  else
    let f := round_quot (Z.abs a) (Z.abs b) in
    if (0 <=? expo f) && (2 ^ 1024 <=? mant f * 2 ^ expo f)
    then Raise OverflowError
    else Ok (mkfloat (Z.sgn a * Z.sgn b * mant f) (expo f)).

(** [math.ceil(x)]. *)
Definition ceil (x : float) : Z :=
  if 0 <=? expo x then mant x * 2 ^ expo x
  else - ((- mant x) / 2 ^ (- expo x)).

(** *** Strings *)

(** [s.zfill(width)] for a string of digits. *)
Definition zfill (width : nat) (s : string) : string :=
  (string_of_list_ascii (repeat "0"%char (width - String.length s)) ++ s)%string.

(** [str(n)] for [n >= 0]. *)
Definition digits (n : Z) : string :=
  NilZero.string_of_uint (N.to_uint (Z.to_N n)).

(** [f"{n}"]. *)
Definition str (n : Z) : string :=
  if n <? 0 then ("-" ++ digits (- n))%string else digits n.

(** [f"{n:06d}"]: the sign, then the digits zero-padded to six columns in
    all. *)
Definition format_06d (n : Z) : string :=
  if n <? 0 then ("-" ++ zfill 5 (digits (- n)))%string
  else zfill 6 (digits n).

Definition b64_alphabet : string :=
  "ABCDEFGHIJKLMNOPQRSTUVWXYZabcdefghijklmnopqrstuvwxyz0123456789+/".

Definition b64_char (sextet : N) : ascii :=
  match String.get (N.to_nat sextet) b64_alphabet with
  | Some c => c
  | None => "="%char
  end.

Fixpoint b64_groups (l : list N) : list ascii :=
  match l with
  | a :: b :: c :: rest =>
      let x := (a * 65536 + b * 256 + c)%N in
      b64_char (x / 262144) :: b64_char ((x / 4096) mod 64)
        :: b64_char ((x / 64) mod 64) :: b64_char (x mod 64)
        :: b64_groups rest
  | [a; b] =>
      let x := (a * 65536 + b * 256)%N in
      [b64_char (x / 262144); b64_char ((x / 4096) mod 64);
       b64_char ((x / 64) mod 64); "="%char]
  | [a] =>
      let x := (a * 65536)%N in
      [b64_char (x / 262144); b64_char ((x / 4096) mod 64);
       "="%char; "="%char]
  | [] => []
  end.

(** [base64.b64encode(s.encode()).decode('ascii')]. *)
Definition b64encode (s : string) : string :=
  string_of_list_ascii (b64_groups (map N_of_ascii (list_ascii_of_string s))).

(** *** [list.sort] *)

Section Sort.

Variables (A K : Type) (key : A -> K) (leb : K -> K -> bool).

Fixpoint insert (x : A) (l : list A) : list A :=
  match l with
  | [] => [x]
  | y :: l' => if leb (key x) (key y) then x :: l else y :: insert x l'
  end.

(** [l.sort(key=key)]: the stable sort of [l]. *)
Fixpoint sort (l : list A) : list A :=
  match l with
  | [] => []
  | x :: l' => insert x (sort l')
  end.

End Sort.

End Py.

(** ** The chunk planner (first lines of [move_file]'s [try] block) *)

(** [default_chunk = 64 * 1024 * 1024]. *)
Definition default_chunk : Z := 64 * 1024 * 1024.

Section Planner.

(** The part-size ceiling; [move_file] fixes it to [default_chunk]. *)
Variable max_part_size : Z.

(** [chunk_size = file_size if file_size < default_chunk else default_chunk]. *)
Definition chunk_size (file_size : Z) : Z :=
  if file_size <? max_part_size then file_size else max_part_size.

(** [num_parts = math.ceil(file_size / chunk_size)]. *)
Definition num_parts (file_size : Z) : result Z :=
  match Py.truediv file_size (chunk_size file_size) with
  | Ok q => Ok (Py.ceil q)
  | Raise e => Raise e
  end.

(** [offset = part_index * chunk_size]. *)
Definition part_offset (file_size part_index : Z) : Z :=
  part_index * chunk_size file_size.

(** [bytes_to_read = chunk_size if (offset + chunk_size <= file_size)
                     else (file_size - offset)]. *)
Definition bytes_to_read (file_size part_index : Z) : Z :=
  let offset := part_offset file_size part_index in
  if offset + chunk_size file_size <=? file_size
  then chunk_size file_size
  else file_size - offset.

(** [if num_parts < threads: threads = num_parts]. *)
Definition clamp_threads (threads n : Z) : Z :=
  if n <? threads then n else threads.

End Planner.

(** Ceiling division, the planner's intended part count. *)
Definition ceil_div (a b : Z) : Z := (a + b - 1) / b.

(** ** Effects: handle calls, sleeps and log records *)

Inductive level : Type := DEBUG | INFO | WARNING | ERROR.

(** What [move_file] does to the outside world, in the order it does it.
    A handle call carries the exception it raised, [None] when it
    returned; [FutureDone] is a worker leaving [transfer_part]. *)
Inductive event : Type :=
| ReadRange (offset length : Z) (exc : option exn)
| UploadPart (part_number : Z) (data : bytes) (exc : option exn)
| ProgressUpdate (n : Z)
| Sleep (secs : Z)
| Log (lvl : level) (msg : string)
| FutureDone (part_index : Z) (exc : option exn)
| DestComplete (exc : option exn)
| SrcDelete (exc : option exn)
| DestAbort (exc : option exn).

(** Computations over the state [S] of the handles (and of the providers
    behind them): they return or raise, keep the state they reached either
    way, and emit events. *)
Definition M (S A : Type) : Type := S -> result A * S * list event.

Section Monad.

Context {S : Type}.

Definition ret {A} (a : A) : M S A := fun s => (Ok a, s, []).

Definition raise {A} (e : exn) : M S A := fun s => (Raise e, s, []).

Definition bind {A B} (m : M S A) (k : A -> M S B) : M S B :=
  fun s =>
    match m s with
    | (Ok a, s1, t1) => let '(r, s2, t2) := k a s1 in (r, s2, t1 ++ t2)
    | (Raise e, s1, t1) => (Raise e, s1, t1)
    end.

(** [try: m  except Exception as e: h e]. *)
Definition try_catch {A} (m : M S A) (h : exn -> M S A) : M S A :=
  fun s =>
    match m s with
    | (Ok a, s1, t1) => (Ok a, s1, t1)
    | (Raise e, s1, t1) => let '(r, s2, t2) := h e s1 in (r, s2, t1 ++ t2)
    end.

Definition emit (ev : event) : M S unit := fun s => (Ok tt, s, [ev]).

(** A handle method: run it on the state and record the call. *)
Definition call {A} (f : S -> result A * S) (ev : option exn -> event)
    : M S A :=
  fun s => let '(r, s1) := f s in (r, s1, [ev (exc_of r)]).

(** The outcome a future stores: the computation's result, not raised. *)
Definition capture {A} (m : M S A) : M S (result A) :=
  fun s => let '(r, s1, t1) := m s in (Ok r, s1, t1).

Definition lift_result {A} (r : result A) : M S A := fun s => (r, s, []).

End Monad.

Notation "x <- m ;; k" := (bind m (fun x => k))
  (at level 61, m at next level, right associativity).
Notation "m ;; k" := (bind m (fun _ => k))
  (at level 61, right associativity).

(** ** The capability records of the handles *)

(** What [move_file] uses of a source object: [get_size] (the size cached by
    the constructor), [read_range] and [delete]. *)
Record Source (S : Type) : Type := {
  get_size : S -> Z;
  read_range : Z -> Z -> S -> result bytes * S;
  delete : S -> result unit * S
}.

(** What [move_file] uses of a destination object. *)
Record Dest (S : Type) : Type := {
  upload_part : Z -> bytes -> S -> result unit * S;
  complete : S -> result unit * S;
  abort : S -> result unit * S
}.

(** ** The thread pool *)

Fixpoint remove_nth {A} (n : nat) (l : list A) : list A :=
  match l, n with
  | [], _ => []
  | _ :: l', O => l'
  | x :: l', S n' => x :: remove_nth n' l'
  end.

(** The order in which the futures of a [ThreadPoolExecutor] with [workers]
    threads complete.  Work items start in submission order, so the running
    ones are the first [workers] pending items; [choices] says which of them
    finishes next. *)
Fixpoint completion_order (workers : nat) (choices : list nat)
    (fuel : nat) (pending : list Z) : list Z :=
  match fuel, pending with
  | S fuel', first :: _ =>
      let running := Nat.min workers (List.length pending) in
      let j := Nat.modulo (hd O choices) running in
      nth j pending first
        :: completion_order workers (tl choices) fuel' (remove_nth j pending)
  | _, _ => []
  end.

(** [range(n)]. *)
Definition range (n : Z) : list Z := map Z.of_nat (seq 0 (Z.to_nat n)).

(** ** [move_file] *)

Section Engine.

Variable S : Type.
Variable src : Source S.
Variable dest : Dest S.

(** The part-size ceiling ([default_chunk] in the program). *)
Variable max_part_size : Z.

(** [tqdm is not None]. *)
Variable tqdm_installed : bool.

Section Transfer.

Variable file_size : Z.
Variable show_progress : bool.

(** [progress] is a bar when asked for and available; a bar is true when
    its total is positive. *)
Definition progress : bool :=
  show_progress && tqdm_installed && (0 <? file_size).

(** The [try] body of [transfer_part]'s loop: one attempt. *)
Definition attempt_part (part_index : Z) : M S unit :=
  let offset := part_offset max_part_size file_size part_index in
  let length := bytes_to_read max_part_size file_size part_index in
  data <- call (read_range src offset length) (ReadRange offset length) ;;
  call (upload_part dest (part_index + 1) data)
       (UploadPart (part_index + 1) data) ;;
  if progress then emit (ProgressUpdate (len data)) else ret tt.

(** The [while True] loop of [transfer_part], entered with [attempt]
    failures behind it.  The loop leaves after at most three failures;
    [fuel] bounds the iterations still allowed. *)
Fixpoint retry_loop (fuel : nat) (part_index attempt : Z) : M S unit :=
  try_catch (attempt_part part_index)
    (fun e =>
       let attempt := attempt + 1 in
       emit (Log DEBUG "Error transferring part") ;;
       if 3 <=? attempt then raise e
       else
         emit (Sleep (1 * attempt)) ;;
         match fuel with
         | O => raise e
         | Datatypes.S fuel' => retry_loop fuel' part_index attempt
         end).

Definition transfer_part (part_index : Z) : M S unit :=
  retry_loop 2 part_index 0.

(** The futures run to completion in [order], each [transfer_part] taken
    as a whole; the result is the exception of the first future that
    [as_completed] hands out with one. *)
Fixpoint run_futures (task : Z -> M S unit) (order : list Z)
    : M S (option exn) :=
  match order with
  | [] => ret None
  | i :: rest =>
      r <- capture (task i) ;;
      let exc := exc_of r in
      emit (FutureDone i exc) ;;
      later <- run_futures task rest ;;
      ret (match exc with Some e => Some e | None => later end)
  end.

(** [with ThreadPoolExecutor(max_workers=threads) as executor: ...]: every
    submitted part runs, also after one has failed (leaving the [with]
    block waits for the pool), and the first failure met is raised. *)
Definition thread_pool (task : Z -> M S unit) (threads n : Z)
    (choices : list nat) : M S unit :=
  if threads <=? 0 then raise ValueError
  else
    let order :=
      completion_order (Z.to_nat threads) choices (Z.to_nat n) (range n) in
    first <- run_futures task order ;;
    match first with
    | Some e => raise e
    | None => ret tt
    end.

End Transfer.

(** The [try] block of [move_file]. *)
Definition move_body (threads : Z) (show_progress : bool)
    (choices : list nat) : M S bool :=
  fun s =>
    let file_size := get_size src s in
    (emit (Log INFO "Starting transfer") ;;
     n <- lift_result (num_parts max_part_size file_size) ;;
     let threads := clamp_threads threads n in
     thread_pool (transfer_part file_size show_progress) threads n choices ;;
     call (complete dest) DestComplete ;;
     call (delete src) SrcDelete ;;
     emit (Log INFO "Transfer completed successfully. Source object deleted.") ;;
     ret true) s.

(** [move_file], from the point where both handles exist. *)
Definition move_file_with (threads : Z) (show_progress : bool)
    (choices : list nat) : M S bool :=
  try_catch (move_body threads show_progress choices)
    (fun e =>
       emit (Log ERROR "Transfer failed") ;;
       try_catch (call (abort dest) DestAbort)
         (fun abort_err => emit (Log ERROR "Error during abort/cleanup")) ;;
       raise e).

End Engine.

(** [move_file] with the program's 64 MiB ceiling. *)
Definition move_file {S} (src : Source S) (dest : Dest S)
    (tqdm_installed : bool) (threads : Z) (show_progress : bool)
    (choices : list nat) : M S bool :=
  move_file_with src dest default_chunk tqdm_installed
    threads show_progress choices.

(** ** The copy under [build/lib]

    [build/lib/cloudfile_mover/core.py] is another build of the same
    module.  Its [move_file] plans before the [try], retries with a [for]
    loop that ends in a [RuntimeError], and calls [abort] unguarded. *)

Module BuildLib.

Section Engine.

Variable S : Type.
Variable src : Source S.
Variable dest : Dest S.
Variable max_part_size : Z.
Variable tqdm_installed : bool.

Section Transfer.

Variable file_size : Z.
Variable show_progress : bool.

(** [chunk_size = min(file_size, 64 * 1024 * 1024)]. *)
Definition chunk_size : Z := Z.min file_size max_part_size.

(** [num_parts = math.ceil(file_size / chunk_size)]. *)
Definition num_parts : result Z :=
  match Py.truediv file_size chunk_size with
  | Ok q => Ok (Py.ceil q)
  | Raise e => Raise e
  end.

Definition attempt_part (i : Z) : M S unit :=
  let offset := i * chunk_size in
  let length := Z.min chunk_size (file_size - offset) in
  data <- call (read_range src offset length) (ReadRange offset length) ;;
  call (upload_part dest (i + 1) data) (UploadPart (i + 1) data) ;;
  if progress tqdm_installed file_size show_progress
  then emit (ProgressUpdate (len data)) else ret tt.

(** [for attempt in range(3): try: ... return  except: warn; sleep]
    and, past the loop, [raise RuntimeError]. *)
Fixpoint for_attempts (attempts : list Z) (i : Z) : M S unit :=
  match attempts with
  | [] => raise RuntimeError
  | attempt :: rest =>
      fun s =>
        match attempt_part i s with
        | (Ok _, s1, t1) => (Ok tt, s1, t1)
        | (Raise e, s1, t1) =>
            let '(r, s2, t2) :=
              (emit (Log WARNING "Retry") ;;
               emit (Sleep (1 + attempt)) ;;
               for_attempts rest i) s1 in
            (r, s2, t1 ++ t2)
        end
  end.

Definition transfer_part (i : Z) : M S unit := for_attempts (range 3) i.

End Transfer.

Definition move_file_with (threads : Z) (show_progress : bool)
    (choices : list nat) : M S unit :=
  fun s =>
    let file_size := get_size src s in
    (emit (Log INFO "Transferring") ;;
     n <- lift_result (num_parts file_size) ;;
     let threads := Z.min threads n in
     try_catch
       (thread_pool (transfer_part file_size show_progress) threads n choices ;;
        call (complete dest) DestComplete ;;
        call (delete src) SrcDelete ;;
        emit (Log INFO "Transfer completed successfully."))
       (fun e =>
          emit (Log ERROR "Transfer failed") ;;
          call (abort dest) DestAbort ;;
          raise e)) s.

End Engine.

End BuildLib.

(** ** Reading a trace *)

Definition is_read (ev : event) : bool :=
  match ev with ReadRange _ _ _ => true | _ => false end.

Definition is_complete (ev : event) : bool :=
  match ev with DestComplete _ => true | _ => false end.

Definition is_delete (ev : event) : bool :=
  match ev with SrcDelete _ => true | _ => false end.

Definition is_abort (ev : event) : bool :=
  match ev with DestAbort _ => true | _ => false end.

(** The terminal calls on the destination: [complete] and [abort]. *)
Definition is_terminal (ev : event) : bool := is_complete ev || is_abort ev.

Definition count (p : event -> bool) (t : list event) : nat :=
  List.length (filter p t).

(** The durations handed to [time.sleep], in order. *)
Definition sleeps (t : list event) : list Z :=
  flat_map (fun ev => match ev with Sleep n => [n] | _ => [] end) t.

(** The parts [upload_part] accepted, in arrival order. *)
Definition uploads (t : list event) : list (Z * bytes) :=
  flat_map (fun ev =>
              match ev with
              | UploadPart k d None => [(k, d)]
              | _ => []
              end) t.

(** The exception of the first future that ended with one. *)
Definition first_failure (t : list event) : option exn :=
  match
    flat_map (fun ev =>
                match ev with
                | FutureDone _ (Some e) => [e]
                | _ => []
                end) t
  with
  | [] => None
  | e :: _ => Some e
  end.

(** Events of a worker inside [transfer_part]: no future has ended yet and
    no terminal or delete call is made. *)
Definition is_worker (ev : event) : bool :=
  match ev with
  | ReadRange _ _ _ | UploadPart _ _ _ | ProgressUpdate _ | Sleep _
  | Log DEBUG _ | Log WARNING _ => true
  | _ => false
  end.

(** Events of the copy phase: those of the workers and the futures' ends. *)
Definition is_copy (ev : event) : bool :=
  match ev with
  | FutureDone _ _ => true
  | _ => is_worker ev
  end.

Definition all (p : event -> bool) (t : list event) : Prop :=
  Forall (fun ev => p ev = true) t.

(** The backoff [time.sleep(1 * attempt)] before attempts 2, 3, ... of a
    loop entered after [attempt] failures. *)
Definition backoff (attempt : Z) (reads : nat) : list Z :=
  map (fun k => 1 * (attempt + Z.of_nat k)) (seq 1 (reads - 1)).

(** The parts put end to end in ascending part-number order. *)
Definition assemble (parts : list (Z * bytes)) : bytes :=
  List.concat (map snd (Py.sort fst Z.leb parts)).

(** The bytes some successful [read_range] of part [i]'s range returned,
    in a state that satisfies [Inv] (after some accepted uploads). *)
Definition read_of {S} (Inv : list (Z * bytes) -> S -> Prop)
    (src : Source S) (max_part_size file_size : Z) (i : Z) (d : bytes)
    : Prop :=
  exists u st st',
    Inv u st
    /\ read_range src (part_offset max_part_size file_size i)
         (bytes_to_read max_part_size file_size i) st = (Ok d, st').

(** The progress events of one successful attempt. *)
Definition progress_events (tqdm_installed : bool) (file_size : Z)
    (show_progress : bool) (d : bytes) : list event :=
  if progress tqdm_installed file_size show_progress
  then [ProgressUpdate (len d)] else [].

(** What the copy phase of a run did, when [complete] was reached: the
    part count, and each part accepted once with bytes read from its
    range, in completion order. *)
Definition copied {S} (Inv : list (Z * bytes) -> S -> Prop) (src : Source S)
    (max_part_size : Z) (threads : Z) (choices : list nat) (s : S)
    (P : list event) : Prop :=
  exists n,
    num_parts max_part_size (get_size src s) = Ok n
    /\ 0 < clamp_threads threads n
    /\ first_failure P = None
    /\ Forall2
         (fun i kd =>
            fst kd = i + 1
            /\ read_of Inv src max_part_size (get_size src s) i (snd kd))
         (completion_order (Z.to_nat (clamp_threads threads n)) choices
            (Z.to_nat n) (range n))
         (uploads P).

(** The bytes of part [i] of an object [data]. *)
Definition chunk (max_part_size : Z) (data : bytes) (i : Z) : bytes :=
  slice data (part_offset max_part_size (len data) i)
    (part_offset max_part_size (len data) i
     + bytes_to_read max_part_size (len data) i).

(** Orders on list elements by an integer key. *)
Definition key_le {A} (key : A -> Z) (x y : A) : Prop := key x <= key y.
Definition key_lt {A} (key : A -> Z) (x y : A) : Prop := key x < key y.

(** The attempts a worker made: every attempt starts with one
    [read_range]. *)
Definition attempts (t : list event) : nat := count is_read t.

(** A run in which a failed source delete, after a finalize that returned,
    is only a warning: the caller gets success, [abort] is not called, and
    the destination sees at most one terminal call. *)
Definition delete_failure_tolerated (r : result bool) (t : list event)
    : Prop :=
  In (DestComplete None) t ->
  (exists e, In (SrcDelete (Some e)) t) ->
  r = Ok true /\ count is_abort t = O /\ (count is_terminal t <= 1)%nat.

(** ** The shape of a run of [move_file] *)

(** The handler's call of [dest.abort()], guarded by its own [try]. *)
Inductive abort_shape : list event -> Prop :=
| abort_returned : abort_shape [DestAbort None]
| abort_raised (abort_err : exn) :
    abort_shape [DestAbort (Some abort_err);
                 Log ERROR "Error during abort/cleanup"].

(** The four ways through [move_file]: the copy phase [P] raised (the
    planner, the pool's constructor or the first failed future), [complete]
    raised, [delete] raised, or everything returned. *)
Inductive run_shape : result bool -> list event -> Prop :=
| run_copy_failed (e : exn) (P A : list event) :
    all is_copy P ->
    (forall e', first_failure P = Some e' -> e' = e) ->
    abort_shape A ->
    run_shape (Raise e)
      (Log INFO "Starting transfer" :: P ++ Log ERROR "Transfer failed" :: A)
| run_complete_failed (e : exn) (P A : list event) :
    all is_copy P ->
    first_failure P = None ->
    abort_shape A ->
    run_shape (Raise e)
      (Log INFO "Starting transfer"
         :: P ++ DestComplete (Some e) :: Log ERROR "Transfer failed" :: A)
| run_delete_failed (e : exn) (P A : list event) :
    all is_copy P ->
    first_failure P = None ->
    abort_shape A ->
    run_shape (Raise e)
      (Log INFO "Starting transfer"
         :: P ++ DestComplete None :: SrcDelete (Some e)
         :: Log ERROR "Transfer failed" :: A)
| run_done (P : list event) :
    all is_copy P ->
    first_failure P = None ->
    run_shape (Ok true)
      (Log INFO "Starting transfer"
         :: P ++ [DestComplete None; SrcDelete None;
                  Log INFO
                    "Transfer completed successfully. Source object deleted."]).

(** ** The providers behind the handles *)

(** The outcome of the next request to a provider: [None] lets it through,
    [Some e] makes the SDK raise [e]. *)
Definition faults := list (option exn).

Definition next_fault (f : faults) : option exn * faults :=
  match f with
  | [] => (None, [])
  | o :: f' => (o, f')
  end.

(** Handles of one transfer live side by side: the source's state first,
    the destination's second. *)
Definition source_of {A B} (h : Source A) : Source (A * B) :=
  {| get_size := fun s => get_size h (fst s);
     read_range := fun o l s =>
       let '(r, a) := read_range h o l (fst s) in (r, (a, snd s));
     delete := fun s => let '(r, a) := delete h (fst s) in (r, (a, snd s)) |}.

Definition dest_of {A B} (h : Dest B) : Dest (A * B) :=
  {| upload_part := fun k d s =>
       let '(r, b) := upload_part h k d (snd s) in (r, (fst s, b));
     complete := fun s => let '(r, b) := complete h (snd s) in (r, (fst s, b));
     abort := fun s => let '(r, b) := abort h (snd s) in (r, (fst s, b)) |}.

(** *** [S3Source] *)

Module S3Source.

(** The object behind [bucket]/[key], the outcomes of the coming requests
    and the size cached by [__init__]. *)
Record t : Type := mk {
  object : option bytes;
  pending : faults;
  size : Z
}.

(** [get_object(Range=f"bytes={offset}-{end}")], for [offset <= end]: the
    bytes [offset..end] of the object, cut at its end; no such key or a
    range that starts past the end is an error. *)
Definition get_object (offset last : Z) (s : t) : result bytes * t :=
  let '(f, rest) := next_fault (pending s) in
  let s' := mk (object s) rest (size s) in
  match f, object s with
  | Some e, _ => (Raise e, s')
  | None, None => (Raise (ProviderError 404), s')
  | None, Some data =>
      if len data <=? offset then (Raise (ProviderError 416), s')
      else (Ok (slice data offset (last + 1)), s')
  end.

Definition read_range (offset length : Z) (s : t) : result bytes * t :=
  let last := offset + length - 1 in
  get_object offset last s.

(** [delete_object]. *)
Definition delete (s : t) : result unit * t :=
  let '(f, rest) := next_fault (pending s) in
  match f with
  | Some e => (Raise e, mk (object s) rest (size s))
  | None => (Ok tt, mk None rest (size s))
  end.

Definition handle : Source t :=
  Build_Source size read_range delete.

(** [S3Source(bucket, key)] once [head_object] has answered. *)
Definition init (data : bytes) (f : faults) : t := mk (Some data) f (len data).

End S3Source.

(** *** [S3Dest] *)

Module S3Dest.

Record part : Type := mkpart { ETag : string; PartNumber : Z }.

Inductive request : Type :=
| upload_part_req (PartNumber : Z) (Body : bytes)
| complete_multipart_upload_req (Parts : list part)
| abort_multipart_upload_req.

(** The client with its open multipart upload: the ETag the service
    answers for a part, the outcomes of the coming requests and the
    requests sent so far; then the handle's [parts] and the warnings it
    logged. *)
Record t : Type := mk {
  etag_of : Z -> bytes -> string;
  pending : faults;
  sent : list request;
  parts : list part;
  warnings : list string
}.

Definition request_ (q : request) (s : t) : result unit * t :=
  let '(f, rest) := next_fault (pending s) in
  let s' := mk (etag_of s) rest (sent s ++ [q]) (parts s) (warnings s) in
  match f with
  | Some e => (Raise e, s')
  | None => (Ok tt, s')
  end.

Definition is_quote (c : option ascii) : bool :=
  match c with
  | Some c => Ascii.eqb c (ascii_of_nat 34)
  | None => false
  end.

(** [if etag.startswith(q) and etag.endswith(q): etag = etag[1:-1]], with
    [q] the double-quote character. *)
Definition strip_quotes (etag : string) : string :=
  let n := String.length etag in
  if is_quote (String.get 0 etag) && is_quote (String.get (n - 1) etag)
  then String.substring 1 (n - 2) etag
  else etag.

Definition upload_part (part_number : Z) (data : bytes) (s : t)
    : result unit * t :=
  match request_ (upload_part_req part_number data) s with
  | (Raise e, s1) => (Raise e, s1)
  | (Ok _, s1) =>
      let etag := strip_quotes (etag_of s1 part_number data) in
      (Ok tt, mk (etag_of s1) (pending s1) (sent s1)
                 (parts s1 ++ [mkpart etag part_number]) (warnings s1))
  end.

(** [self.parts.sort(key=lambda p: p['PartNumber'])], then the request. *)
Definition complete (s : t) : result unit * t :=
  let sorted := Py.sort PartNumber Z.leb (parts s) in
  let s1 := mk (etag_of s) (pending s) (sent s) sorted (warnings s) in
  request_ (complete_multipart_upload_req sorted) s1.

Definition abort (s : t) : result unit * t :=
  match request_ abort_multipart_upload_req s with
  | (Raise e, s1) =>
      (Ok tt, mk (etag_of s1) (pending s1) (sent s1) (parts s1)
                 (warnings s1 ++ ["S3 abort_multipart_upload failed"%string]))
  | (Ok _, s1) => (Ok tt, s1)
  end.

Definition handle : Dest t :=
  Build_Dest upload_part complete abort.

(** [S3Dest(bucket, key)] once [create_multipart_upload] has answered. *)
Definition init (etag_of : Z -> bytes -> string) (f : faults) : t :=
  mk etag_of f [] [] [].

End S3Dest.

(** *** [GCSDest] *)

Module GCSDest.

Inductive request : Type :=
| upload_from_string_req (name : string) (data : bytes)
| compose_req (dest : string) (sources : list string)
| delete_req (name : string).

(** The bucket (blob names and contents), the outcomes of the coming
    requests and the requests sent; then the handle's fields. *)
Record t : Type := mk {
  blobs : list (string * bytes);
  pending : faults;
  sent : list request;
  final_blob_name : string;
  part_prefix : string;
  part_count : Z;
  warnings : list string
}.

Definition lookup (name : string) (l : list (string * bytes)) : option bytes :=
  match find (fun p => String.eqb (fst p) name) l with
  | Some p => Some (snd p)
  | None => None
  end.

Definition remove (name : string) (l : list (string * bytes))
    : list (string * bytes) :=
  filter (fun p => negb (String.eqb (fst p) name)) l.

Definition with_bucket (s : t) (b : list (string * bytes)) (f : faults)
    (q : request) : t :=
  mk b f (sent s ++ [q]) (final_blob_name s) (part_prefix s) (part_count s)
     (warnings s).

(** [blob.upload_from_string(data)]. *)
Definition upload_from_string (name : string) (data : bytes) (s : t)
    : result unit * t :=
  let '(f, rest) := next_fault (pending s) in
  let q := upload_from_string_req name data in
  match f with
  | Some e => (Raise e, with_bucket s (blobs s) rest q)
  | None => (Ok tt, with_bucket s ((name, data) :: remove name (blobs s)) rest q)
  end.

Fixpoint gather (names : list string) (l : list (string * bytes))
    : option bytes :=
  match names with
  | [] => Some []
  | n :: names' =>
      match lookup n l, gather names' l with
      | Some d, Some ds => Some (d ++ ds)
      | _, _ => None
      end
  end.

(** [dest_blob.compose(sources)]: the sources' contents in the order given;
    a missing source is an error. *)
Definition compose (name : string) (sources : list string) (s : t)
    : result unit * t :=
  let '(f, rest) := next_fault (pending s) in
  let q := compose_req name sources in
  match f, gather sources (blobs s) with
  | Some e, _ => (Raise e, with_bucket s (blobs s) rest q)
  | None, None => (Raise (ProviderError 404), with_bucket s (blobs s) rest q)
  | None, Some d =>
      (Ok tt, with_bucket s ((name, d) :: remove name (blobs s)) rest q)
  end.

(** [blob.delete()]. *)
Definition delete_blob (name : string) (s : t) : result unit * t :=
  let '(f, rest) := next_fault (pending s) in
  let q := delete_req name in
  match f, lookup name (blobs s) with
  | Some e, _ => (Raise e, with_bucket s (blobs s) rest q)
  | None, None => (Raise (ProviderError 404), with_bucket s (blobs s) rest q)
  | None, Some _ => (Ok tt, with_bucket s (remove name (blobs s)) rest q)
  end.

Definition part_name (s : t) (i : Z) : string :=
  (part_prefix s ++ Py.str i)%string.

Definition upload_part (part_number : Z) (data : bytes) (s : t)
    : result unit * t :=
  match upload_from_string (part_name s part_number) data s with
  | (Raise e, s1) => (Raise e, s1)
  | (Ok _, s1) =>
      (Ok tt, mk (blobs s1) (pending s1) (sent s1) (final_blob_name s1)
                 (part_prefix s1) (part_count s1 + 1) (warnings s1))
  end.

(** [for src_blob in sources: try: src_blob.delete() except: warn]. *)
Fixpoint delete_all (warn : bool) (names : list string) (s : t) : t :=
  match names with
  | [] => s
  | n :: names' =>
      match delete_blob n s with
      | (Ok _, s1) => delete_all warn names' s1
      | (Raise _, s1) =>
          let s2 :=
            if warn
            then mk (blobs s1) (pending s1) (sent s1) (final_blob_name s1)
                    (part_prefix s1) (part_count s1)
                    (warnings s1 ++ ["Failed to delete temp blob"%string])
            else s1 in
          delete_all warn names' s2
      end
  end.

(** [[part_name(i) for i in range(1, part_count + 1)]]. *)
Definition part_names (s : t) : list string :=
  map (fun i => part_name s (i + 1)) (range (part_count s)).

Definition complete (s : t) : result unit * t :=
  if part_count s =? 0 then upload_from_string (final_blob_name s) [] s
  else
    let sources := part_names s in
    match compose (final_blob_name s) sources s with
    | (Raise e, s1) => (Raise e, s1)
    | (Ok _, s1) => (Ok tt, delete_all true sources s1)
    end.

Definition abort (s : t) : result unit * t :=
  (Ok tt, delete_all false (part_names s) s).

Definition handle : Dest t :=
  Build_Dest upload_part complete abort.

Definition init (bucket : list (string * bytes)) (blob_name prefix : string)
    (f : faults) : t :=
  mk bucket f [] blob_name prefix 0 [].

(** [GCSDest(bucket, blob_name)]: the temporary blobs are named after the
    blob, [.part-], [unique] (the hex digits of [uuid.uuid4()]) and a
    hyphen. *)
Definition new (bucket : list (string * bytes)) (blob_name unique : string)
    (f : faults) : t :=
  init bucket blob_name (blob_name ++ ".part-" ++ unique ++ "-")%string f.

End GCSDest.

(** *** [AzureDest] *)

Module AzureDest.

Inductive request : Type :=
| stage_block_req (block_id : string) (data : bytes)
| commit_block_list_req (block_list : list string)
| upload_blob_req (data : bytes)
| delete_blob_req.

(** The blob client: what is committed under the blob's name, the blocks
    staged but not committed, the outcomes of the coming requests and the
    requests sent; then the handle's [block_ids]. *)
Record t : Type := mk {
  blob : option bytes;
  staged : list (string * bytes);
  pending : faults;
  sent : list request;
  block_ids : list string
}.

Definition answered (s : t) (b : option bytes) (st : list (string * bytes))
    (f : faults) (q : request) : t :=
  mk b st f (sent s ++ [q]) (block_ids s).

(** [stage_block(block_id, data)]: the block waits, uncommitted, under its
    id; a block staged again under the same id replaces the earlier one. *)
Definition stage_block (block_id : string) (data : bytes) (s : t)
    : result unit * t :=
  let '(f, rest) := next_fault (pending s) in
  let q := stage_block_req block_id data in
  match f with
  | Some e => (Raise e, answered s (blob s) (staged s) rest q)
  | None =>
      (Ok tt,
       answered s (blob s)
         ((block_id, data) :: GCSDest.remove block_id (staged s)) rest q)
  end.

(** [commit_block_list(block_list)]: the blob becomes the staged blocks in
    the order of the list; an id that was never staged is an error. *)
Definition commit_block_list (block_list : list string) (s : t)
    : result unit * t :=
  let '(f, rest) := next_fault (pending s) in
  let q := commit_block_list_req block_list in
  match f, GCSDest.gather block_list (staged s) with
  | Some e, _ => (Raise e, answered s (blob s) (staged s) rest q)
  | None, None => (Raise (ProviderError 400), answered s (blob s) (staged s) rest q)
  | None, Some d => (Ok tt, answered s (Some d) [] rest q)
  end.

(** [upload_blob(data, overwrite=True)]. *)
Definition upload_blob (data : bytes) (s : t) : result unit * t :=
  let '(f, rest) := next_fault (pending s) in
  let q := upload_blob_req data in
  match f with
  | Some e => (Raise e, answered s (blob s) (staged s) rest q)
  | None => (Ok tt, answered s (Some data) [] rest q)
  end.

(** [delete_blob()]: the blob under the client's name goes; there being
    none is an error. *)
Definition delete_blob (s : t) : result unit * t :=
  let '(f, rest) := next_fault (pending s) in
  let q := delete_blob_req in
  match f, blob s with
  | Some e, _ => (Raise e, answered s (blob s) (staged s) rest q)
  | None, None => (Raise (ProviderError 404), answered s None (staged s) rest q)
  | None, Some _ => (Ok tt, answered s None (staged s) rest q)
  end.

(** [base64.b64encode(f"{part_number:06d}".encode()).decode('ascii')]. *)
Definition block_id_of (part_number : Z) : string :=
  Py.b64encode (Py.format_06d part_number).

Definition upload_part (part_number : Z) (data : bytes) (s : t)
    : result unit * t :=
  let block_id := block_id_of part_number in
  match stage_block block_id data s with
  | (Raise e, s1) => (Raise e, s1)
  | (Ok _, s1) =>
      (Ok tt, mk (blob s1) (staged s1) (pending s1) (sent s1)
                 (block_ids s1 ++ [block_id]))
  end.

(** [self.block_ids.sort()] compares the ids as strings. *)
Definition complete (s : t) : result unit * t :=
  match block_ids s with
  | [] => upload_blob [] s
  | _ :: _ =>
      let sorted := Py.sort (fun id : string => id) String.leb (block_ids s) in
      let s1 := mk (blob s) (staged s) (pending s) (sent s) sorted in
      commit_block_list sorted s1
  end.

(** [try: self.blob_client.delete_blob()  except Exception: pass]. *)
Definition abort (s : t) : result unit * t :=
  match delete_blob s with
  | (_, s1) => (Ok tt, s1)
  end.

Definition handle : Dest t :=
  Build_Dest upload_part complete abort.

(** [AzureDest(account, container, blob_name)] for a name that holds
    [existing]. *)
Definition init (existing : option bytes) (f : faults) : t :=
  mk existing [] f [] [].

End AzureDest.

(** *** The handles of [tests/test_move_file.py] *)

Module DummySource.

Record t : Type := mk { _data : option bytes; size : Z }.

(** [end = min(offset + length, self.size); return self._data[offset:end]]. *)
Definition read_range (offset length : Z) (s : t) : result bytes * t :=
  let last := Z.min (offset + length) (size s) in
  match _data s with
  | Some data => (Ok (slice data offset last), s)
  | None => (Raise TypeError, s)
  end.

(** [self._data = None]. *)
Definition delete (s : t) : result unit * t := (Ok tt, mk None (size s)).

Definition handle : Source t :=
  Build_Source size read_range delete.

Definition init (data : bytes) : t := mk (Some data) (len data).

End DummySource.

Module DummyDest.

Record t : Type := mk {
  parts : list (Z * bytes);
  _completed : bool;
  combined_data : option bytes
}.

Definition upload_part (part_number : Z) (data : bytes) (s : t)
    : result unit * t :=
  (Ok tt, mk (parts s ++ [(part_number, data)]) (_completed s)
             (combined_data s)).

(** [self.parts.sort(key=lambda x: x[0]);
     combined = b"".join(part[1] for part in self.parts)]. *)
Definition complete (s : t) : result unit * t :=
  let sorted := Py.sort fst Z.leb (parts s) in
  (Ok tt, mk sorted true (Some (List.concat (map snd sorted)))).

Definition abort (s : t) : result unit * t :=
  (Ok tt, mk [] (_completed s) (combined_data s)).

Definition handle : Dest t :=
  Build_Dest upload_part complete abort.

Definition init : t := mk [] false None.

End DummyDest.

(** ** Repeated uploads and concrete runs *)

(** The parts uploaded one after the other, whatever each call answers. *)
Definition upload_all {D} (h : Dest D) (parts : list (Z * bytes)) (s : D)
    : D :=
  fold_left (fun s p => snd (upload_part h (fst p) (snd p) s)) parts s.

(** Uploading part [k] a second time does not change the object that
    [complete] assembles, [object_of] being how the object is read off the
    destination's state. *)
Definition retry_safe {D O} (h : Dest D) (object_of : D -> O) (s : D)
    (k : Z) (data : bytes) : Prop :=
  object_of (snd (complete h (upload_all h [(k, data); (k, data)] s)))
  = object_of (snd (complete h (upload_all h [(k, data)] s))).

(** The Azure service answers every coming request. *)
Definition azure_answers (d : AzureDest.t) : Prop :=
  Forall (fun o => o = None) (AzureDest.pending d).

(** The block list [AzureDest.complete] asked the service to commit, when
    the last request it sent is a [commit_block_list]. *)
Definition committed_block_list (d : AzureDest.t) : option (list string) :=
  match last (AzureDest.sent d) AzureDest.delete_blob_req with
  | AzureDest.commit_block_list_req block_list => Some block_list
  | _ => None
  end.

(** A three-byte object. *)
Definition abc : bytes := [Byte.x61; Byte.x62; Byte.x63].

(** The run in which the source delete fails after a finalize that
    returned: one part read and staged, the block list committed, then
    [delete_object] refused. *)
Definition delete_failure_run
    : result bool * (S3Source.t * AzureDest.t) * list event :=
  move_file (source_of S3Source.handle) (dest_of AzureDest.handle)
    true 4 false []
    (S3Source.init abc [None; Some (ProviderError 503)],
     AzureDest.init None []).


(** A run that fails with an object already under the destination's name:
    the three reads of the only part are refused. *)
Definition failed_run_over_existing_blob
    : result bool * (S3Source.t * AzureDest.t) * list event :=
  move_file (source_of S3Source.handle) (dest_of AzureDest.handle)
    true 4 false []
    (S3Source.init abc
       [Some (ProviderError 500); Some (ProviderError 500);
        Some (ProviderError 503)],
     AzureDest.init (Some abc) []).

(** ** [parse_cloud_url]

    A [str] is a [string] of code points below 256. *)

(** *** [str] methods *)

Module PyStr.

(** [s.startswith(prefix)]. *)
Definition startswith (s prefix : string) : bool := String.prefix prefix s.

(** [sub in s], for a non-empty [sub]. *)
Fixpoint contains (sub s : string) : bool :=
  String.prefix sub s
  || match s with
     | EmptyString => false
     | String _ s' => contains sub s'
     end.

(** [s.lstrip(c)] for a one-character [c]. *)
Fixpoint lstrip (c : ascii) (s : string) : string :=
  match s with
  | String a s' => if Ascii.eqb a c then lstrip c s' else s
  | EmptyString => EmptyString
  end.

(** [s.split(c, 1)] when [c in s]: the text before the first [c] and the
    text after it. *)
Fixpoint split1 (c : ascii) (s : string) : option (string * string) :=
  match s with
  | EmptyString => None
  | String a s' =>
      if Ascii.eqb a c then Some (EmptyString, s')
      else
        match split1 c s' with
        | Some (before, after) => Some (String a before, after)
        | None => None
        end
  end.

(** [s.split(c)[0]]: the text before the first [c], all of [s] when there
    is none. *)
Definition split_first (c : ascii) (s : string) : string :=
  match split1 c s with
  | Some (before, _) => before
  | None => s
  end.

(** [s.rstrip(c)] for a one-character [c]. *)
Fixpoint rstrip (c : ascii) (s : string) : string :=
  match s with
  | EmptyString => EmptyString
  | String a s' =>
      match rstrip c s' with
      | EmptyString => if Ascii.eqb a c then EmptyString else String a EmptyString
      | r => String a r
      end
  end.

(** [s.strip(c)] for a one-character [c]. *)
Definition strip (c : ascii) (s : string) : string := rstrip c (lstrip c s).

(** Every character of [s] satisfies [cls]. *)
Fixpoint all_chars (cls : ascii -> bool) (s : string) : bool :=
  match s with
  | EmptyString => true
  | String a s' => cls a && all_chars cls s'
  end.

End PyStr.

(** *** The [re] patterns *)

Module Re.

(** The pattern constructs the program uses: literal text, [cls+]
    (greedy), a numbered capturing group, [(?:r)?] (greedy), concatenation
    and [$]. *)
Inductive regex : Type :=
| Lit (text : string)
| Plus (cls : ascii -> bool)
| Group (n : nat) (r : regex)
| Opt (r : regex)
| Seq (r1 r2 : regex)
| Eos.

(** [[^/]]. *)
Definition not_slash (c : ascii) : bool := negb (Ascii.eqb c "/"%char).

(** [.]: anything but a newline. *)
Definition dot (c : ascii) : bool := negb (Ascii.eqb c (ascii_of_nat 10)).

(** [\w] on a [str] pattern: [c.isalnum()] or an underscore. *)
Definition word (c : ascii) : bool :=
  let n := N_of_ascii c in
  ((48 <=? n) && (n <=? 57) || (65 <=? n) && (n <=? 90) || (n =? 95)
   || (97 <=? n) && (n <=? 122) || (n =? 170) || (178 <=? n) && (n <=? 179)
   || (n =? 181) || (185 <=? n) && (n <=? 186) || (188 <=? n) && (n <=? 190)
   || (192 <=? n) && (n <=? 214) || (216 <=? n) && (n <=? 246)
   || (248 <=? n) && (n <=? 255))%N.

(** The groups that took part in a match, the last one set first. *)
Definition groups : Type := list (nat * string).

(** [m.group(n)], [None] when group [n] took no part in the match. *)
Fixpoint group (n : nat) (m : groups) : option string :=
  match m with
  | [] => None
  | (k, text) :: m' => if Nat.eqb k n then Some text else group n m'
  end.

(** What a sub-pattern consumed of [s], [rest] being what it left. *)
Definition taken (s rest : string) : string :=
  String.substring 0 (String.length s - String.length rest) s.

Section Matcher.

Variable A : Type.

(** [cls*] followed by [k]: the longest run first, then shorter ones. *)
Fixpoint star (cls : ascii -> bool) (s : string) (k : string -> option A)
    : option A :=
  match s with
  | String c s' =>
      if cls c
      then match star cls s' k with
           | Some r => Some r
           | None => k s
           end
      else k s
  | EmptyString => k s
  end.

Definition plus (cls : ascii -> bool) (s : string) (k : string -> option A)
    : option A :=
  match s with
  | String c s' => if cls c then star cls s' k else None
  | EmptyString => None
  end.

End Matcher.

(** The backtracking matcher: [r] on [s], then [k] on what [r] left;
    every alternative is tried in the order [re] tries it. *)
Fixpoint run (r : regex) (s : string) (m : groups)
    (k : string -> groups -> option groups) : option groups :=
  match r with
  | Lit text =>
      if String.prefix text s
      then k (String.substring (String.length text)
                (String.length s - String.length text) s) m
      else None
  | Plus cls => plus cls s (fun rest => k rest m)
  | Group n r' =>
      run r' s m (fun rest m' => k rest ((n, taken s rest) :: m'))
  | Opt r' =>
      match run r' s m k with
      | Some m' => Some m'
      | None => k s m
      end
  | Seq r1 r2 => run r1 s m (fun rest m' => run r2 rest m' k)
  | Eos =>
      if String.eqb s EmptyString
         || String.eqb s (String (ascii_of_nat 10) EmptyString)
      then k s m
      else None
  end.

(** [rest] does not start with a [cls] character: a run of [cls]
    characters before it cannot be made longer. *)
Definition stops (cls : ascii -> bool) (rest : string) : Prop :=
  match rest with
  | String c _ => cls c = false
  | EmptyString => True
  end.

(** The texts [cls+] matches. *)
Definition one_or_more (cls : ascii -> bool) (s : string) : Prop :=
  s <> EmptyString /\ PyStr.all_chars cls s = true.

(** Where [$] holds: at the end, or before a newline that ends the
    string. *)
Definition at_end (rest : string) : Prop :=
  rest = EmptyString \/ rest = String (ascii_of_nat 10) EmptyString.

(** [re.match(r, s)]: a match at the start of [s]. *)
Definition match_ (r : regex) (s : string) : option groups :=
  run r s [] (fun _ m => Some m).

End Re.

Infix ">>" := Re.Seq (at level 60, right associativity).

(** [r'^s3://([^/]+)/(.+)$'] and [r'^gs://([^/]+)/(.+)$']; [re.match]
    starts at the start of the string, where [^] holds. *)
Definition bucket_pattern (scheme : string) : Re.regex :=
  Re.Lit scheme >> Re.Group 1 (Re.Plus Re.not_slash) >> Re.Lit "/"
  >> Re.Group 2 (Re.Plus Re.dot) >> Re.Eos.

(** [r'^azure://(?:(\w+)@)?([^/]+)/(.+)$']. *)
Definition azure_pattern : Re.regex :=
  Re.Lit "azure://" >> Re.Opt (Re.Group 1 (Re.Plus Re.word) >> Re.Lit "@")
  >> Re.Group 2 (Re.Plus Re.not_slash) >> Re.Lit "/"
  >> Re.Group 3 (Re.Plus Re.dot) >> Re.Eos.

(** The second component of the tuple [parse_cloud_url] returns: a bucket
    name, or for Azure the pair [(account, container)]. *)
Inductive bucket_id : Type :=
| Bucket (name : string)
| AccountContainer (account : option string) (container : string).

(** [account or None]. *)
Definition or_None (account : option string) : option string :=
  match account with
  | Some EmptyString => None
  | _ => account
  end.

Section ParseCloudUrl.

(** [urllib.parse.urlparse], as far as the program reads its result:
    [(parsed.netloc, parsed.path)]. *)
Variable urlparse : string -> result (string * string).

(** The [https://] branch. *)
Definition parse_https_url (url : string)
    : result (string * bucket_id * string) :=
  match urlparse url with
  | Raise e => Raise e
  | Ok (netloc, path) =>
      let account := PyStr.split_first "."%char netloc in
      let path := PyStr.lstrip "/"%char path in
      match PyStr.split1 "/"%char path with
      | None => Raise ValueError
      | Some (container, blob) =>
          Ok ("azure"%string, AccountContainer (Some account) container, blob)
      end
  end.

(** The two-group branches: [if url.startswith(scheme): m = re.match(...);
    if m: return (provider, *m.groups())]. *)
Definition parse_bucket_url (scheme provider url : string)
    : option (string * bucket_id * string) :=
  if PyStr.startswith url scheme then
    match Re.match_ (bucket_pattern scheme) url with
    | Some m =>
        match Re.group 1 m, Re.group 2 m with
        | Some bucket, Some key => Some (provider, Bucket bucket, key)
        | _, _ => None
        end
    | None => None
    end
  else None.

Definition parse_azure_url (url : string)
    : option (string * bucket_id * string) :=
  if PyStr.startswith url "azure://" then
    match Re.match_ azure_pattern url with
    | Some m =>
        match Re.group 2 m, Re.group 3 m with
        | Some container, Some blob =>
            Some ("azure"%string,
                  AccountContainer (or_None (Re.group 1 m)) container, blob)
        | _, _ => None
        end
    | None => None
    end
  else None.

Definition parse_cloud_url (url : string)
    : result (string * bucket_id * string) :=
  match parse_bucket_url "s3://" "s3" url with
  | Some r => Ok r
  | None =>
  match parse_bucket_url "gs://" "gcs" url with
  | Some r => Ok r
  | None =>
  match parse_azure_url url with
  | Some r => Ok r
  | None =>
      if PyStr.startswith url "https://"
         && PyStr.contains ".blob.core.windows.net" url
      then parse_https_url url
      else Raise ValueError
  end end end.

End ParseCloudUrl.

(** The texts [(\w+)@([^/]+)/(.+)$] matches: an account, a container and
    a blob name. *)
Definition account_form (rest account container blob : string) : Prop :=
  exists tail,
    rest = (account ++ "@" ++ container ++ "/" ++ blob ++ tail)%string
    /\ Re.one_or_more Re.word account
    /\ Re.one_or_more Re.not_slash container
    /\ Re.one_or_more Re.dot blob
    /\ Re.at_end tail.

(** The texts [([^/]+)/(.+)$] matches. *)
Definition bucket_form (rest bucket key : string) : Prop :=
  exists tail,
    rest = (bucket ++ "/" ++ key ++ tail)%string
    /\ Re.one_or_more Re.not_slash bucket
    /\ Re.one_or_more Re.dot key
    /\ Re.at_end tail.

(** [@] is not in the text. *)
Definition not_at (c : ascii) : bool := negb (Ascii.eqb c "@"%char).

(** The container text starts with an account: one or more word
    characters before its first [@], and something after it. *)
Definition has_account (container : string) : bool :=
  match PyStr.split1 "@"%char container with
  | Some (account, rest) =>
      negb (String.eqb account EmptyString)
      && PyStr.all_chars Re.word account
      && negb (String.eqb rest EmptyString)
  | None => false
  end.

(** The text after the scheme has a first [/] with something before it
    and something after it. *)
Definition bucket_and_key (rest : string) : bool :=
  match PyStr.split1 "/"%char rest with
  | Some (String _ _, String _ _) => true
  | _ => false
  end.

(** A parser that answers every URL with the same netloc and path. *)
Definition urlparse_const (netloc path : string) (url : string)
    : result (string * string) :=
  Ok (netloc, path).

(** ** More readings of a trace *)

(** The parts whose futures ended, in the order they ended. *)
Definition futures (t : list event) : list Z :=
  flat_map (fun ev => match ev with FutureDone i _ => [i] | _ => [] end) t.

(** Part [i + 1] of [data], as [transfer_part] hands it to [upload_part]. *)
Definition tagged_chunk (max_part_size : Z) (data : bytes) (i : Z)
    : Z * bytes :=
  (i + 1, chunk max_part_size data i).

(** The entry [S3Dest.upload_part] records for an accepted part, the
    service answering with the ETags [etag_of]. *)
Definition s3_part (etag_of : Z -> bytes -> string) (kd : Z * bytes)
    : S3Dest.part :=
  S3Dest.mkpart (S3Dest.strip_quotes (etag_of (fst kd) (snd kd))) (fst kd).

(** A five-byte object. *)
Definition abcde : bytes := [Byte.x61; Byte.x62; Byte.x63; Byte.x64; Byte.x65].

(** A bucket (or the staged blocks of a blob) after [name] was written. *)
Definition put (name : string) (data : bytes) (l : list (string * bytes))
    : list (string * bytes) :=
  (name, data) :: GCSDest.remove name l.

(** The bucket after the uploads [u] were accepted, each stored under the
    name [name_of] gives its part number. *)
Definition stored (name_of : Z -> string) (u : list (Z * bytes))
    (bucket : list (string * bytes)) : list (string * bytes) :=
  fold_left (fun b kd => put (name_of (fst kd)) (snd kd) b) u bucket.

(** Every coming request is answered. *)
Definition answered (f : faults) : Prop := Forall (fun o => o = None) f.

(** ** [S3Dest] in the copy under [build/lib]

    There [upload_part] strips every quote at either end of the ETag
    ([resp['ETag'].strip(q)]) and [abort] is not guarded. *)

Module BuildLibS3Dest.

Definition quote : ascii := ascii_of_nat 34.

Definition upload_part (part_number : Z) (data : bytes) (s : S3Dest.t)
    : result unit * S3Dest.t :=
  match S3Dest.request_ (S3Dest.upload_part_req part_number data) s with
  | (Raise e, s1) => (Raise e, s1)
  | (Ok _, s1) =>
      let etag := PyStr.strip quote (S3Dest.etag_of s1 part_number data) in
      (Ok tt, S3Dest.mk (S3Dest.etag_of s1) (S3Dest.pending s1) (S3Dest.sent s1)
                (S3Dest.parts s1 ++ [S3Dest.mkpart etag part_number])
                (S3Dest.warnings s1))
  end.

(** [self.client.abort_multipart_upload(...)], as it is. *)
Definition abort (s : S3Dest.t) : result unit * S3Dest.t :=
  S3Dest.request_ S3Dest.abort_multipart_upload_req s.

Definition handle : Dest S3Dest.t :=
  Build_Dest upload_part S3Dest.complete abort.

End BuildLibS3Dest.
(** ** Exactness of the float computation below 2^53 *)

Lemma ilog2_quot_lower (a b : Z) :
  0 < b -> b <= a -> 0 <= Py.ilog2_quot a b /\ b * 2 ^ Py.ilog2_quot a b <= a.
Proof.
  intros Hb Hab.
  assert (Ha : 0 < a) by lia.
  pose proof (Z.log2_le_mono b a Hab) as Hl.
  destruct (Z.log2_spec a Ha) as [Ha1 Ha2].
  destruct (Z.log2_spec b Hb) as [Hb1 Hb2].
  unfold Py.ilog2_quot.
  set (e0 := Z.log2 a - Z.log2 b).
  assert (He0 : 0 <= e0) by (unfold e0; lia).
  rewrite (Z.max_r 0 e0) by lia.
  rewrite (Z.max_l 0 (- e0)) by lia.
  rewrite Z.pow_0_r, Z.mul_1_r.
  destruct (Z.leb_spec (b * 2 ^ e0) a) as [Hle | Hgt].
  - split; [lia | exact Hle].
  - assert (He1 : e0 <> 0).
    { intro E. rewrite E, Z.pow_0_r in Hgt. lia. }
    split; [lia|].
    assert (Hp : 2 ^ Z.log2 a = 2 ^ (e0 - 1) * 2 ^ Z.succ (Z.log2 b)).
    { rewrite <- Z.pow_add_r by (pose proof (Z.log2_nonneg b); lia).
      f_equal. unfold e0. lia. }
    assert (Hpos : 0 < 2 ^ (e0 - 1)) by (apply Z.pow_pos_nonneg; lia).
    nia.
Qed.

Lemma ilog2_quot_upper (a b : Z) :
  0 < b -> b <= a -> a < 2 ^ 53 -> Py.ilog2_quot a b <= 52.
Proof.
  intros Hb Hab Ha.
  assert (Ha0 : 0 < a) by lia.
  assert (Z.log2 a < 53) by (apply Z.log2_lt_pow2; lia).
  pose proof (Z.log2_nonneg b).
  unfold Py.ilog2_quot.
  destruct (_ <=? _); lia.
Qed.

Lemma ceil_div_bounds (a b : Z) :
  0 < b -> (ceil_div a b - 1) * b < a <= ceil_div a b * b.
Proof.
  intros Hb. unfold ceil_div.
  pose proof (Z.div_mod (a + b - 1) b ltac:(lia)) as Hdm.
  pose proof (Z.mod_pos_bound (a + b - 1) b Hb). nia.
Qed.

(** For [0 < b <= a < 2^53] the rounded quotient [m / 2^sh] lies in the
    last unit interval below the exact ceiling. *)
Lemma round_quot_spec (a b : Z) :
  0 < b -> b <= a -> a < 2 ^ 53 ->
  exists sh m,
    Py.round_quot a b = Py.mkfloat m (- sh) /\
    0 <= sh <= 52 /\
    (ceil_div a b - 1) * 2 ^ sh < m <= ceil_div a b * 2 ^ sh.
Proof.
  intros Hb Hab Ha.
  destruct (ilog2_quot_lower Hb Hab) as [Hex0 Hexa].
  pose proof (ilog2_quot_upper Hb Hab Ha) as Hex1.
  unfold Py.round_quot.
  set (ex := Py.ilog2_quot a b) in *.
  rewrite (Z.min_l (52 - ex) 1074) by lia.
  set (sh := 52 - ex).
  assert (Hsh : 0 <= sh <= 52) by (unfold sh; lia).
  rewrite (Z.max_r 0 sh) by lia.
  rewrite (Z.max_l 0 (- sh)) by lia.
  rewrite Z.pow_0_r, Z.mul_1_r.
  set (P := 2 ^ sh).
  assert (HP : 0 < P) by (apply Z.pow_pos_nonneg; lia).
  assert (HPex : P * 2 ^ ex = 2 ^ 52).
  { unfold P. rewrite <- Z.pow_add_r by lia. f_equal. unfold sh. lia. }
  assert (Hexpos : 0 < 2 ^ ex) by (apply Z.pow_pos_nonneg; lia).
  set (c := ceil_div a b).
  pose proof (ceil_div_bounds a Hb) as Hc. fold c in Hc.
  pose proof (Z.div_mod (a * P) b ltac:(lia)) as Hdm.
  pose proof (Z.mod_pos_bound (a * P) b Hb) as Hr.
  set (q := a * P / b) in *.
  set (r := (a * P) mod b) in *.
  assert (Hq_hi : q <= c * P) by nia.
  assert (Hq_lo : (c - 1) * P <= q) by nia.
  exists sh.
  exists (if (b <? 2 * r) || ((2 * r =? b) && Z.odd q) then q + 1 else q).
  split; [reflexivity|]. split; [exact Hsh|].
  destruct (Z.eq_dec q (c * P)) as [Eq | Nq].
  - assert (Hr0 : r = 0) by nia.
    rewrite Hr0.
    replace (b <? 2 * 0) with false by (symmetry; apply Z.ltb_ge; lia).
    replace (2 * 0 =? b) with false by (symmetry; apply Z.eqb_neq; lia).
    simpl. nia.
  - destruct (Z.eq_dec q ((c - 1) * P)) as [Eq | Nq'].
    + assert (Hrr : r = (a - (c - 1) * b) * P) by nia.
      assert (Hbig : b < 2 * r).
      { destruct (Z_lt_le_dec b (2 * r)) as [|Hle]; [assumption|exfalso].
        assert (1 <= a - (c - 1) * b) by lia.
        assert (2 * P <= b) by nia.
        assert (2 * 2 ^ 52 <= b * 2 ^ ex) by nia.
        change (2 ^ 53) with (2 * 2 ^ 52) in Ha. lia. }
      replace (b <? 2 * r) with true by (symmetry; apply Z.ltb_lt; lia).
      simpl. lia.
    + destruct (_ || _); lia.
Qed.

(** Whatever the size of [a], a quotient of at least one rounds to at least
    one. *)
Lemma ceil_round_quot_ge_one (a b : Z) :
  0 < b -> b <= a -> 1 <= Py.ceil (Py.round_quot a b).
Proof.
  intros Hb Hab.
  destruct (ilog2_quot_lower Hb Hab) as [Hex0 Hexa].
  unfold Py.round_quot.
  set (ex := Py.ilog2_quot a b) in *.
  rewrite (Z.min_l (52 - ex) 1074) by lia.
  set (sh := 52 - ex).
  assert (Hexpos : 0 < 2 ^ ex) by (apply Z.pow_pos_nonneg; lia).
  unfold Py.ceil. cbn [Py.expo Py.mant].
  destruct (Z_le_gt_dec 0 sh) as [Hsh | Hsh].
  - rewrite (Z.max_r 0 sh) by lia.
    rewrite (Z.max_l 0 (- sh)) by lia.
    rewrite Z.pow_0_r, Z.mul_1_r.
    set (P := 2 ^ sh).
    assert (HP : 0 < P) by (apply Z.pow_pos_nonneg; lia).
    assert (HPex : P * 2 ^ ex = 2 ^ 52).
    { unfold P. rewrite <- Z.pow_add_r by lia. f_equal. unfold sh. lia. }
    pose proof (Z.div_mod (a * P) b ltac:(lia)) as Hdm.
    pose proof (Z.mod_pos_bound (a * P) b Hb) as Hr.
    set (q := a * P / b) in *.
    set (r := (a * P) mod b) in *.
    assert (Hq : 2 ^ 52 <= q) by nia.
    assert (HP52 : P <= 2 ^ 52) by nia.
    set (m := if (b <? 2 * r) || ((2 * r =? b) && Z.odd q) then q + 1 else q).
    assert (Hm : P <= m) by (unfold m; destruct (_ || _); lia).
    destruct (Z.leb_spec 0 (- sh)).
    + replace (- sh) with 0 by lia. rewrite Z.pow_0_r. lia.
    + rewrite Z.opp_involutive. fold P.
      pose proof (Z.div_mod (- m) P ltac:(lia)) as Hdm'.
      pose proof (Z.mod_pos_bound (- m) P HP) as Hr'.
      nia.
  - rewrite (Z.max_l 0 sh) by lia.
    rewrite (Z.max_r 0 (- sh)) by lia.
    rewrite Z.pow_0_r, Z.mul_1_r.
    set (P := 2 ^ (- sh)).
    assert (HP : 0 < P) by (apply Z.pow_pos_nonneg; lia).
    assert (HPex : 2 ^ ex = P * 2 ^ 52).
    { unfold P. rewrite <- Z.pow_add_r by lia. f_equal. unfold sh. lia. }
    assert (Hd : 0 < b * P) by nia.
    pose proof (Z.div_mod a (b * P) ltac:(lia)) as Hdm.
    pose proof (Z.mod_pos_bound a (b * P) Hd) as Hr.
    set (q := a / (b * P)) in *.
    set (r := a mod (b * P)) in *.
    assert (Hq : 1 <= q).
    { assert (0 < 2 ^ 52) by (apply Z.pow_pos_nonneg; lia). nia. }
    set (m := if (b * P <? 2 * r) || ((2 * r =? b * P) && Z.odd q)
              then q + 1 else q).
    assert (Hm : 1 <= m) by (unfold m; destruct (_ || _); lia).
    replace (0 <=? - sh) with true by (symmetry; apply Z.leb_le; lia).
    fold P. nia.
Qed.

(** ** The planner *)

Section PlannerFacts.

Variable max_part_size : Z.
Hypothesis max_pos : 0 < max_part_size.

Lemma chunk_size_min (size : Z) :
  chunk_size max_part_size size = Z.min size max_part_size.
Proof.
  unfold chunk_size. destruct (Z.ltb_spec size max_part_size); lia.
Qed.

(** An empty object stops the planner: the division is by zero. *)
Lemma num_parts_zero :
  num_parts max_part_size 0 = Raise ZeroDivisionError.
Proof.
  unfold num_parts, chunk_size.
  replace (0 <? max_part_size) with true by (symmetry; apply Z.ltb_lt; lia).
  reflexivity.
Qed.

(** Below 2^53 bytes the float division is exact: the part count is the
    ceiling of [size / min(size, max_part_size)]. *)
Lemma num_parts_exact (size : Z) :
  0 < size -> size < 2 ^ 53 ->
  num_parts max_part_size size
  = Ok (ceil_div size (Z.min size max_part_size)).
Proof.
  intros Hs Hb. unfold num_parts. rewrite chunk_size_min.
  set (b := Z.min size max_part_size).
  assert (Hb0 : 0 < b) by (unfold b; lia).
  assert (Hbs : b <= size) by (unfold b; lia).
  unfold Py.truediv.
  replace (b =? 0) with false by (symmetry; apply Z.eqb_neq; lia).
  replace (size =? 0) with false by (symmetry; apply Z.eqb_neq; lia).
  rewrite (Z.abs_eq size), (Z.abs_eq b) by lia.
  destruct (round_quot_spec Hb0 Hbs Hb) as (sh & m & E & Hsh & Hm).
  pose proof (ceil_div_bounds size Hb0) as Hc.
  set (c := ceil_div size b) in *.
  assert (Hc1 : 1 <= c <= size) by nia.
  rewrite E. cbn [Py.expo Py.mant].
  assert (HP : 0 < 2 ^ sh) by (apply Z.pow_pos_nonneg; lia).
  replace (Z.sgn size * Z.sgn b * m) with m
    by (rewrite !Z.sgn_pos by lia; lia).
  assert (Hov : (0 <=? - sh) && (2 ^ 1024 <=? m * 2 ^ (- sh)) = false).
  { destruct (Z.leb_spec 0 (- sh)); [|reflexivity].
    assert (sh = 0) by lia. subst sh.
    change (- 0) with 0. change (2 ^ 0) with 1 in *.
    apply Z.leb_gt.
    assert (2 ^ 53 < 2 ^ 1024) by (apply Z.pow_lt_mono_r; lia).
    lia. }
  rewrite Hov. f_equal.
  unfold Py.ceil. cbn [Py.expo Py.mant].
  destruct (Z.leb_spec 0 (- sh)).
  - assert (sh = 0) by lia. subst sh.
    change (- 0) with 0. change (2 ^ 0) with 1 in *. lia.
  - rewrite Z.opp_involutive.
    pose proof (Z.div_mod (- m) (2 ^ sh) ltac:(lia)) as Hdm'.
    pose proof (Z.mod_pos_bound (- m) (2 ^ sh) HP) as Hr'.
    nia.
Qed.

(** Whenever the planner returns, it returns at least one part. *)
Lemma num_parts_ge_one (size n : Z) :
  num_parts max_part_size size = Ok n -> 1 <= n.
Proof.
  unfold num_parts. rewrite chunk_size_min.
  set (b := Z.min size max_part_size).
  unfold Py.truediv.
  destruct (Z.eqb_spec b 0) as [|Hb0]; [discriminate|].
  destruct (Z.eqb_spec size 0) as [Hs0|Hs0]; [unfold b in *; lia|].
  set (f := Py.round_quot (Z.abs size) (Z.abs b)).
  destruct (_ && _); [discriminate|].
  intros E. injection E as <-.
  assert (Hsg : Z.sgn size * Z.sgn b = 1).
  { unfold b. destruct (Z_lt_le_dec size 0).
    - rewrite Z.min_l by lia. rewrite Z.sgn_neg by lia. lia.
    - rewrite !Z.sgn_pos by lia. lia. }
  assert (Hab : 0 < Z.abs b /\ Z.abs b <= Z.abs size) by (unfold b in *; lia).
  destruct Hab as [Hb1 Hb2].
  pose proof (ceil_round_quot_ge_one Hb1 Hb2) as H1. fold f in H1.
  unfold Py.ceil in *. cbn [Py.expo Py.mant].
  rewrite Hsg, Z.mul_1_l. exact H1.
Qed.

End PlannerFacts.

(** ** Traces *)

Lemma count_app (p : event -> bool) (t1 t2 : list event) :
  count p (t1 ++ t2) = (count p t1 + count p t2)%nat.
Proof. unfold count. rewrite filter_app, length_app. reflexivity. Qed.

Lemma count_cons (p : event -> bool) (ev : event) (t : list event) :
  count p (ev :: t) = ((if p ev then 1 else 0) + count p t)%nat.
Proof. unfold count. simpl. destruct (p ev); reflexivity. Qed.

Lemma count_nil (p : event -> bool) : count p [] = O.
Proof. reflexivity. Qed.

Lemma count_zero_Forall (p : event -> bool) (t : list event) :
  Forall (fun ev => p ev = false) t -> count p t = O.
Proof.
  induction 1 as [|ev t H _ IH]; [reflexivity|].
  rewrite count_cons, H, IH. reflexivity.
Qed.

Lemma count_zero_not_In (p : event -> bool) (t : list event) (ev : event) :
  count p t = O -> p ev = true -> ~ In ev t.
Proof.
  induction t as [|x t IH]; [intros _ _ []|].
  rewrite count_cons. intros H Hp [<-|Hin].
  - rewrite Hp in H. discriminate.
  - apply IH; [lia | assumption | assumption].
Qed.

Lemma sleeps_app (t1 t2 : list event) :
  sleeps (t1 ++ t2) = sleeps t1 ++ sleeps t2.
Proof. unfold sleeps. apply flat_map_app. Qed.

Lemma uploads_app (t1 t2 : list event) :
  uploads (t1 ++ t2) = uploads t1 ++ uploads t2.
Proof. unfold uploads. apply flat_map_app. Qed.

Lemma first_failure_app (t1 t2 : list event) :
  first_failure (t1 ++ t2)
  = match first_failure t1 with
    | Some e => Some e
    | None => first_failure t2
    end.
Proof.
  unfold first_failure. rewrite flat_map_app.
  destruct (flat_map _ t1); reflexivity.
Qed.

Lemma all_app (p : event -> bool) (t1 t2 : list event) :
  all p t1 -> all p t2 -> all p (t1 ++ t2).
Proof. unfold all. intros. apply Forall_app. split; assumption. Qed.

Lemma all_worker_copy (t : list event) : all is_worker t -> all is_copy t.
Proof.
  unfold all. apply Forall_impl. intros [] H; try reflexivity; exact H.
Qed.

Lemma all_copy_count (p : event -> bool) (t : list event) :
  (forall ev, is_copy ev = true -> p ev = false) ->
  all is_copy t -> count p t = O.
Proof.
  intros Hp H. apply count_zero_Forall.
  revert H. apply Forall_impl. exact Hp.
Qed.

Lemma copy_not_complete ev : is_copy ev = true -> is_complete ev = false.
Proof. destruct ev as [| | | |[]| | | |]; cbv; congruence. Qed.

Lemma copy_not_delete ev : is_copy ev = true -> is_delete ev = false.
Proof. destruct ev as [| | | |[]| | | |]; cbv; congruence. Qed.

Lemma copy_not_abort ev : is_copy ev = true -> is_abort ev = false.
Proof. destruct ev as [| | | |[]| | | |]; cbv; congruence. Qed.

Lemma copy_not_terminal ev : is_copy ev = true -> is_terminal ev = false.
Proof. destruct ev as [| | | |[]| | | |]; cbv; congruence. Qed.

Lemma worker_first_failure (t : list event) :
  all is_worker t -> first_failure t = None.
Proof.
  induction 1 as [|ev t H _ IH]; [reflexivity|].
  change (ev :: t) with ([ev] ++ t). rewrite first_failure_app, IH.
  destruct ev; try reflexivity; discriminate.
Qed.

Lemma first_failure_In (t : list event) (i : Z) (e : exn) :
  In (FutureDone i (Some e)) t -> exists e1, first_failure t = Some e1.
Proof.
  induction t as [|ev t IH]; [intros []|].
  change (ev :: t) with ([ev] ++ t). rewrite first_failure_app.
  intros [->|Hin].
  - exists e. reflexivity.
  - destruct (first_failure [ev]) as [e0|]; [exists e0; reflexivity|].
    apply IH. exact Hin.
Qed.

(** ** The monad *)

Section MonadFacts.

Context {S : Type}.

Lemma bind_inv {A B} (m : M S A) (k : A -> M S B) s r s' t :
  bind m k s = (r, s', t) ->
  (exists a s1 t1 t2,
      m s = (Ok a, s1, t1) /\ k a s1 = (r, s', t2) /\ t = t1 ++ t2)
  \/ (exists e, m s = (Raise e, s', t) /\ r = Raise e).
Proof.
  unfold bind. destruct (m s) as [[[a|e] s1] t1].
  - destruct (k a s1) as [[r2 s2] t2] eqn:E. intros H. injection H as <- <- <-.
    left. exists a, s1, t1, t2. auto.
  - intros H. injection H as <- <- <-. right. exists e. auto.
Qed.

Lemma try_catch_inv {A} (m : M S A) (h : exn -> M S A) s r s' t :
  try_catch m h s = (r, s', t) ->
  (exists a, m s = (Ok a, s', t) /\ r = Ok a)
  \/ (exists e s1 t1 t2,
         m s = (Raise e, s1, t1) /\ h e s1 = (r, s', t2) /\ t = t1 ++ t2).
Proof.
  unfold try_catch. destruct (m s) as [[[a|e] s1] t1].
  - intros H. injection H as <- <- <-. left. exists a. auto.
  - destruct (h e s1) as [[r2 s2] t2] eqn:E. intros H. injection H as <- <- <-.
    right. exists e, s1, t1, t2. auto.
Qed.

Lemma call_inv {A} (f : S -> result A * S) (ev : option exn -> event)
    s r s' t :
  call f ev s = (r, s', t) -> f s = (r, s') /\ t = [ev (exc_of r)].
Proof.
  unfold call. destruct (f s) as [r1 s1]. intros H. injection H as <- <- <-.
  auto.
Qed.

Lemma emit_inv (ev : event) (s : S) r s' t :
  emit ev s = (r, s', t) -> r = Ok tt /\ s' = s /\ t = [ev].
Proof. unfold emit. intros H. injection H as <- <- <-. auto. Qed.

Lemma ret_inv {A} (a : A) (s : S) r s' t :
  ret a s = (r, s', t) -> r = Ok a /\ s' = s /\ t = [].
Proof. unfold ret. intros H. injection H as <- <- <-. auto. Qed.

Lemma raise_inv {A} (e : exn) (s : S) (r : result A) s' t :
  raise e s = (r, s', t) -> r = Raise e /\ s' = s /\ t = [].
Proof. unfold raise. intros H. injection H as <- <- <-. auto. Qed.

Lemma bind_emit_inv {B} (ev : event) (k : unit -> M S B) s r s' t :
  bind (emit ev) k s = (r, s', t) ->
  exists t2, k tt s = (r, s', t2) /\ t = ev :: t2.
Proof.
  unfold bind, emit. destruct (k tt s) as [[r2 s2] t2].
  intros H. injection H as <- <- <-. exists t2. auto.
Qed.

End MonadFacts.

(** Take a run apart along its binds and handlers. *)
Ltac run_inv H :=
  match type of H with
  | bind _ _ _ = _ =>
      let a := fresh "a" in let s1 := fresh "s" in
      let t1 := fresh "t" in let t2 := fresh "t" in
      let e := fresh "e" in
      let H1 := fresh "Hrun" in let H2 := fresh "Hrun" in
      let Ht := fresh "Ht" in
      apply bind_inv in H;
      destruct H as [(a & s1 & t1 & t2 & H1 & H2 & Ht) | (e & H1 & Ht)]
  | try_catch _ _ _ = _ =>
      let a := fresh "a" in let s1 := fresh "s" in
      let t1 := fresh "t" in let t2 := fresh "t" in
      let e := fresh "e" in
      let H1 := fresh "Hrun" in let H2 := fresh "Hrun" in
      let Ht := fresh "Ht" in
      apply try_catch_inv in H;
      destruct H as [(a & H1 & Ht) | (e & s1 & t1 & t2 & H1 & H2 & Ht)]
  | call _ _ _ = _ =>
      let H1 := fresh "Hcall" in let Ht := fresh "Ht" in
      apply call_inv in H; destruct H as [H1 Ht]
  | emit _ _ = _ =>
      let Hr := fresh "Hr" in let Hs := fresh "Hs" in let Ht := fresh "Ht" in
      apply emit_inv in H; destruct H as (Hr & Hs & Ht)
  | ret _ _ = _ =>
      let Hr := fresh "Hr" in let Hs := fresh "Hs" in let Ht := fresh "Ht" in
      apply ret_inv in H; destruct H as (Hr & Hs & Ht)
  | raise _ _ = _ =>
      let Hr := fresh "Hr" in let Hs := fresh "Hs" in let Ht := fresh "Ht" in
      apply raise_inv in H; destruct H as (Hr & Hs & Ht)
  end.

(** ** One part: [transfer_part] *)

Section WorkerFacts.

Variable S : Type.
Variable src : Source S.
Variable dest : Dest S.
Variable max_part_size : Z.
Variable tqdm_installed : bool.
Variable file_size : Z.
Variable show_progress : bool.

(** A property of the state, given the uploads accepted so far, that
    reads and uploads keep. *)
Variable Inv : list (Z * bytes) -> S -> Prop.

Hypothesis Inv_read :
  forall u offset length st r st',
    Inv u st -> read_range src offset length st = (r, st') -> Inv u st'.

Hypothesis Inv_upload :
  forall u k d st r st',
    Inv u st -> upload_part dest k d st = (r, st') ->
    Inv (u ++ match r with Ok _ => [(k, d)] | Raise _ => [] end) st'.

Local Abbreviation attempt_ :=
  (attempt_part src dest max_part_size tqdm_installed file_size show_progress).
Local Abbreviation loop_ :=
  (retry_loop src dest max_part_size tqdm_installed file_size show_progress).
Local Abbreviation transfer_ :=
  (transfer_part src dest max_part_size tqdm_installed file_size show_progress).
Local Abbreviation offset_of := (part_offset max_part_size file_size).
Local Abbreviation length_of := (bytes_to_read max_part_size file_size).

Local Abbreviation read_ := (read_of Inv src max_part_size file_size).
Local Abbreviation pevents :=
  (progress_events tqdm_installed file_size show_progress).

(** One attempt is a read, then an upload when the read returned. *)
Lemma attempt_part_run (i : Z) s r s' t :
  attempt_ i s = (r, s', t) ->
  (exists e, read_range src (offset_of i) (length_of i) s = (Raise e, s')
             /\ r = Raise e
             /\ t = [ReadRange (offset_of i) (length_of i) (Some e)])
  \/ (exists d s1 e,
         read_range src (offset_of i) (length_of i) s = (Ok d, s1)
         /\ upload_part dest (i + 1) d s1 = (Raise e, s')
         /\ r = Raise e
         /\ t = [ReadRange (offset_of i) (length_of i) None;
                 UploadPart (i + 1) d (Some e)])
  \/ (exists d s1,
         read_range src (offset_of i) (length_of i) s = (Ok d, s1)
         /\ upload_part dest (i + 1) d s1 = (Ok tt, s')
         /\ r = Ok tt
         /\ t = [ReadRange (offset_of i) (length_of i) None;
                 UploadPart (i + 1) d None] ++ pevents d).
Proof.
  unfold attempt_part.
  unfold progress_events.
  intros H. run_inv H.
  - run_inv Hrun. run_inv Hrun0.
    + run_inv Hrun. subst.
      right. destruct r as [[]|e0].
      * right. exists a, s0.
        destruct a0. simpl in *. repeat split; try assumption.
        -- destruct (progress _ _ _).
           ++ run_inv Hrun1. congruence.
           ++ run_inv Hrun1. congruence.
        -- destruct (progress _ _ _); run_inv Hrun1; subst; reflexivity.
      * exfalso. destruct (progress _ _ _); run_inv Hrun1; discriminate.
    + run_inv Hrun. subst. right. left. exists a, s0, e. simpl. auto.
  - run_inv Hrun. subst. left. exists e. simpl. auto.
Qed.

Lemma retry_loop_eq (fuel : nat) (i attempt : Z) :
  loop_ fuel i attempt
  = try_catch (attempt_ i)
      (fun e =>
         emit (Log DEBUG "Error transferring part") ;;
         if 3 <=? attempt + 1 then raise e
         else
           emit (Sleep (1 * (attempt + 1))) ;;
           match fuel with
           | O => raise e
           | Datatypes.S fuel' => loop_ fuel' i (attempt + 1)
           end).
Proof. destruct fuel; reflexivity. Qed.

(** What a successful attempt leaves in the trace. *)
Lemma attempt_ok_facts (i : Z) u s s' t :
  Inv u s ->
  attempt_ i s = (Ok tt, s', t) ->
  Inv (u ++ uploads t) s'
  /\ all is_worker t /\ count is_read t = 1%nat /\ sleeps t = []
  /\ exists d, read_ i d /\ uploads t = [(i + 1, d)].
Proof.
  intros Hs H. apply attempt_part_run in H.
  destruct H as [(e & _ & Hr & _) | [(d & s1 & e & _ & _ & Hr & _)
                                    | (d & s1 & Hread & Hup & _ & ->)]];
    try discriminate.
  assert (Hp : all is_worker (pevents d)
               /\ count is_read (pevents d) = O
               /\ sleeps (pevents d) = []
               /\ uploads (pevents d) = []).
  { unfold progress_events. destruct (progress _ _ _); repeat split;
      repeat constructor. }
  destruct Hp as (P1 & P2 & P3 & P4).
  assert (U : uploads ([ReadRange (offset_of i) (length_of i) None;
                        UploadPart (i + 1) d None] ++ pevents d)
              = [(i + 1, d)]).
  { rewrite uploads_app, P4. reflexivity. }
  split; [|split; [|split; [|split]]].
  - rewrite U.
    apply (Inv_upload _ _ (Inv_read _ _ Hs Hread) Hup).
  - apply all_app; [repeat constructor | exact P1].
  - rewrite count_app, P2. reflexivity.
  - rewrite sleeps_app, P3. reflexivity.
  - exists d. split; [exists u, s, s1; split; [exact Hs | exact Hread]|].
    exact U.
Qed.

(** What a failed attempt leaves in the trace. *)
Lemma attempt_raise_facts (i : Z) (e : exn) u s s' t :
  Inv u s ->
  attempt_ i s = (Raise e, s', t) ->
  Inv u s'
  /\ all is_worker t /\ count is_read t = 1%nat /\ sleeps t = []
  /\ uploads t = [].
Proof.
  intros Hs H. apply attempt_part_run in H.
  destruct H as [(e0 & Hread & _ & ->) | [(d & s1 & e0 & Hread & Hup & _ & ->)
                                         | (d & s1 & _ & _ & Hr & _)]];
    try discriminate.
  - split; [apply (Inv_read _ _ Hs Hread)|].
    repeat split; repeat constructor.
  - split.
    + pose proof (Inv_upload _ _ (Inv_read _ _ Hs Hread) Hup) as Hk.
      rewrite app_nil_r in Hk. exact Hk.
    + repeat split; repeat constructor.
Qed.

Lemma backoff_step (attempt : Z) (reads : nat) :
  (1 <= reads)%nat ->
  1 * (attempt + 1) :: backoff (attempt + 1) reads = backoff attempt (1 + reads).
Proof.
  intros H. unfold backoff.
  replace (1 + reads - 1)%nat with (Datatypes.S (reads - 1)) by lia.
  rewrite <- cons_seq. cbn [map]. f_equal; try lia.
  rewrite <- (seq_shift (reads - 1) 1), map_map. apply map_ext. intros k. lia.
Qed.

(** The loop of [transfer_part], entered after [attempt] failures with
    enough iterations left. *)
Lemma retry_loop_run (fuel : nat) :
  forall (attempt i : Z) u s r s' t,
    0 <= attempt <= 2 -> 2 - attempt <= Z.of_nat fuel ->
    Inv u s ->
    loop_ fuel i attempt s = (r, s', t) ->
    Inv (u ++ uploads t) s'
    /\ all is_worker t
    /\ (1 <= count is_read t)%nat
    /\ Z.of_nat (count is_read t) <= 3 - attempt
    /\ sleeps t = backoff attempt (count is_read t)
    /\ match r with
       | Ok _ => exists d, read_ i d /\ uploads t = [(i + 1, d)]
       | Raise _ => uploads t = [] /\ Z.of_nat (count is_read t) = 3 - attempt
       end.
Proof.
  induction fuel as [|fuel IH]; intros attempt i u s r s' t Ha Hf Hs H;
    rewrite retry_loop_eq in H;
    apply try_catch_inv in H
      as [([] & Hok & ->) | (e & s1 & t1 & t2 & Hraise & Hh & ->)].
  1, 3: destruct (attempt_ok_facts _ Hs Hok)
      as (Hs' & W & R & Sl & d & Hd & U);
    rewrite R, Sl; repeat split; try assumption; try lia; eauto.
  - (* no iteration left: only after the second failure *)
    destruct (attempt_raise_facts _ Hs Hraise) as (Hs1 & W & R & Sl & U).
    apply bind_emit_inv in Hh as (t3 & Hh & ->).
    destruct (Z.leb_spec 3 (attempt + 1)); [|lia].
    apply raise_inv in Hh as (-> & -> & ->).
    rewrite !count_app, !sleeps_app, !uploads_app, R, Sl, U.
    change (count is_read [Log DEBUG "Error transferring part"]) with O.
    change (sleeps [Log DEBUG "Error transferring part"]) with (@nil Z).
    change (uploads [Log DEBUG "Error transferring part"])
      with (@nil (Z * bytes)).
    cbn [app Nat.add]. rewrite app_nil_r.
    split; [exact Hs1|]. repeat split; try lia.
    apply all_app; [exact W | repeat constructor].
  - destruct (attempt_raise_facts _ Hs Hraise) as (Hs1 & W & R & Sl & U).
    apply bind_emit_inv in Hh as (t3 & Hh & ->).
    destruct (Z.leb_spec 3 (attempt + 1)).
    + apply raise_inv in Hh as (-> & -> & ->).
      rewrite !count_app, !sleeps_app, !uploads_app, R, Sl, U.
      change (count is_read [Log DEBUG "Error transferring part"]) with O.
      change (sleeps [Log DEBUG "Error transferring part"]) with (@nil Z).
      change (uploads [Log DEBUG "Error transferring part"])
        with (@nil (Z * bytes)).
      cbn [app Nat.add]. rewrite app_nil_r.
      split; [exact Hs1|]. repeat split; try lia.
      apply all_app; [exact W | repeat constructor].
    + apply bind_emit_inv in Hh as (t4 & Hh & ->).
      apply IH with (u := u) in Hh; [|lia|lia|exact Hs1].
      destruct Hh as (Hs' & W' & R1 & R2 & Sl' & Hres).
      change (t1 ++ Log DEBUG "Error transferring part"
                 :: Sleep (1 * (attempt + 1)) :: t4)
        with (t1 ++ [Log DEBUG "Error transferring part";
                     Sleep (1 * (attempt + 1))] ++ t4).
      rewrite !count_app, !sleeps_app, !uploads_app, R, Sl, U, Sl'.
      change (count is_read [Log DEBUG "Error transferring part";
                             Sleep (1 * (attempt + 1))]) with O.
      change (sleeps [Log DEBUG "Error transferring part";
                      Sleep (1 * (attempt + 1))]) with [1 * (attempt + 1)].
      change (uploads [Log DEBUG "Error transferring part";
                       Sleep (1 * (attempt + 1))]) with (@nil (Z * bytes)).
      cbn [app Nat.add].
      split; [exact Hs'|].
      split; [|split; [|split; [|split]]].
      * apply all_app; [exact W|].
        constructor; [reflexivity|]. constructor; [reflexivity | exact W'].
      * lia.
      * lia.
      * apply (backoff_step attempt R1).
      * destruct r; [exact Hres|].
        destruct Hres as [U' R3]. split; [exact U' | lia].
Qed.

(** [transfer_part] makes between one and three attempts; it returns after
    exactly one accepted upload of bytes read from the part's range, and
    raises only after three attempts, none of which got its upload
    accepted. *)
Lemma transfer_part_run (i : Z) u s r s' t :
  Inv u s ->
  transfer_ i s = (r, s', t) ->
  Inv (u ++ uploads t) s'
  /\ all is_worker t
  /\ (1 <= count is_read t <= 3)%nat
  /\ sleeps t = backoff 0 (count is_read t)
  /\ match r with
     | Ok _ => exists d, read_ i d /\ uploads t = [(i + 1, d)]
     | Raise _ => uploads t = [] /\ count is_read t = 3%nat
     end.
Proof.
  intros Hs H. unfold transfer_part in H.
  apply retry_loop_run with (u := u) in H; [|lia|simpl; lia|exact Hs].
  destruct H as (Hs' & W & R1 & R2 & Sl & Hres).
  repeat split; try assumption; try lia.
  destruct r; [exact Hres|]. destruct Hres; split; [assumption | lia].
Qed.

(** More iterations than the loop can use change nothing. *)
Lemma retry_loop_fuel (fuel1 : nat) :
  forall (fuel2 : nat) (attempt i : Z) s,
    0 <= attempt <= 2 ->
    2 - attempt <= Z.of_nat fuel1 -> 2 - attempt <= Z.of_nat fuel2 ->
    loop_ fuel1 i attempt s = loop_ fuel2 i attempt s.
Proof.
  induction fuel1 as [|fuel1 IH]; intros fuel2 attempt i s Ha H1 H2;
    rewrite (retry_loop_eq fuel2), retry_loop_eq;
    unfold try_catch; destruct (attempt_ i s) as [[[[]|e] s1] t1];
    try reflexivity; unfold bind, emit;
    destruct (Z.leb_spec 3 (attempt + 1)); try reflexivity; try lia.
  destruct fuel2 as [|fuel2]; [lia|].
  rewrite (IH fuel2); [reflexivity| lia | lia | lia].
Qed.

End WorkerFacts.

(** ** The pool *)

Lemma nth_remove_nth_perm {A} (d : A) (l : list A) :
  forall j, (j < List.length l)%nat ->
    Permutation (nth j l d :: remove_nth j l) l.
Proof.
  induction l as [|x l IH]; intros j Hj; [simpl in Hj; lia|].
  destruct j as [|j]; simpl.
  - apply Permutation_refl.
  - simpl in Hj. eapply perm_trans; [apply perm_swap|].
    apply perm_skip. apply IH. lia.
Qed.

Lemma remove_nth_length {A} (l : list A) :
  forall j, (j < List.length l)%nat ->
    List.length (remove_nth j l) = (List.length l - 1)%nat.
Proof.
  induction l as [|x l IH]; intros j Hj; [simpl in Hj; lia|].
  destruct j as [|j]; simpl; [lia|].
  simpl in Hj. rewrite IH by lia. lia.
Qed.

(** With at least one worker, every submitted part completes exactly
    once, whatever the choices. *)
Lemma completion_order_perm (workers : nat) :
  (1 <= workers)%nat ->
  forall (fuel : nat) (choices : list nat) (pending : list Z),
    (List.length pending <= fuel)%nat ->
    Permutation (completion_order workers choices fuel pending) pending.
Proof.
  intros Hw. induction fuel as [|fuel IH]; intros choices pending Hlen.
  - destruct pending; [apply perm_nil | simpl in Hlen; lia].
  - destruct pending as [|first rest]; [apply perm_nil|].
    cbn [completion_order].
    set (pending := first :: rest) in *.
    set (running := Nat.min workers (List.length pending)).
    assert (Hrun : (1 <= running <= List.length pending)%nat).
    { unfold running, pending. simpl. lia. }
    set (j := Nat.modulo (hd O choices) running).
    assert (Hj : (j < List.length pending)%nat).
    { pose proof (Nat.mod_upper_bound (hd O choices) running). lia. }
    eapply perm_trans; [|apply (nth_remove_nth_perm first pending Hj)].
    apply perm_skip. apply IH.
    rewrite remove_nth_length by exact Hj. lia.
Qed.

(** A single worker takes the parts in submission order. *)
Lemma completion_order_single (fuel : nat) :
  forall (choices : list nat) (pending : list Z),
    (List.length pending <= fuel)%nat ->
    completion_order 1 choices fuel pending = pending.
Proof.
  induction fuel as [|fuel IH]; intros choices pending Hlen.
  - destruct pending; [reflexivity | simpl in Hlen; lia].
  - destruct pending as [|first rest]; [reflexivity|].
    cbn [completion_order].
    replace (Nat.min 1 (List.length (first :: rest))) with 1%nat
      by (simpl; lia).
    rewrite Nat.mod_1_r. simpl. f_equal. apply IH. simpl in Hlen. lia.
Qed.

Section PoolFacts.

Variable S : Type.
Variable task : Z -> M S unit.

(** What one accepted upload of part [i] may carry. *)
Variable Q : Z -> bytes -> Prop.

(** A property of the state, given the uploads accepted so far, that the
    tasks keep. *)
Variable Inv : list (Z * bytes) -> S -> Prop.

Hypothesis task_keeps :
  forall i u s r s' t,
    Inv u s -> task i s = (r, s', t) -> Inv (u ++ uploads t) s'.

Hypothesis task_worker :
  forall i s r s' t, task i s = (r, s', t) -> all is_worker t.

Hypothesis task_uploads :
  forall i u s r s' t,
    Inv u s ->
    task i s = (r, s', t) ->
    match r with
    | Ok _ => exists d, Q i d /\ uploads t = [(i + 1, d)]
    | Raise _ => uploads t = []
    end.

(** The futures never raise out of the loop; what is remembered is the
    first failure, and, when there is none, every part was accepted once,
    in completion order. *)
Lemma run_futures_run (order : list Z) :
  forall u s r s' t,
    Inv u s ->
    run_futures task order s = (r, s', t) ->
    Inv (u ++ uploads t) s'
    /\ all is_copy t
    /\ r = Ok (first_failure t)
    /\ (first_failure t = None ->
        Forall2 (fun i kd => fst kd = i + 1 /\ Q i (snd kd)) order (uploads t)).
Proof.
  induction order as [|i rest IH]; intros u s r s' t Hs H.
  - apply ret_inv in H as (-> & -> & ->).
    cbn [uploads flat_map]. rewrite app_nil_r.
    repeat split; try constructor. exact Hs.
  - cbn [run_futures] in H.
    apply bind_inv in H
      as [(r1 & s1 & t1 & t2 & H1 & H2 & ->) | (e & H1 & _)].
    2: { unfold capture in H1. destruct (task i s) as [[? ?] ?].
         discriminate. }
    unfold capture in H1. destruct (task i s) as [[r0 s0] t0] eqn:Et.
    injection H1 as <- <- <-.
    pose proof (@task_worker i s r0 s0 t0 Et) as W.
    pose proof (@task_uploads i u s r0 s0 t0 Hs Et) as U.
    pose proof (@task_keeps i u s r0 s0 t0 Hs Et) as Hs0.
    apply bind_emit_inv in H2 as (t3 & H2 & ->).
    apply bind_inv in H2
      as [(later & s2 & t4 & t5 & H3 & H4 & ->) | (e & H3 & ->)].
    2: { apply IH with (u := u ++ uploads t0) in H3 as (_ & _ & Hr & _);
           [discriminate | exact Hs0]. }
    apply IH with (u := u ++ uploads t0) in H3 as (Hs2 & C & Hr & F);
      [|exact Hs0].
    injection Hr as ->.
    apply ret_inv in H4 as (-> & -> & ->).
    rewrite app_nil_r.
    change (t0 ++ FutureDone i (exc_of r0) :: t4)
      with (t0 ++ [FutureDone i (exc_of r0)] ++ t4).
    rewrite !first_failure_app, !uploads_app, (worker_first_failure W).
    change (uploads [FutureDone i (exc_of r0)]) with (@nil (Z * bytes)).
    cbn [app].
    split; [rewrite app_assoc; exact Hs2|]. split; [|split].
    + apply all_app; [apply all_worker_copy; exact W|].
      constructor; [reflexivity | exact C].
    + destruct r0; reflexivity.
    + destruct r0 as [[]|e]; cbn [exc_of first_failure flat_map app];
        [|discriminate].
      intros Hnone. destruct U as (d & Hq & ->).
      constructor; [split; [reflexivity | exact Hq]|].
      apply F. exact Hnone.
Qed.

(** The pool either refuses a non-positive size, or runs every part and
    raises the first failure. *)
Lemma thread_pool_run (threads n : Z) (choices : list nat) u s r s' t :
  Inv u s ->
  thread_pool task threads n choices s = (r, s', t) ->
  Inv (u ++ uploads t) s'
  /\ all is_copy t
  /\ match r with
     | Ok _ =>
         0 < threads /\ first_failure t = None
         /\ Forall2 (fun i kd => fst kd = i + 1 /\ Q i (snd kd))
              (completion_order (Z.to_nat threads) choices (Z.to_nat n)
                 (range n))
              (uploads t)
     | Raise e =>
         (threads <= 0 /\ e = ValueError /\ t = [])
         \/ (0 < threads /\ first_failure t = Some e)
     end.
Proof.
  intros Hs. unfold thread_pool.
  destruct (Z.leb_spec threads 0) as [Hle|Hgt].
  - intros H. apply raise_inv in H as (-> & -> & ->).
    cbn [uploads flat_map]. rewrite app_nil_r.
    split; [exact Hs|]. split; [constructor|]. left. auto.
  - intros H. apply bind_inv in H
      as [(first & s1 & t1 & t2 & H1 & H2 & ->) | (e & H1 & ->)].
    2: { apply run_futures_run with (u := u) in H1 as (_ & _ & Hr & _);
           [discriminate | exact Hs]. }
    apply run_futures_run with (u := u) in H1 as (Hs1 & C & Hr & F);
      [|exact Hs].
    injection Hr as ->.
    destruct (first_failure t1) as [e|] eqn:Ef.
    + apply raise_inv in H2 as (-> & -> & ->). rewrite app_nil_r.
      split; [exact Hs1|]. split; [exact C|]. right. auto.
    + apply ret_inv in H2 as (-> & -> & ->). rewrite app_nil_r.
      split; [exact Hs1|]. split; [exact C|]. auto.
Qed.

End PoolFacts.

(** ** The whole transfer *)

Section RunFacts.

Variable S : Type.
Variable src : Source S.
Variable dest : Dest S.
Variable max_part_size : Z.
Variable tqdm_installed : bool.

(** A property of the state, given the uploads accepted so far, that
    reads and uploads keep. *)
Variable Inv : list (Z * bytes) -> S -> Prop.

Hypothesis Inv_read :
  forall u offset length st r st',
    Inv u st -> read_range src offset length st = (r, st') -> Inv u st'.

Hypothesis Inv_upload :
  forall u k d st r st',
    Inv u st -> upload_part dest k d st = (r, st') ->
    Inv (u ++ match r with Ok _ => [(k, d)] | Raise _ => [] end) st'.

Local Abbreviation body_ := (move_body src dest max_part_size tqdm_installed).
Local Abbreviation copied_ := (copied Inv src max_part_size).

(** The [try] block: the copy phase [P], which ends in a state [s2], then
    what came after it. *)
Lemma move_body_run (threads : Z) (show_progress : bool)
    (choices : list nat) u s r s' t :
  Inv u s ->
  body_ threads show_progress choices s = (r, s', t) ->
  exists P rest s2,
    t = Log INFO "Starting transfer" :: P ++ rest
    /\ all is_copy P
    /\ Inv (u ++ uploads P) s2
    /\ match r with
       | Ok b =>
           b = true
           /\ rest = [DestComplete None; SrcDelete None;
                      Log INFO
                        "Transfer completed successfully. Source object deleted."]
           /\ copied_ threads choices s P
           /\ exists s3,
               complete dest s2 = (Ok tt, s3) /\ delete src s3 = (Ok tt, s')
       | Raise e =>
           (rest = [] /\ s' = s2
            /\ forall e', first_failure P = Some e' -> e' = e)
           \/ (rest = [DestComplete (Some e)]
               /\ copied_ threads choices s P
               /\ complete dest s2 = (Raise e, s'))
           \/ (rest = [DestComplete None; SrcDelete (Some e)]
               /\ copied_ threads choices s P
               /\ exists s3,
                   complete dest s2 = (Ok tt, s3)
                   /\ delete src s3 = (Raise e, s'))
       end.
Proof.
  intros Hs. unfold move_body. intros H.
  apply bind_emit_inv in H as (t1 & H & ->).
  apply bind_inv in H as [(n & s1 & t2 & t3 & Hn & H & ->) | (e & Hn & ->)].
  2: { unfold lift_result in Hn. injection Hn as _ <- <-.
       exists [], [], s. cbn [uploads flat_map].
       repeat split; [constructor | rewrite app_nil_r; exact Hs|].
       left. repeat split. discriminate. }
  unfold lift_result in Hn. injection Hn as Hn <- <-. cbn [app].
  assert (Hpool :
    forall r0 s0 t0,
      thread_pool (transfer_part src dest max_part_size tqdm_installed
                     (get_size src s) show_progress)
        (clamp_threads threads n) n choices s = (r0, s0, t0) ->
      Inv (u ++ uploads t0) s0
      /\ all is_copy t0
      /\ match r0 with
         | Ok _ => copied_ threads choices s t0
         | Raise e =>
             (clamp_threads threads n <= 0 /\ e = ValueError /\ t0 = [])
             \/ first_failure t0 = Some e
         end).
  { intros r0 s0 t0 Hp.
    apply thread_pool_run
      with (Inv := Inv) (u := u)
           (Q := read_of Inv src max_part_size (get_size src s))
      in Hp.
    - destruct Hp as (Hs0 & C & Hres). split; [exact Hs0|].
      split; [exact C|]. destruct r0 as [[]|e].
      + destruct Hres as (Hth & Hf & Hup). exists n. auto.
      + destruct Hres as [Hres | [_ Hres]]; auto.
    - intros i0 u0 st r1 st' t4 Hst Ht.
      apply (@transfer_part_run S src dest max_part_size tqdm_installed
               (get_size src s) show_progress Inv Inv_read Inv_upload
               i0 u0 st r1 st' t4 Hst Ht).
    - intros i0 st r1 st' t4 Ht.
      apply (@transfer_part_run S src dest max_part_size tqdm_installed
               (get_size src s) show_progress (fun _ _ => True)
               (fun _ _ _ _ _ _ _ _ => I) (fun _ _ _ _ _ _ _ _ => I)
               i0 [] st r1 st' t4 I Ht).
    - intros i0 u0 st r1 st' t4 Hst Ht.
      destruct (@transfer_part_run S src dest max_part_size tqdm_installed
                  (get_size src s) show_progress Inv Inv_read Inv_upload
                  i0 u0 st r1 st' t4 Hst Ht) as (_ & _ & _ & _ & Hres).
      destruct r1; tauto.
    - exact Hs. }
  apply bind_inv in H as [([] & s2 & P & t4 & Hp & H & ->) | (e & Hp & ->)].
  2: { apply Hpool in Hp as (Hs' & C & [(_ & -> & ->) | Hf]).
       - exists [], [], s'. repeat split; [constructor | exact Hs'|].
         left. repeat split. discriminate.
       - exists t3, [], s'. rewrite app_nil_r.
         repeat split; [exact C | exact Hs'|].
         left. repeat split. congruence. }
  apply Hpool in Hp as (Hs2 & C & Hcopied).
  apply bind_inv in H as [([] & s3 & t5 & t6 & Hc & H & ->) | (e & Hc & ->)].
  2: { apply call_inv in Hc as [Hc ->]. cbn [exc_of].
       exists P, [DestComplete (Some e)], s2.
       repeat split; [exact C | exact Hs2|].
       right. left. auto. }
  apply call_inv in Hc as [Hc ->]. cbn [exc_of].
  apply bind_inv in H as [([] & s4 & t7 & t8 & Hd & H & ->) | (e & Hd & ->)].
  2: { apply call_inv in Hd as [Hd ->]. cbn [exc_of].
       exists P, [DestComplete None; SrcDelete (Some e)], s2.
       repeat split; [exact C | exact Hs2|]. right. right.
       repeat split; [exact Hcopied|]. exists s3. auto. }
  apply call_inv in Hd as [Hd ->]. cbn [exc_of].
  apply bind_emit_inv in H as (t9 & H & ->).
  apply ret_inv in H as (-> & -> & ->).
  exists P. eexists. exists s2.
  repeat split; [exact C | exact Hs2 | exact Hcopied|].
  exists s3. auto.
Qed.

(** The handler: log, guarded [abort], re-raise. *)
Lemma handler_run (e : exn) s (r : result bool) s' t :
  (emit (Log ERROR "Transfer failed") ;;
   try_catch (call (abort dest) DestAbort)
     (fun abort_err => emit (Log ERROR "Error during abort/cleanup")) ;;
   raise e) s = (r, s', t) ->
  r = Raise e
  /\ s' = snd (abort dest s)
  /\ In (DestAbort (exc_of (fst (abort dest s)))) t
  /\ exists A, abort_shape A /\ t = Log ERROR "Transfer failed" :: A.
Proof.
  intros H. apply bind_emit_inv in H as (t1 & H & ->).
  apply bind_inv in H as [([] & s1 & A & t2 & Ha & H & ->) | (e' & Ha & ->)].
  - apply raise_inv in H as (-> & -> & ->). rewrite app_nil_r.
    apply try_catch_inv in Ha
      as [([] & Hc & _) | (e' & s2 & t3 & t4 & Hc & Hl & ->)].
    + apply call_inv in Hc as [Hc ->]. rewrite Hc.
      repeat split; [right; left; reflexivity|].
      exists [DestAbort None]. split; [constructor | reflexivity].
    + apply call_inv in Hc as [Hc ->]. rewrite Hc.
      apply emit_inv in Hl as (_ & -> & ->).
      repeat split; [right; left; reflexivity|].
      eexists. split; [apply (abort_raised e') | reflexivity].
  - exfalso. apply try_catch_inv in Ha
      as [(a & _ & Hr) | (e0 & s2 & t3 & t4 & _ & Hl & _)]; [discriminate|].
    apply emit_inv in Hl as (Hr & _). discriminate.
Qed.

(** A run that returns is the [try] block returning: the copy phase ended
    in a state [s2], from which [complete] and then [delete] returned. *)
Lemma move_file_returns (threads : Z) (show_progress : bool)
    (choices : list nat) u s (b : bool) s' t :
  Inv u s ->
  move_file_with src dest max_part_size tqdm_installed threads show_progress
    choices s = (Ok b, s', t) ->
  exists P s2 s3,
    t = Log INFO "Starting transfer"
          :: P ++ [DestComplete None; SrcDelete None;
                   Log INFO
                     "Transfer completed successfully. Source object deleted."]
    /\ b = true
    /\ copied_ threads choices s P
    /\ Inv (u ++ uploads P) s2
    /\ complete dest s2 = (Ok tt, s3)
    /\ delete src s3 = (Ok tt, s').
Proof.
  intros Hs H. unfold move_file_with in H.
  apply try_catch_inv in H
    as [(b' & Hb & Hr) | (e & s1 & t1 & t2 & _ & Hh & _)].
  2: { apply handler_run in Hh as (Hr & _). discriminate. }
  injection Hr as <-.
  apply move_body_run with (u := u) in Hb; [|exact Hs].
  destruct Hb as (P & rest & s2 & -> & _ & Hs2 & -> & -> & Hc & s3 & H1 & H2).
  exists P, s2, s3. repeat split; assumption.
Qed.

(** A property of the state that every method the [try] block calls
    keeps. *)
Variable Keep : S -> Prop.

Hypothesis Keep_Inv : forall u st, Inv u st -> Keep st.
Hypothesis Inv_Keep : forall u st, Keep st -> Inv u st.

Hypothesis Keep_complete :
  forall st r st', Keep st -> complete dest st = (r, st') -> Keep st'.

Hypothesis Keep_delete :
  forall st r st', Keep st -> delete src st = (r, st') -> Keep st'.

(** A run that raises went through the handler, entered in a state that
    satisfies [Keep]: the final state is the one [abort] left. *)
Lemma move_file_raises (threads : Z) (show_progress : bool)
    (choices : list nat) s (e : exn) s' t :
  Keep s ->
  move_file_with src dest max_part_size tqdm_installed threads show_progress
    choices s = (Raise e, s', t) ->
  exists s1,
    Keep s1 /\ s' = snd (abort dest s1)
    /\ In (DestAbort (exc_of (fst (abort dest s1)))) t.
Proof.
  intros Hs H. unfold move_file_with in H.
  apply try_catch_inv in H
    as [(b & _ & Hr) | (e1 & s1 & t1 & t2 & Hb & Hh & ->)]; [discriminate|].
  apply handler_run in Hh as (_ & -> & Hin & _).
  exists s1. split; [|split; [reflexivity | apply in_or_app; right; exact Hin]].
  apply move_body_run with (u := []) in Hb; [|apply Inv_Keep; exact Hs].
  destruct Hb as (P & rest & s2 & _ & _ & Hs2 & Hcases).
  apply Keep_Inv in Hs2.
  destruct Hcases as [(_ & -> & _) | [(_ & _ & Hc) | (_ & _ & s3 & Hc & Hd)]].
  - exact Hs2.
  - eapply Keep_complete; [exact Hs2 | exact Hc].
  - eapply Keep_delete; [|exact Hd].
    eapply Keep_complete; [exact Hs2 | exact Hc].
Qed.

End RunFacts.

(** Every run of [move_file] has one of the four shapes. *)
Lemma move_file_run {S} (src : Source S) (dest : Dest S)
    (max_part_size : Z) (tqdm_installed : bool) (threads : Z)
    (show_progress : bool) (choices : list nat) s r s' t :
  move_file_with src dest max_part_size tqdm_installed threads show_progress
    choices s = (r, s', t) ->
  run_shape r t.
Proof.
  unfold move_file_with. intros H.
  assert (Hbody :
    forall r0 s0 t0,
      move_body src dest max_part_size tqdm_installed threads show_progress
        choices s = (r0, s0, t0) ->
      exists P rest,
        t0 = Log INFO "Starting transfer" :: P ++ rest
        /\ all is_copy P
        /\ match r0 with
           | Ok b =>
               b = true
               /\ rest = [DestComplete None; SrcDelete None;
                          Log INFO
                            "Transfer completed successfully. Source object deleted."]
               /\ first_failure P = None
           | Raise e =>
               (rest = [] /\ forall e', first_failure P = Some e' -> e' = e)
               \/ (rest = [DestComplete (Some e)] /\ first_failure P = None)
               \/ (rest = [DestComplete None; SrcDelete (Some e)]
                   /\ first_failure P = None)
           end).
  { intros r0 s0 t0 Hb.
    apply (@move_body_run S src dest max_part_size tqdm_installed
             (fun _ _ => True) (fun _ _ _ _ _ _ _ _ => I)
             (fun _ _ _ _ _ _ _ _ => I)
             threads show_progress choices [] s r0 s0 t0 I) in Hb.
    destruct Hb as (P & rest & s2 & -> & C & _ & Hcases).
    exists P, rest. repeat split; [exact C|].
    destruct r0 as [b|e].
    - destruct Hcases as (-> & -> & (n & _ & _ & Hf & _) & _). auto.
    - destruct Hcases
        as [(-> & _ & Hf) | [(-> & (n & _ & _ & Hf & _) & _)
                            | (-> & (n & _ & _ & Hf & _) & _)]]; auto. }
  apply try_catch_inv in H
    as [(b & Hb & ->) | (e & s1 & t1 & t2 & Hb & Hh & ->)].
  - apply Hbody in Hb as (P & rest & -> & C & -> & -> & Hf).
    apply run_done; assumption.
  - apply handler_run in Hh as (-> & _ & _ & A & HA & ->).
    apply Hbody in Hb as (P & rest & -> & C & Hcases).
    destruct Hcases as [(-> & Hf) | [(-> & Hf) | (-> & Hf)]].
    + rewrite app_nil_r. cbn [app].
      apply run_copy_failed; assumption.
    + cbn [app]. rewrite <- app_assoc. cbn [app].
      apply run_complete_failed; assumption.
    + cbn [app]. rewrite <- app_assoc. cbn [app].
      apply run_delete_failed; assumption.
Qed.

(** ** What the shapes say *)

Lemma all_In (p : event -> bool) (t : list event) (ev : event) :
  all p t -> In ev t -> p ev = true.
Proof. unfold all. rewrite Forall_forall. auto. Qed.

Lemma in_shape (ev x : event) (P L : list event) :
  In ev (x :: P ++ L) -> ev = x \/ In ev P \/ In ev L.
Proof.
  intros [H|H]; [left; congruence|].
  apply in_app_or in H. tauto.
Qed.

Lemma first_failure_shape (x : event) (P L : list event) :
  first_failure [x] = None -> first_failure L = None ->
  first_failure (x :: P ++ L) = first_failure P.
Proof.
  intros Hx HL. change (x :: P ++ L) with ([x] ++ P ++ L).
  rewrite !first_failure_app, Hx, HL. destruct (first_failure P); reflexivity.
Qed.

Lemma count_shape (p : event -> bool) (x : event) (P L : list event) :
  (forall ev, is_copy ev = true -> p ev = false) ->
  all is_copy P ->
  count p (x :: P ++ L) = count p (x :: L).
Proof.
  intros Hp HP. rewrite !count_cons, count_app, (all_copy_count _ Hp HP).
  reflexivity.
Qed.

(** Spell a run's trace out, up to its copy phase. *)
Ltac shape_cases H :=
  inversion H as [exc P A HP Hff HA | exc P A HP Hff HA | exc P A HP Hff HA
                  | P HP Hff]; subst;
  try (inversion HA; subst).

Ltac shape_counts HP :=
  rewrite ?(count_shape _ _ _ copy_not_complete HP),
          ?(count_shape _ _ _ copy_not_delete HP),
          ?(count_shape _ _ _ copy_not_abort HP),
          ?(count_shape _ _ _ copy_not_terminal HP).

(** A run that raises calls [abort] exactly once; a run that returns never
    does. *)
Lemma run_shape_aborts r t :
  run_shape r t ->
  count is_abort t = match r with Ok _ => O | Raise _ => 1%nat end.
Proof. intros H. shape_cases H; shape_counts HP; reflexivity. Qed.

(** A future that ended with an exception decides the run: the first such
    exception is raised, and neither [complete] nor [delete] is called. *)
Lemma run_shape_part_failure r t (i : Z) (e0 : exn) :
  run_shape r t ->
  In (FutureDone i (Some e0)) t ->
  exists e,
    first_failure t = Some e /\ r = Raise e
    /\ count is_complete t = O /\ count is_delete t = O.
Proof.
  intros H Hin. shape_cases H;
    apply in_shape in Hin as [Hin | [Hin | Hin]];
    try discriminate;
    try (simpl in Hin; repeat destruct Hin as [Hin|Hin]; try discriminate;
         contradiction);
    try (apply first_failure_In in Hin as [e1 He1]; congruence).
  all: destruct (first_failure_In _ _ _ Hin) as [e1 He1];
    pose proof (Hff _ He1) as ->;
    exists exc; rewrite first_failure_shape by reflexivity;
    shape_counts HP; auto.
Qed.

(** A failed [complete] is what the run raises; [delete] is not called. *)
Lemma run_shape_complete_failure r t (e : exn) :
  run_shape r t ->
  In (DestComplete (Some e)) t ->
  r = Raise e /\ first_failure t = None
  /\ count is_complete t = 1%nat /\ count is_delete t = O.
Proof.
  intros H Hin. shape_cases H;
    apply in_shape in Hin as [Hin | [Hin | Hin]];
    try discriminate;
    try (apply (@all_In _ _ _ HP) in Hin; cbv in Hin; discriminate);
    simpl in Hin; repeat destruct Hin as [Hin|Hin];
    try discriminate; try contradiction.
  all: injection Hin as ->;
    rewrite first_failure_shape by reflexivity;
    shape_counts HP; auto.
Qed.

(** A failed [delete] comes after a [complete] that returned, and is what
    the run raises. *)
Lemma run_shape_delete_failure r t (e : exn) :
  run_shape r t ->
  In (SrcDelete (Some e)) t ->
  r = Raise e
  /\ count is_complete t = 1%nat /\ count is_terminal t = 2%nat
  /\ exists P A,
       abort_shape A
       /\ t = Log INFO "Starting transfer"
               :: P ++ DestComplete None :: SrcDelete (Some e)
               :: Log ERROR "Transfer failed" :: A.
Proof.
  intros H Hin. shape_cases H;
    apply in_shape in Hin as [Hin | [Hin | Hin]];
    try discriminate;
    try (apply (@all_In _ _ _ HP) in Hin; cbv in Hin; discriminate);
    simpl in Hin; repeat destruct Hin as [Hin|Hin];
    try discriminate; try contradiction.
  all: injection Hin as ->; shape_counts HP;
    repeat split; try reflexivity;
    eexists P, _; (split; [|reflexivity]); constructor.
Qed.

(** ** The planner's parts *)

Section Partition.

Variable max_part_size : Z.
Hypothesis max_pos : 0 < max_part_size.
Variable size : Z.
Hypothesis size_pos : 0 < size.

Local Abbreviation cs := (chunk_size max_part_size size).
Local Abbreviation n_ := (ceil_div size (Z.min size max_part_size)).
Local Abbreviation off := (part_offset max_part_size size).
Local Abbreviation btr := (bytes_to_read max_part_size size).

Lemma chunk_size_bounds : 0 < cs <= size /\ cs <= max_part_size.
Proof. rewrite chunk_size_min by exact max_pos. lia. Qed.

Lemma planned_count_bounds : (n_ - 1) * cs < size <= n_ * cs /\ 1 <= n_.
Proof.
  pose proof chunk_size_bounds as [Hc _].
  rewrite chunk_size_min in * by exact max_pos.
  pose proof (ceil_div_bounds size (proj1 Hc)) as Hb.
  split; [exact Hb | nia].
Qed.

(** Every part but the last is a full chunk; the last one ends at the
    object's end. *)
Lemma bytes_to_read_spec (i : Z) :
  0 <= i < n_ ->
  btr i = (if i <? n_ - 1 then cs else size - off i)
  /\ 0 < btr i <= cs.
Proof.
  intros Hi. pose proof chunk_size_bounds as [Hc _].
  pose proof planned_count_bounds as [Hn _].
  unfold bytes_to_read, part_offset.
  destruct (Z.ltb_spec i (n_ - 1)) as [Hlt|Hge];
    destruct (Z.leb_spec (i * cs + cs) size) as [Hle|Hgt]; nia.
Qed.

(** The parts are laid end to end from 0 to [size]: ordered, without gap
    or overlap, none longer than the ceiling. *)
Lemma planned_parts_tile :
  off 0 = 0
  /\ (forall i, 0 <= i < n_ -> 0 < btr i <= max_part_size)
  /\ (forall i, 0 <= i < n_ - 1 -> off (i + 1) = off i + btr i)
  /\ off (n_ - 1) + btr (n_ - 1) = size.
Proof.
  pose proof chunk_size_bounds as [Hc Hm].
  pose proof planned_count_bounds as [Hn Hn1].
  split; [unfold part_offset; lia|]. split; [|split].
  - intros i Hi. destruct (bytes_to_read_spec Hi) as [_ Hb]. lia.
  - intros i Hi. destruct (@bytes_to_read_spec i ltac:(lia)) as [E _].
    rewrite E. replace (i <? n_ - 1) with true
      by (symmetry; apply Z.ltb_lt; lia).
    unfold part_offset. lia.
  - destruct (@bytes_to_read_spec (n_ - 1) ltac:(lia)) as [E _].
    rewrite E, Z.ltb_irrefl. lia.
Qed.

(** A byte of the object lies in exactly one part. *)
Lemma planned_parts_cover (x : Z) :
  0 <= x < size <->
  exists i, 0 <= i < n_ /\ off i <= x < off i + btr i.
Proof.
  pose proof chunk_size_bounds as [Hc Hm].
  pose proof planned_count_bounds as [Hn Hn1].
  split.
  - intros Hx. exists (x / cs).
    pose proof (Z.div_mod x cs ltac:(lia)) as Hdm.
    pose proof (Z.mod_pos_bound x cs ltac:(lia)) as Hr.
    assert (Hi : 0 <= x / cs < n_) by nia.
    split; [exact Hi|].
    destruct (bytes_to_read_spec Hi) as [E _]. rewrite E.
    unfold part_offset. destruct (Z.ltb_spec (x / cs) (n_ - 1)); nia.
  - intros (i & Hi & Hx).
    destruct (bytes_to_read_spec Hi) as [E Hb].
    unfold part_offset in *. rewrite E in Hx.
    destruct (Z.ltb_spec i (n_ - 1)); nia.
Qed.

Lemma planned_parts_disjoint (i j x : Z) :
  0 <= i < n_ -> 0 <= j < n_ ->
  off i <= x < off i + btr i -> off j <= x < off j + btr j -> i = j.
Proof.
  intros Hi Hj Hx Hy. pose proof chunk_size_bounds as [Hc Hm].
  destruct (bytes_to_read_spec Hi) as [_ Hbi].
  destruct (bytes_to_read_spec Hj) as [_ Hbj].
  unfold part_offset in *. nia.
Qed.

End Partition.

(** ** Slices of the object *)

Lemma firstn_add_skipn {A} (a b : nat) (l : list A) :
  firstn (a + b) l = firstn a l ++ firstn b (skipn a l).
Proof.
  revert l. induction a as [|a IH]; intros l; [reflexivity|].
  destruct l as [|x l]; [simpl; rewrite firstn_nil; reflexivity|].
  simpl. f_equal. apply IH.
Qed.

(** Equal pieces of [c] elements, put end to end, are a prefix. *)
Lemma concat_pieces {A} (c : nat) (l : list A) (m : nat) :
  List.concat (map (fun k => firstn c (skipn (k * c) l)) (seq 0 m))
  = firstn (m * c) l.
Proof.
  induction m as [|m IH]; [reflexivity|].
  rewrite seq_S, map_app, concat_app, IH. cbn [map List.concat Nat.add].
  rewrite app_nil_r.
  replace (Datatypes.S m * c)%nat with (m * c + c)%nat by lia.
  symmetry. apply firstn_add_skipn.
Qed.

Section Chunks.

Variable max_part_size : Z.
Hypothesis max_pos : 0 < max_part_size.
Variable data : bytes.
Hypothesis data_nonempty : 0 < len data.

Local Abbreviation size := (len data).
Local Abbreviation cs := (chunk_size max_part_size size).
Local Abbreviation n_ := (ceil_div size (Z.min size max_part_size)).
Local Abbreviation off := (part_offset max_part_size size).
Local Abbreviation btr := (bytes_to_read max_part_size size).

Local Abbreviation chunk_ := (chunk max_part_size data).

Lemma chunk_piece (k : nat) :
  (k < Z.to_nat n_)%nat ->
  chunk_ (Z.of_nat k)
  = firstn (Z.to_nat cs) (skipn (k * Z.to_nat cs) data).
Proof.
  intros Hk.
  pose proof (chunk_size_bounds max_pos data_nonempty) as [Hc Hm].
  pose proof (planned_count_bounds max_pos data_nonempty) as [Hn Hn1].
  assert (Hi : 0 <= Z.of_nat k < n_) by lia.
  destruct (bytes_to_read_spec max_pos data_nonempty Hi) as [E Hb].
  unfold chunk, slice.
  replace (off (Z.of_nat k) + btr (Z.of_nat k) - off (Z.of_nat k))
    with (btr (Z.of_nat k)) by lia.
  replace (Z.to_nat (off (Z.of_nat k))) with (k * Z.to_nat cs)%nat
    by (unfold part_offset; nia).
  rewrite E. destruct (Z.ltb_spec (Z.of_nat k) (n_ - 1)) as [Hlt|Hge];
    [reflexivity|].
  assert (Hlen : (List.length (skipn (k * Z.to_nat cs) data)
                  <= Z.to_nat (size - off (Z.of_nat k)))%nat).
  { rewrite length_skipn. unfold len, part_offset in *. nia. }
  rewrite !firstn_all2; [reflexivity | | exact Hlen].
  unfold part_offset in *. nia.
Qed.

(** The parts in ascending order are the object. *)
Lemma concat_chunks : List.concat (map chunk_ (range n_)) = data.
Proof.
  pose proof (chunk_size_bounds max_pos data_nonempty) as [Hc Hm].
  pose proof (planned_count_bounds max_pos data_nonempty) as [Hn Hn1].
  unfold range. rewrite map_map.
  rewrite (map_ext_in _ (fun k => firstn (Z.to_nat cs)
                                    (skipn (k * Z.to_nat cs) data))).
  - rewrite concat_pieces. apply firstn_all2. unfold len in *. nia.
  - intros k Hk. apply in_seq in Hk. apply chunk_piece. lia.
Qed.

End Chunks.

(** ** [list.sort] sorts *)

Section SortPerm.

Variables (A K : Type) (key : A -> K) (leb : K -> K -> bool).

Lemma insert_perm (x : A) (l : list A) :
  Permutation (Py.insert key leb x l) (x :: l).
Proof.
  induction l as [|y l IH]; [apply Permutation_refl|].
  simpl. destruct (leb (key x) (key y)); [apply Permutation_refl|].
  eapply perm_trans; [apply perm_skip, IH | apply perm_swap].
Qed.

(** Sorting rearranges, whatever the order compared by. *)
Lemma sort_perm (l : list A) : Permutation (Py.sort key leb l) l.
Proof.
  induction l as [|x l IH]; [apply perm_nil|].
  simpl. eapply perm_trans; [apply insert_perm | apply perm_skip, IH].
Qed.

End SortPerm.

Section SortFacts.

Variable A : Type.
Variable key : A -> Z.

Local Abbreviation sort_ := (Py.sort key Z.leb).
Local Abbreviation insert_ := (Py.insert key Z.leb).

Local Abbreviation le_ := (key_le key).
Local Abbreviation lt_ := (key_lt key).

Lemma insert_sorted (x : A) (l : list A) :
  StronglySorted le_ l -> StronglySorted le_ (insert_ x l).
Proof.
  induction 1 as [|y l Hs IH Hy]; [repeat constructor|].
  simpl. destruct (Z.leb_spec (key x) (key y)) as [Hle|Hgt].
  - constructor; [constructor; assumption|].
    constructor; [exact Hle|].
    revert Hy. apply Forall_impl. unfold key_le. intros; lia.
  - constructor; [exact IH|].
    eapply Permutation_Forall.
    + apply Permutation_sym, insert_perm.
    + constructor; [unfold key_le; lia | exact Hy].
Qed.

Lemma sort_sorted (l : list A) : StronglySorted le_ (sort_ l).
Proof.
  induction l as [|x l IH]; [constructor|]. simpl.
  apply insert_sorted, IH.
Qed.

(** A list in strictly ascending key order is the only sorted arrangement
    of its elements. *)
Lemma sorted_unique (l1 : list A) :
  forall l2,
    StronglySorted le_ l1 -> StronglySorted lt_ l2 ->
    Permutation l1 l2 -> l1 = l2.
Proof.
  induction l1 as [|x l1 IH]; intros l2 H1 H2 Hp.
  - apply Permutation_nil in Hp. congruence.
  - destruct l2 as [|y l2].
    { apply Permutation_sym, Permutation_nil in Hp. discriminate. }
    inversion H1 as [|? ? H1s H1f]; subst.
    inversion H2 as [|? ? H2s H2f]; subst.
    assert (Hxy : x = y).
    { assert (Hx : In x (y :: l2))
        by (apply (Permutation_in _ Hp); left; reflexivity).
      assert (Hy : In y (x :: l1))
        by (apply (Permutation_in _ (Permutation_sym Hp)); left; reflexivity).
      destruct Hx as [Hx|Hx]; [congruence|].
      destruct Hy as [Hy|Hy]; [congruence|].
      rewrite Forall_forall in H1f, H2f.
      pose proof (H1f _ Hy). pose proof (H2f _ Hx).
      unfold key_le, key_lt in *. lia. }
    subst y. f_equal. apply IH; try assumption.
    apply Permutation_cons_inv in Hp. exact Hp.
Qed.

(** Sorting any arrangement of a strictly ascending list gives that
    list. *)
Lemma sort_of_permutation (l l' : list A) :
  StronglySorted lt_ l' -> Permutation l l' -> sort_ l = l'.
Proof.
  intros Hs Hp. apply sorted_unique; [apply sort_sorted | exact Hs|].
  eapply perm_trans; [apply sort_perm | exact Hp].
Qed.

End SortFacts.

(** ** Retry (C8) *)

Section Retry.

Variable S : Type.
Variable src : Source S.
Variable dest : Dest S.
Variable max_part_size : Z.
Variable tqdm_installed : bool.
Variable file_size : Z.
Variable show_progress : bool.

Local Abbreviation attempt_ :=
  (attempt_part src dest max_part_size tqdm_installed file_size show_progress).
Local Abbreviation loop_ :=
  (retry_loop src dest max_part_size tqdm_installed file_size show_progress).
Local Abbreviation transfer_ :=
  (transfer_part src dest max_part_size tqdm_installed file_size show_progress).
Local Abbreviation offset_of := (part_offset max_part_size file_size).
Local Abbreviation length_of := (bytes_to_read max_part_size file_size).

Lemma attempt_read_raises (i : Z) (e : exn) s s1 :
  read_range src (offset_of i) (length_of i) s = (Raise e, s1) ->
  attempt_ i s
  = (Raise e, s1, [ReadRange (offset_of i) (length_of i) (Some e)]).
Proof.
  intros H. unfold attempt_part, bind, call. rewrite H. reflexivity.
Qed.

Lemma attempt_returns (i : Z) (d : bytes) s s1 s2 :
  read_range src (offset_of i) (length_of i) s = (Ok d, s1) ->
  upload_part dest (i + 1) d s1 = (Ok tt, s2) ->
  attempt_ i s
  = (Ok tt, s2,
     [ReadRange (offset_of i) (length_of i) None; UploadPart (i + 1) d None]
       ++ progress_events tqdm_installed file_size show_progress d).
Proof.
  intros H1 H2. unfold attempt_part, bind, call, progress_events.
  rewrite H1, H2. destruct (progress _ _ _); reflexivity.
Qed.

(** A failed attempt that is not the third: log, sleep, go round again. *)
Lemma retry_loop_again (fuel : nat) (i attempt : Z) (e : exn) s s1 t1 :
  attempt_ i s = (Raise e, s1, t1) ->
  attempt + 1 < 3 ->
  loop_ (Datatypes.S fuel) i attempt s
  = let '(r, s2, t2) := loop_ fuel i (attempt + 1) s1 in
    (r, s2,
     t1 ++ Log DEBUG "Error transferring part"
        :: Sleep (1 * (attempt + 1)) :: t2).
Proof.
  intros H Ha. rewrite retry_loop_eq. unfold try_catch. rewrite H.
  unfold bind at 1. unfold emit at 1.
  replace (3 <=? attempt + 1) with false by (symmetry; apply Z.leb_gt; lia).
  unfold bind at 1. unfold emit at 1.
  destruct (loop_ fuel i (attempt + 1) s1) as [[r s2] t2]. reflexivity.
Qed.

Lemma retry_loop_returns (fuel : nat) (i attempt : Z) s s1 t1 :
  attempt_ i s = (Ok tt, s1, t1) ->
  loop_ fuel i attempt s = (Ok tt, s1, t1).
Proof.
  intros H. rewrite retry_loop_eq. unfold try_catch. rewrite H. reflexivity.
Qed.

(** C8.  A part whose first two [read_range] calls raise and whose third
    returns (its upload being accepted) is transferred: [transfer_part]
    returns after exactly three attempts, having slept twice, 1 and then 2
    seconds, and having uploaded the bytes read once.  And whatever the
    handles do, [transfer_part] makes at most three attempts; it raises
    only after the third, and the sleeps between attempts are
    [1 * attempt]. *)
Theorem transfer_part_retries_three_times (i : Z) :
  (forall (e1 e2 : exn) (data : bytes) s0 s1 s2 s3 s4,
      read_range src (offset_of i) (length_of i) s0 = (Raise e1, s1) ->
      read_range src (offset_of i) (length_of i) s1 = (Raise e2, s2) ->
      read_range src (offset_of i) (length_of i) s2 = (Ok data, s3) ->
      upload_part dest (i + 1) data s3 = (Ok tt, s4) ->
      exists t,
        transfer_ i s0 = (Ok tt, s4, t)
        /\ attempts t = 3%nat
        /\ sleeps t = [1; 2]
        /\ uploads t = [(i + 1, data)])
  /\ (forall s r s' t,
         transfer_ i s = (r, s', t) ->
         (1 <= attempts t <= 3)%nat
         /\ sleeps t = backoff 0 (attempts t)
         /\ (forall e, r = Raise e -> attempts t = 3%nat /\ uploads t = [])).
Proof.
  split.
  - intros e1 e2 data s0 s1 s2 s3 s4 R1 R2 R3 U.
    pose proof (attempt_read_raises i s0 R1) as A1.
    pose proof (attempt_read_raises i s1 R2) as A2.
    pose proof (attempt_returns i s2 R3 U) as A3.
    unfold transfer_part.
    rewrite (retry_loop_again 1 i 0 s0 A1) by lia.
    rewrite (retry_loop_again 0 i (0 + 1) s1 A2) by lia.
    rewrite (retry_loop_returns 0 i (0 + 1 + 1) s2 A3).
    destruct (@attempt_ok_facts S src dest max_part_size tqdm_installed
                file_size show_progress (fun _ _ => True)
                (fun _ _ _ _ _ _ _ _ => I) (fun _ _ _ _ _ _ _ _ => I)
                i [] s2 s4 _ I A3)
      as (_ & _ & R & Sl & d & _ & Up).
    assert (Hd : d = data).
    { rewrite uploads_app in Up. cbn [uploads flat_map app] in Up.
      destruct (uploads (progress_events _ _ _ _)); [|discriminate].
      injection Up as ->. reflexivity. }
    subst d.
    set (T3 := [ReadRange (offset_of i) (length_of i) None;
                UploadPart (i + 1) data None]
                 ++ progress_events tqdm_installed file_size show_progress
                      data) in *.
    cbn [app]. eexists. split; [reflexivity|].
    unfold attempts.
    match goal with
    | |- context [?a :: ?b :: ?c :: ?d :: ?e :: ?f :: T3] =>
        change (a :: b :: c :: d :: e :: f :: T3)
          with ([a; b; c; d; e; f] ++ T3)
    end.
    rewrite count_app, sleeps_app, uploads_app, R, Sl, Up.
    repeat split.
  - intros s r s' t H.
    destruct (@transfer_part_run S src dest max_part_size tqdm_installed
                file_size show_progress (fun _ _ => True)
                (fun _ _ _ _ _ _ _ _ => I) (fun _ _ _ _ _ _ _ _ => I)
                i [] s r s' t I H)
      as (_ & _ & R & Sl & Hres).
    unfold attempts.
    repeat split; try lia; try exact Sl; destruct r; try discriminate;
      tauto.
Qed.

End Retry.

Lemma transfer_part_retries_three_times_witness :
  let src := source_of (B := DummyDest.t) S3Source.handle in
  let dest := dest_of (A := S3Source.t) DummyDest.handle in
  let s0 :=
    (S3Source.init abc [Some (ProviderError 500); Some (ProviderError 503)],
     DummyDest.init) in
  exists t,
    transfer_part src dest default_chunk true 3 false 0 s0
    = (Ok tt,
       (S3Source.mk (Some abc) [] 3, DummyDest.mk [(1, abc)] false None), t)
    /\ attempts t = 3%nat /\ sleeps t = [1; 2] /\ uploads t = [(1, abc)].
Proof.
  intros src dest s0.
  apply (proj1 (transfer_part_retries_three_times
                  src dest default_chunk true 3 false 0)
           (ProviderError 500) (ProviderError 503) abc s0
           (S3Source.mk (Some abc) [Some (ProviderError 503)] 3, DummyDest.init)
           (S3Source.mk (Some abc) [] 3, DummyDest.init)
           (S3Source.mk (Some abc) [] 3, DummyDest.init));
    reflexivity.
Defined.

(** ** The empty object (C3, C7) *)

Lemma num_parts_default_zero :
  num_parts default_chunk 0 = Raise ZeroDivisionError.
Proof. apply num_parts_zero. reflexivity. Qed.

(** C7.  For an object of size 0 the planner produces no part count at
    all: [math.ceil(file_size / chunk_size)] divides by a zero
    [chunk_size] and raises [ZeroDivisionError]. *)
Theorem planner_raises_on_empty_object :
  num_parts default_chunk 0 = Raise ZeroDivisionError.
Proof. apply num_parts_zero. reflexivity. Qed.

(** C3.  A transfer of an object of size 0 does not finalize: the planner's
    [ZeroDivisionError] lands in [move_file]'s handler, which logs, calls
    [abort] and re-raises; neither [complete] nor [delete] is called. *)
Theorem empty_object_transfer_aborts {S} (src : Source S) (dest : Dest S)
    (tqdm_installed : bool) (threads : Z) (show_progress : bool)
    (choices : list nat) (s : S) :
  get_size src s = 0 ->
  exists A,
    abort_shape A
    /\ move_file src dest tqdm_installed threads show_progress choices s
       = (Raise ZeroDivisionError, snd (abort dest s),
          Log INFO "Starting transfer" :: Log ERROR "Transfer failed" :: A)
    /\ count is_complete A = O /\ count is_delete A = O
    /\ count is_abort A = 1%nat.
Proof.
  intros Hsize.
  unfold move_file, move_file_with, try_catch, move_body.
  rewrite Hsize. unfold bind at 1. unfold emit at 1.
  unfold bind at 1. unfold lift_result.
  rewrite num_parts_default_zero.
  unfold bind, emit, try_catch, call, raise.
  destruct (abort dest s) as [[[]|e] s1]; cbn [exc_of snd app].
  - exists [DestAbort None]. repeat split. constructor.
  - eexists. repeat split. apply (abort_raised e).
Qed.

Lemma empty_object_transfer_aborts_witness :
  exists A,
    abort_shape A
    /\ move_file (source_of S3Source.handle) (dest_of AzureDest.handle)
         true 4 true []
         (S3Source.init [] [], AzureDest.init (Some abc) [])
       = (Raise ZeroDivisionError,
          snd (abort (dest_of AzureDest.handle)
                 (S3Source.init [] [], AzureDest.init (Some abc) [])),
          Log INFO "Starting transfer" :: Log ERROR "Transfer failed" :: A)
    /\ count is_complete A = O /\ count is_delete A = O
    /\ count is_abort A = 1%nat.
Proof.
  apply (empty_object_transfer_aborts
           (source_of S3Source.handle) (dest_of AzureDest.handle)
           true 4 true []
           (S3Source.init [] [], AzureDest.init (Some abc) [])).
  reflexivity.
Defined.

(** ** Failures (C4, C5) *)

(** C5.  In every run of [move_file]: if some part's future ended with an
    exception (the part used up its three attempts), then [complete] is
    never called, [abort] is called exactly once, [delete] is never called,
    and the run raises the exception of the first failed future; if
    [complete] raised, the run raises that exception, [abort] is called
    exactly once and [delete] never.  The exception raised is never the
    one [abort] may have ended with. *)
Theorem failed_transfer_aborts_once {S} (src : Source S) (dest : Dest S)
    (max_part_size : Z) (tqdm_installed : bool) (threads : Z)
    (show_progress : bool) (choices : list nat) (s s' : S)
    (r : result bool) (t : list event) :
  move_file_with src dest max_part_size tqdm_installed threads show_progress
    choices s = (r, s', t) ->
  (forall i e0,
      In (FutureDone i (Some e0)) t ->
      exists e,
        first_failure t = Some e /\ r = Raise e
        /\ count is_complete t = O /\ count is_abort t = 1%nat
        /\ count is_delete t = O)
  /\ (forall e,
         In (DestComplete (Some e)) t ->
         r = Raise e /\ count is_complete t = 1%nat
         /\ count is_abort t = 1%nat /\ count is_delete t = O).
Proof.
  intros H. apply move_file_run in H.
  pose proof (run_shape_aborts H) as Ha.
  split.
  - intros i e0 Hin.
    destruct (run_shape_part_failure _ _ H Hin) as (e & Hf & -> & Hc & Hd).
    exists e. auto.
  - intros e Hin.
    destruct (run_shape_complete_failure _ H Hin) as (-> & _ & Hc & Hd).
    auto.
Qed.

Lemma failed_transfer_aborts_once_witness :
  let run :=
    move_file_with (source_of S3Source.handle) (dest_of DummyDest.handle)
      default_chunk true 4 false []
      (S3Source.init abc
         [Some (ProviderError 1); Some (ProviderError 2);
          Some (ProviderError 3)],
       DummyDest.init) in
  (forall i e0,
      In (FutureDone i (Some e0)) (snd run) ->
      exists e,
        first_failure (snd run) = Some e /\ fst (fst run) = Raise e
        /\ count is_complete (snd run) = O
        /\ count is_abort (snd run) = 1%nat
        /\ count is_delete (snd run) = O)
  /\ In (FutureDone 0 (Some (ProviderError 3))) (snd run).
Proof.
  intros run. split.
  - apply (proj1 (@failed_transfer_aborts_once _
                    (source_of S3Source.handle) (dest_of DummyDest.handle)
                    default_chunk true 4 false []
                    (S3Source.init abc
                       [Some (ProviderError 1); Some (ProviderError 2);
                        Some (ProviderError 3)],
                     DummyDest.init)
                    (snd (fst run)) (fst (fst run)) (snd run) eq_refl)).
  - vm_compute. tauto.
Defined.

(** C4, as stated, fails: in the run above [complete] returned and [delete]
    raised, yet the caller does not get success and [abort] is called. *)
Lemma delete_failure_not_tolerated :
  ~ delete_failure_tolerated (fst (fst delete_failure_run))
      (snd delete_failure_run).
Proof.
  intros H. unfold delete_failure_tolerated in H.
  destruct H as (Hr & _).
  - vm_compute. tauto.
  - exists (ProviderError 503). vm_compute. tauto.
  - vm_compute in Hr. discriminate.
Qed.

(** C4, amended.  When [delete] raises after [complete] returned, the
    exception goes through [move_file]'s handler like any other: the run
    logs the failure as an error, calls [abort] exactly once, after the
    [complete] that returned (two terminal calls on the destination), and
    raises the delete's exception to the caller. *)
Theorem delete_failure_aborts_and_raises {S} (src : Source S)
    (dest : Dest S) (max_part_size : Z) (tqdm_installed : bool)
    (threads : Z) (show_progress : bool) (choices : list nat) (s s' : S)
    (r : result bool) (t : list event) (e : exn) :
  move_file_with src dest max_part_size tqdm_installed threads show_progress
    choices s = (r, s', t) ->
  In (SrcDelete (Some e)) t ->
  r = Raise e
  /\ count is_complete t = 1%nat
  /\ count is_abort t = 1%nat
  /\ count is_terminal t = 2%nat
  /\ exists P A,
       abort_shape A
       /\ t = Log INFO "Starting transfer"
               :: P ++ DestComplete None :: SrcDelete (Some e)
               :: Log ERROR "Transfer failed" :: A.
Proof.
  intros H Hin. apply move_file_run in H.
  pose proof (run_shape_aborts H) as Ha.
  destruct (run_shape_delete_failure _ H Hin) as (-> & Hc & Ht & Hs).
  auto.
Qed.

Lemma delete_failure_aborts_and_raises_witness :
  fst (fst delete_failure_run) = Raise (ProviderError 503)
  /\ count is_complete (snd delete_failure_run) = 1%nat
  /\ count is_abort (snd delete_failure_run) = 1%nat
  /\ count is_terminal (snd delete_failure_run) = 2%nat
  /\ exists P A,
       abort_shape A
       /\ snd delete_failure_run
          = Log INFO "Starting transfer"
              :: P ++ DestComplete None :: SrcDelete (Some (ProviderError 503))
              :: Log ERROR "Transfer failed" :: A.
Proof.
  apply (@delete_failure_aborts_and_raises _
           (source_of S3Source.handle) (dest_of AzureDest.handle)
           default_chunk true 4 false []
           (S3Source.init abc [None; Some (ProviderError 503)],
            AzureDest.init None [])
           (snd (fst delete_failure_run)) (fst (fst delete_failure_run))
           (snd delete_failure_run) (ProviderError 503) eq_refl).
  vm_compute. tauto.
Defined.

(** ** Effective concurrency (C9) *)



(** ** Round trip (C6) *)

Lemma range_length (n : Z) : List.length (range n) = Z.to_nat n.
Proof. unfold range. rewrite length_map, length_seq. reflexivity. Qed.

(** Parts tagged [i + 1] for ascending [i] are in strictly ascending
    part-number order. *)
Lemma tagged_sorted (f : Z -> bytes) (m : nat) :
  forall a : nat,
    StronglySorted (key_lt fst)
      (map (fun i => (i + 1, f i)) (map Z.of_nat (seq a m))).
Proof.
  induction m as [|m IH]; intros a; [constructor|].
  cbn [seq map]. constructor; [apply IH|].
  rewrite Forall_forall. intros kd Hin.
  apply in_map_iff in Hin as (i & <- & Hin).
  apply in_map_iff in Hin as (k & <- & Hin).
  apply in_seq in Hin. unfold key_lt. cbn [fst]. lia.
Qed.

Section RoundTrip.

Variable S : Type.
Variable src : Source S.
Variable dest : Dest S.
Variable max_part_size : Z.
Hypothesis max_pos : 0 < max_part_size.
Variable data : bytes.

(** The states in which the source still holds the object. *)
Variable Inv : list (Z * bytes) -> S -> Prop.

Hypothesis Inv_read :
  forall u offset length st r st',
    Inv u st -> read_range src offset length st = (r, st') -> Inv u st'.

Hypothesis Inv_upload :
  forall u k d st r st',
    Inv u st -> upload_part dest k d st = (r, st') ->
    Inv (u ++ match r with Ok _ => [(k, d)] | Raise _ => [] end) st'.

(** The source hands out the object's bytes: a read that returns, returns
    the requested range (cut at the object's end). *)
Hypothesis honest_reads :
  forall u offset length st d st',
    Inv u st ->
    read_range src offset length st = (Ok d, st') ->
    d = slice data offset (offset + length).

Local Abbreviation tag :=
  (fun i : Z => (i + 1, chunk max_part_size data i)).

Lemma accepted_are_chunks (order : list Z) (ups : list (Z * bytes)) :
  Forall2
    (fun i kd =>
       fst kd = i + 1
       /\ read_of Inv src max_part_size (len data) i (snd kd))
    order ups ->
  ups = map tag order.
Proof.
  induction 1 as [|i [k d] order ups [Hk (u & st & st' & Hst & Hread)] _ IH];
    [reflexivity|].
  cbn [fst snd] in *. apply (honest_reads _ _ Hst) in Hread.
  cbn [map]. subst. reflexivity.
Qed.

(** When [move_file] returns, the accepted uploads are the object's parts,
    each once, and they assemble to the object. *)
Lemma uploads_reassemble (tqdm_installed : bool) (threads : Z)
    (show_progress : bool) (choices : list nat) u (s s' : S) (b : bool)
    (t : list event) :
  Inv u s ->
  get_size src s = len data ->
  len data < 2 ^ 53 ->
  move_file_with src dest max_part_size tqdm_installed threads show_progress
    choices s = (Ok b, s', t) ->
  assemble (uploads t) = data
  /\ Permutation (map fst (uploads t))
       (map (fun i => i + 1)
          (range (ceil_div (len data) (Z.min (len data) max_part_size))))
  /\ exists s2 s3,
       Inv (u ++ uploads t) s2
       /\ complete dest s2 = (Ok tt, s3)
       /\ delete src s3 = (Ok tt, s').
Proof.
  intros Hs Hsize Hbound H.
  apply (@move_file_returns S src dest max_part_size tqdm_installed Inv
           Inv_read Inv_upload threads show_progress choices u s b s' t Hs)
    in H.
  destruct H as (P & s2 & s3 & -> & _ & Hc & Hs2 & Hcomp & Hdel).
  destruct Hc as (n & Hn & Hth & _ & Hup).
  rewrite Hsize in Hn, Hup.
  assert (Hpos : 0 < len data).
  { destruct (Z.eq_dec (len data) 0) as [E|];
      [|unfold len in *; lia].
    rewrite E, num_parts_zero in Hn by exact max_pos. discriminate. }
  rewrite (num_parts_exact max_pos Hpos Hbound) in Hn.
  injection Hn as <-.
  set (n := ceil_div (len data) (Z.min (len data) max_part_size)) in *.
  set (order := completion_order _ _ _ _) in Hup.
  assert (Hperm : Permutation order (range n)).
  { apply completion_order_perm; [lia|]. rewrite range_length. lia. }
  assert (HP : uploads P = map tag order)
    by (apply accepted_are_chunks; exact Hup).
  assert (Hups : uploads (Log INFO "Starting transfer" :: P ++
                            [DestComplete None; SrcDelete None;
                             Log INFO
                               "Transfer completed successfully. Source object deleted."])
                 = uploads P).
  { change (Log INFO "Starting transfer" :: P ++ ?l)
      with ([Log INFO "Starting transfer"] ++ P ++ l).
    rewrite !uploads_app. cbn [uploads flat_map app]. apply app_nil_r. }
  rewrite Hups. split; [|split].
  - rewrite HP. unfold assemble.
    rewrite (@sort_of_permutation _ fst (map tag order) (map tag (range n))).
    + rewrite map_map. cbn [snd].
      apply (@concat_chunks max_part_size max_pos data Hpos).
    + apply tagged_sorted.
    + apply Permutation_map. exact Hperm.
  - rewrite HP, map_map. cbn [fst]. apply Permutation_map. exact Hperm.
  - exists s2, s3. auto.
Qed.

(** When [move_file] returns, the accepted uploads are the object's parts
    in completion order, and the run ended with [complete] and [delete]
    returning from the state the copy phase left. *)
Lemma uploads_are_chunks (tqdm_installed : bool) (threads : Z)
    (show_progress : bool) (choices : list nat) u (s s' : S) (b : bool)
    (t : list event) :
  Inv u s ->
  get_size src s = len data ->
  len data < 2 ^ 53 ->
  move_file_with src dest max_part_size tqdm_installed threads show_progress
    choices s = (Ok b, s', t) ->
  0 < len data
  /\ exists order s2 s3,
       Permutation order
         (range (ceil_div (len data) (Z.min (len data) max_part_size)))
       /\ uploads t = map tag order
       /\ Inv (u ++ uploads t) s2
       /\ complete dest s2 = (Ok tt, s3)
       /\ delete src s3 = (Ok tt, s').
Proof.
  intros Hs Hsize Hbound H.
  apply (@move_file_returns S src dest max_part_size tqdm_installed Inv
           Inv_read Inv_upload threads show_progress choices u s b s' t Hs)
    in H.
  destruct H as (P & s2 & s3 & -> & _ & Hc & Hs2 & Hcomp & Hdel).
  destruct Hc as (n & Hn & Hth & _ & Hup).
  rewrite Hsize in Hn, Hup.
  assert (Hpos : 0 < len data).
  { destruct (Z.eq_dec (len data) 0) as [E|];
      [|unfold len in *; lia].
    rewrite E, num_parts_zero in Hn by exact max_pos. discriminate. }
  split; [exact Hpos|].
  rewrite (num_parts_exact max_pos Hpos Hbound) in Hn.
  injection Hn as <-.
  set (n := ceil_div (len data) (Z.min (len data) max_part_size)) in *.
  set (order := completion_order _ _ _ _) in Hup.
  assert (Hperm : Permutation order (range n)).
  { apply completion_order_perm; [lia|]. rewrite range_length. lia. }
  assert (HP : uploads P = map tag order)
    by (apply accepted_are_chunks; exact Hup).
  assert (Hups : uploads (Log INFO "Starting transfer" :: P ++
                            [DestComplete None; SrcDelete None;
                             Log INFO
                               "Transfer completed successfully. Source object deleted."])
                 = uploads P).
  { change (Log INFO "Starting transfer" :: P ++ ?l)
      with ([Log INFO "Starting transfer"] ++ P ++ l).
    rewrite !uploads_app. cbn [uploads flat_map app]. apply app_nil_r. }
  rewrite Hups. exists order, s2, s3. auto.
Qed.

End RoundTrip.

(** [S3Source.read_range] hands out the object while it is there. *)
Lemma S3Source_read_honest (data : bytes) (offset length : Z)
    (a a' : S3Source.t) (d : bytes) :
  S3Source.object a = Some data ->
  S3Source.read_range offset length a = (Ok d, a') ->
  d = slice data offset (offset + length).
Proof.
  intros Hobj. unfold S3Source.read_range, S3Source.get_object.
  destruct (next_fault (S3Source.pending a)) as [[e|] rest]; [discriminate|].
  rewrite Hobj. destruct (len data <=? offset); [discriminate|].
  intros H. injection H as <- _. f_equal. lia.
Qed.

Lemma S3Source_read_keeps (offset length : Z) (a a' : S3Source.t)
    (r : result bytes) :
  S3Source.read_range offset length a = (r, a') ->
  S3Source.object a' = S3Source.object a.
Proof.
  unfold S3Source.read_range, S3Source.get_object.
  destruct (next_fault (S3Source.pending a)) as [[e|] rest];
    destruct (S3Source.object a) as [data|];
    try destruct (len data <=? offset);
    intros H; injection H as _ <-; reflexivity.
Qed.

(** C6.  For every object [data] in an [S3Source] (of fewer than 2^53
    bytes, below which the part count is exact), any destination, any
    number of threads, any completion order and any failures on the way:
    when [move_file] returns, the byte strings [upload_part] accepted, put
    end to end in ascending part-number order, are exactly [data], each
    part number from 1 to the part count having been accepted once. *)
Theorem uploads_reassemble_source {B} (dest : Dest B) (max_part_size : Z)
    (tqdm_installed : bool) (threads : Z) (show_progress : bool)
    (choices : list nat) (data : bytes) (f : faults) (b0 : B)
    (s' : S3Source.t * B) (b : bool) (t : list event) :
  0 < max_part_size ->
  len data < 2 ^ 53 ->
  move_file_with (source_of S3Source.handle) (dest_of dest) max_part_size
    tqdm_installed threads show_progress choices
    (S3Source.init data f, b0) = (Ok b, s', t) ->
  assemble (uploads t) = data
  /\ Permutation (map fst (uploads t))
       (map (fun i => i + 1)
          (range (ceil_div (len data) (Z.min (len data) max_part_size)))).
Proof.
  intros Hmax Hbound H.
  pose (Inv := fun (_ : list (Z * bytes)) (st : S3Source.t * B) =>
                 S3Source.object (fst st) = Some data).
  assert (Hread :
    forall u offset length st r st',
      Inv u st ->
      read_range (source_of (B := B) S3Source.handle) offset length st
      = (r, st') ->
      Inv u st').
  { intros u offset length [a b1] r st' Hst. unfold Inv in *. cbn.
    destruct (S3Source.read_range offset length a) as [r1 a1] eqn:E.
    intros Heq. injection Heq as _ <-. cbn.
    rewrite (S3Source_read_keeps _ _ _ E). exact Hst. }
  assert (Hupload :
    forall u k d st r st',
      Inv u st ->
      upload_part (dest_of (A := S3Source.t) dest) k d st = (r, st') ->
      Inv (u ++ match r with Ok _ => [(k, d)] | Raise _ => [] end) st').
  { intros u k d [a b1] r st' Hst. unfold Inv in *. cbn.
    destruct (upload_part dest k d b1) as [r1 b2].
    intros Heq. injection Heq as _ <-. exact Hst. }
  assert (Hhonest :
    forall u offset length st d st',
      Inv u st ->
      read_range (source_of (B := B) S3Source.handle) offset length st
      = (Ok d, st') ->
      d = slice data offset (offset + length)).
  { intros u offset length [a b1] d st' Hst. unfold Inv in *. cbn.
    destruct (S3Source.read_range offset length a) as [r1 a1] eqn:E.
    intros Heq. injection Heq as -> _.
    apply (S3Source_read_honest _ _ _ Hst E). }
  destruct (@uploads_reassemble (S3Source.t * B)
              (source_of S3Source.handle) (dest_of dest) max_part_size Hmax
              data Inv Hread Hupload Hhonest tqdm_installed threads
              show_progress choices [] (S3Source.init data f, b0) s' b t
              eq_refl eq_refl Hbound H)
    as (Ha & Hp & _).
  split; assumption.
Qed.

Lemma uploads_reassemble_source_witness :
  let abcde := [Byte.x61; Byte.x62; Byte.x63; Byte.x64; Byte.x65] in
  let run :=
    move_file_with (source_of S3Source.handle) (dest_of DummyDest.handle)
      2 true 4 true [1%nat; 0%nat]
      (S3Source.init abcde [Some (ProviderError 500)], DummyDest.init) in
  fst (fst run) = Ok true
  /\ assemble (uploads (snd run)) = abcde
  /\ Permutation (map fst (uploads (snd run))) [1; 2; 3].
Proof.
  intros abcde run. split; [reflexivity|].
  apply (@uploads_reassemble_source _ DummyDest.handle 2 true 4 true
           [1%nat; 0%nat] abcde [Some (ProviderError 500)] DummyDest.init
           (snd (fst run)) true (snd run));
    [reflexivity | reflexivity | reflexivity].
Defined.


(** ** Transfers that meet no failure *)

Section Reliable.

Variable S : Type.
Variable src : Source S.
Variable dest : Dest S.
Variable max_part_size : Z.
Variable tqdm_installed : bool.

Variable Inv : list (Z * bytes) -> S -> Prop.

Hypothesis Inv_read :
  forall u offset length st r st',
    Inv u st -> read_range src offset length st = (r, st') -> Inv u st'.

Hypothesis Inv_upload :
  forall u k d st r st',
    Inv u st -> upload_part dest k d st = (r, st') ->
    Inv (u ++ match r with Ok _ => [(k, d)] | Raise _ => [] end) st'.

(** In the states of [Inv] no method of the handles raises. *)
Hypothesis reads_return :
  forall u offset length st,
    Inv u st -> exists d st', read_range src offset length st = (Ok d, st').

Hypothesis uploads_return :
  forall u k d st,
    Inv u st -> exists st', upload_part dest k d st = (Ok tt, st').

Hypothesis complete_returns :
  forall u st, Inv u st -> exists st', complete dest st = (Ok tt, st').

Hypothesis delete_returns :
  forall u st st',
    Inv u st -> complete dest st = (Ok tt, st') ->
    exists st'', delete src st' = (Ok tt, st'').




End Reliable.

(** ** The test suite's transfer, for every object *)



(** ** Finalize order (C1) *)

(** [S3Dest.complete] submits the recorded parts in ascending
    [PartNumber] order, whatever order they were recorded in. *)
Lemma S3Dest_complete_ascending (s : S3Dest.t) :
  exists Parts,
    S3Dest.sent (snd (S3Dest.complete s))
    = S3Dest.sent s ++ [S3Dest.complete_multipart_upload_req Parts]
    /\ Permutation Parts (S3Dest.parts s)
    /\ StronglySorted (key_le S3Dest.PartNumber) Parts.
Proof.
  exists (Py.sort S3Dest.PartNumber Z.leb (S3Dest.parts s)).
  split; [|split; [apply sort_perm | apply sort_sorted]].
  unfold S3Dest.complete, S3Dest.request_. cbn [S3Dest.pending S3Dest.sent].
  destruct (next_fault (S3Dest.pending s)) as [[e|] rest]; reflexivity.
Qed.

Lemma GCSDest_delete_all_sent (warn : bool) (names : list string) :
  forall st,
    exists q,
      GCSDest.sent (GCSDest.delete_all warn names st) = GCSDest.sent st ++ q.
Proof.
  induction names as [|x names IH]; intros st.
  - exists []. cbn. symmetry. apply app_nil_r.
  - cbn [GCSDest.delete_all].
    assert (Hs : exists r st1,
               GCSDest.delete_blob x st = (r, st1)
               /\ GCSDest.sent st1 = GCSDest.sent st ++ [GCSDest.delete_req x]).
    { unfold GCSDest.delete_blob.
      destruct (next_fault (GCSDest.pending st)) as [[e|] rest];
        destruct (GCSDest.lookup x (GCSDest.blobs st));
        eexists; eexists; split; reflexivity. }
    destruct Hs as (r & st1 & E & Hsent). rewrite E.
    destruct r as [[]|e].
    + destruct (IH st1) as (q & Hq). rewrite Hq, Hsent, <- app_assoc.
      eexists. reflexivity.
    + match goal with
      | |- context [GCSDest.delete_all warn names ?st2] =>
          destruct (IH st2) as (q & Hq); rewrite Hq
      end.
      destruct warn; cbn [GCSDest.sent]; rewrite Hsent, <- app_assoc;
        eexists; reflexivity.
Qed.

(** [GCSDest.complete] composes the part blobs numbered 1 to
    [part_count], in that order. *)
Lemma GCSDest_complete_ascending (s : GCSDest.t) :
  GCSDest.part_count s <> 0 ->
  exists q,
    GCSDest.sent (snd (GCSDest.complete s))
    = GCSDest.sent s
        ++ GCSDest.compose_req (GCSDest.final_blob_name s)
             (map (fun i => GCSDest.part_name s (i + 1))
                (range (GCSDest.part_count s)))
        :: q.
Proof.
  intros Hn. unfold GCSDest.complete.
  replace (GCSDest.part_count s =? 0) with false
    by (symmetry; apply Z.eqb_neq; exact Hn).
  fold (GCSDest.part_names s).
  set (names := GCSDest.part_names s).
  unfold GCSDest.compose.
  destruct (next_fault (GCSDest.pending s)) as [[e|] rest];
    [exists []; reflexivity|].
  destruct (GCSDest.gather names (GCSDest.blobs s)) as [d|];
    [|exists []; reflexivity].
  cbn [snd].
  match goal with
  | |- context [GCSDest.delete_all true names ?st2] =>
      destruct (GCSDest_delete_all_sent true names st2) as (q & Hq);
      rewrite Hq
  end.
  cbn [GCSDest.sent GCSDest.with_bucket]. rewrite <- app_assoc.
  exists q. reflexivity.
Qed.

(** C1.  [AzureDest.complete] does not commit four parts in the order
    1..4.  After [upload_part] for parts 1, 2, 3 and 4, the block ids are
    compared as strings: base64 turns the last digit 4 into the character
    0, which sorts before the x, y and z of the digits 1, 2 and 3, so the
    block of part 4 is committed first and the blob starts with its
    bytes. *)
Theorem AzureDest_complete_commits_part_4_first :
  let a := [Byte.x61] in
  let b := [Byte.x62] in
  let c := [Byte.x63] in
  let d := [Byte.x64] in
  let s :=
    upload_all AzureDest.handle [(1, a); (2, b); (3, c); (4, d)]
      (AzureDest.init None []) in
  String.ltb (AzureDest.block_id_of 4) (AzureDest.block_id_of 1) = true
  /\ AzureDest.block_ids s = map AzureDest.block_id_of [1; 2; 3; 4]
  /\ fst (AzureDest.complete s) = Ok tt
  /\ last (AzureDest.sent (snd (AzureDest.complete s)))
       AzureDest.delete_blob_req
     = AzureDest.commit_block_list_req
         (map AzureDest.block_id_of [4; 1; 2; 3])
  /\ AzureDest.blob (snd (AzureDest.complete s)) = Some (d ++ a ++ b ++ c).
Proof. vm_compute. repeat split. Qed.

(** ** Repeated uploads (C2) *)

(** C2, as stated, fails.  After [upload_part(1, abc)] twice,
    [AzureDest.complete] asks for a block list that names the block twice
    (and the blob committed is [abc] twice), where a single call gives the
    block once; on the test suite's [DummyDest], [combined_data] is [abc]
    twice. *)
Lemma upload_part_not_retry_safe :
  ~ retry_safe AzureDest.handle committed_block_list (AzureDest.init None [])
      1 abc
  /\ ~ retry_safe AzureDest.handle AzureDest.blob (AzureDest.init None [])
        1 abc
  /\ ~ retry_safe DummyDest.handle DummyDest.combined_data DummyDest.init
        1 abc.
Proof.
  unfold retry_safe. repeat split; vm_compute; discriminate.
Qed.

Lemma S3Dest_upload_appends (k : Z) (data : bytes) (s s1 : S3Dest.t) :
  S3Dest.upload_part k data s = (Ok tt, s1) ->
  S3Dest.parts s1
  = S3Dest.parts s
      ++ [S3Dest.mkpart (S3Dest.strip_quotes (S3Dest.etag_of s k data)) k]
  /\ S3Dest.etag_of s1 = S3Dest.etag_of s.
Proof.
  unfold S3Dest.upload_part, S3Dest.request_.
  destruct (next_fault (S3Dest.pending s)) as [[e|] rest]; [discriminate|].
  intros H. injection H as <-. cbn. auto.
Qed.

Lemma AzureDest_upload_appends (k : Z) (data : bytes) (s s1 : AzureDest.t) :
  AzureDest.upload_part k data s = (Ok tt, s1) ->
  AzureDest.block_ids s1 = AzureDest.block_ids s ++ [AzureDest.block_id_of k]
  /\ AzureDest.staged s1
     = (AzureDest.block_id_of k, data)
         :: GCSDest.remove (AzureDest.block_id_of k) (AzureDest.staged s).
Proof.
  unfold AzureDest.upload_part, AzureDest.stage_block.
  destruct (next_fault (AzureDest.pending s)) as [[e|] rest]; [discriminate|].
  intros H. injection H as <-. cbn. auto.
Qed.

Lemma remove_remove (name : string) (l : list (string * bytes)) :
  GCSDest.remove name (GCSDest.remove name l) = GCSDest.remove name l.
Proof.
  unfold GCSDest.remove.
  induction l as [|[n d] l IH]; [reflexivity|]. cbn [filter fst].
  destruct (String.eqb n name) eqn:E; cbn [negb]; [exact IH|].
  cbn [filter fst]. rewrite E. cbn [negb]. f_equal. exact IH.
Qed.

(** With blocks recorded, [AzureDest.complete] sends the sorted ids. *)
Lemma AzureDest_complete_sends (s : AzureDest.t) :
  AzureDest.block_ids s <> [] ->
  AzureDest.sent (snd (AzureDest.complete s))
  = AzureDest.sent s
      ++ [AzureDest.commit_block_list_req
            (Py.sort (fun i : string => i) String.leb (AzureDest.block_ids s))].
Proof.
  intros Hne. unfold AzureDest.complete.
  destruct (AzureDest.block_ids s) as [|x l] eqn:E; [contradiction|].
  unfold AzureDest.commit_block_list. cbn [AzureDest.pending].
  destruct (next_fault (AzureDest.pending s)) as [[e|] rest];
    [reflexivity|].
  cbn [AzureDest.staged].
  destruct (GCSDest.gather _ (AzureDest.staged s)); reflexivity.
Qed.

(** C2, amended.  A second [upload_part(k, data)] that returns sends the
    data again under the same part number or block id (on Azure the
    staged block is replaced, not added), but the handle records [k] a
    second time: [S3Dest.parts] and [AzureDest.block_ids] grow by one
    entry per call that returns, and [complete] submits the list with both
    entries.  A call that raises records nothing. *)
Theorem repeated_upload_is_recorded_twice (k : Z) (data : bytes) :
  (forall s s1 s2 : S3Dest.t,
      S3Dest.upload_part k data s = (Ok tt, s1) ->
      S3Dest.upload_part k data s1 = (Ok tt, s2) ->
      let p :=
        S3Dest.mkpart (S3Dest.strip_quotes (S3Dest.etag_of s k data)) k in
      S3Dest.parts s2 = S3Dest.parts s ++ [p; p]
      /\ exists Parts,
           S3Dest.sent (snd (S3Dest.complete s2))
           = S3Dest.sent s2 ++ [S3Dest.complete_multipart_upload_req Parts]
           /\ Permutation Parts (S3Dest.parts s ++ [p; p]))
  /\ (forall s s1 s2 : AzureDest.t,
         AzureDest.upload_part k data s = (Ok tt, s1) ->
         AzureDest.upload_part k data s1 = (Ok tt, s2) ->
         let id := AzureDest.block_id_of k in
         AzureDest.block_ids s2 = AzureDest.block_ids s ++ [id; id]
         /\ AzureDest.staged s2
            = (id, data) :: GCSDest.remove id (AzureDest.staged s)
         /\ exists block_list,
              AzureDest.sent (snd (AzureDest.complete s2))
              = AzureDest.sent s2
                  ++ [AzureDest.commit_block_list_req block_list]
              /\ Permutation block_list (AzureDest.block_ids s ++ [id; id]))
  /\ (forall (s s1 : S3Dest.t) (e : exn),
         S3Dest.upload_part k data s = (Raise e, s1) ->
         S3Dest.parts s1 = S3Dest.parts s)
  /\ (forall (s s1 : AzureDest.t) (e : exn),
         AzureDest.upload_part k data s = (Raise e, s1) ->
         AzureDest.block_ids s1 = AzureDest.block_ids s).
Proof.
  split; [|split; [|split]].
  3: { intros s s1 e. unfold S3Dest.upload_part, S3Dest.request_.
       destruct (next_fault (S3Dest.pending s)) as [[e0|] rest];
         [|discriminate].
       intros H. injection H as _ <-. reflexivity. }
  3: { intros s s1 e. unfold AzureDest.upload_part, AzureDest.stage_block.
       destruct (next_fault (AzureDest.pending s)) as [[e0|] rest];
         [|discriminate].
       intros H. injection H as _ <-. reflexivity. }
  - intros s s1 s2 H1 H2 p.
    apply S3Dest_upload_appends in H1 as [P1 E1].
    apply S3Dest_upload_appends in H2 as [P2 E2].
    rewrite E1 in P2. rewrite P1, <- app_assoc in P2. cbn [app] in P2.
    split; [exact P2|].
    destruct (S3Dest_complete_ascending s2) as (Parts & Hs & Hp & _).
    exists Parts. split; [exact Hs|]. subst p. rewrite <- P2. exact Hp.
  - intros s s1 s2 H1 H2 id.
    apply AzureDest_upload_appends in H1 as [B1 S1].
    apply AzureDest_upload_appends in H2 as [B2 S2].
    rewrite B1, <- app_assoc in B2. cbn [app] in B2.
    split; [exact B2|]. split.
    + rewrite S2, S1. fold id. f_equal.
      unfold GCSDest.remove at 1. cbn [filter fst].
      rewrite String.eqb_refl. cbn [negb].
      apply remove_remove.
    + subst id. rewrite <- B2.
      exists (Py.sort (fun i : string => i) String.leb
                (AzureDest.block_ids s2)).
      split; [|apply sort_perm].
      apply AzureDest_complete_sends.
      rewrite B2. destruct (AzureDest.block_ids s); discriminate.
Qed.

Lemma repeated_upload_is_recorded_twice_witness :
  let s := AzureDest.init None [] in
  let s1 := snd (AzureDest.upload_part 1 abc s) in
  let s2 := snd (AzureDest.upload_part 1 abc s1) in
  let id := AzureDest.block_id_of 1 in
  AzureDest.block_ids s2 = AzureDest.block_ids s ++ [id; id]
  /\ AzureDest.staged s2
     = (id, abc) :: GCSDest.remove id (AzureDest.staged s)
  /\ exists block_list,
       AzureDest.sent (snd (AzureDest.complete s2))
       = AzureDest.sent s2 ++ [AzureDest.commit_block_list_req block_list]
       /\ Permutation block_list (AzureDest.block_ids s ++ [id; id]).
Proof.
  intros s s1 s2 id.
  apply (proj1 (proj2 (repeated_upload_is_recorded_twice 1 abc)) s s1 s2);
    reflexivity.
Defined.

(** ** What [AzureDest.abort] deletes (C10) *)

Lemma next_fault_answers (f : faults) :
  Forall (fun o => o = None) f ->
  fst (next_fault f) = None /\ Forall (fun o => o = None) (snd (next_fault f)).
Proof.
  intros H. destruct H as [|o f Ho Hf]; cbn; auto.
Qed.

Lemma AzureDest_upload_answers k data d r d' :
  azure_answers d -> AzureDest.upload_part k data d = (r, d') ->
  azure_answers d'.
Proof.
  unfold azure_answers, AzureDest.upload_part, AzureDest.stage_block.
  intros H. apply next_fault_answers in H as [H1 H2].
  destruct (next_fault (AzureDest.pending d)) as [o rest]. cbn in H1, H2.
  subst o. intros E. injection E as _ <-. exact H2.
Qed.

Lemma AzureDest_complete_answers d r d' :
  azure_answers d -> AzureDest.complete d = (r, d') -> azure_answers d'.
Proof.
  unfold azure_answers, AzureDest.complete, AzureDest.upload_blob,
    AzureDest.commit_block_list.
  intros H. apply next_fault_answers in H as [H1 H2].
  destruct (AzureDest.block_ids d); cbn [AzureDest.pending AzureDest.staged];
    destruct (next_fault (AzureDest.pending d)) as [o rest]; cbn in H1, H2;
    subst o; try destruct (GCSDest.gather _ _);
    intros E; injection E as _ <-; exact H2.
Qed.

(** [AzureDest.abort] never raises; it sends one [delete_blob] for the
    destination's own name, and nothing is committed under that name
    afterwards unless the service refused the request. *)
Lemma AzureDest_abort_deletes (d : AzureDest.t) :
  fst (AzureDest.abort d) = Ok tt
  /\ AzureDest.sent (snd (AzureDest.abort d))
     = AzureDest.sent d ++ [AzureDest.delete_blob_req]
  /\ (azure_answers d -> AzureDest.blob (snd (AzureDest.abort d)) = None).
Proof.
  unfold AzureDest.abort, AzureDest.delete_blob, azure_answers.
  destruct (next_fault (AzureDest.pending d)) as [o rest] eqn:E.
  destruct o as [e|]; destruct (AzureDest.blob d) eqn:Eb; cbn;
    repeat split; try reflexivity; intros H;
    apply next_fault_answers in H as [H1 _]; rewrite E in H1;
    discriminate.
Qed.

(** C10.  Every run of [move_file] with an [AzureDest] that raises has
    called [abort] exactly once; [abort] returned (its own errors are
    swallowed) after sending [delete_blob] for the destination blob
    itself.  So, whatever the destination name held before the transfer,
    nothing is committed under it afterwards when the service answered
    the requests: an object that was already there is deleted along with
    the failed transfer. *)
Theorem azure_abort_deletes_destination_blob {A} (src : Source A)
    (tqdm_installed : bool) (threads : Z) (show_progress : bool)
    (choices : list nat) (a a' : A) (d d' : AzureDest.t) (e : exn)
    (t : list event) :
  move_file (source_of src) (dest_of AzureDest.handle) tqdm_installed
    threads show_progress choices (a, d) = (Raise e, (a', d'), t) ->
  count is_abort t = 1%nat
  /\ In (DestAbort None) t
  /\ (exists q, AzureDest.sent d' = q ++ [AzureDest.delete_blob_req])
  /\ (azure_answers d -> AzureDest.blob d' = None).
Proof.
  intros H.
  pose proof (run_shape_aborts (move_file_run _ _ _ _ _ _ _ _ H)) as Hc.
  cbn in Hc.
  assert (Hfinal :
    forall Keep : A * AzureDest.t -> Prop,
      (forall st, Keep st ->
         forall o l r st',
           read_range (source_of (B := AzureDest.t) src) o l st = (r, st') ->
           Keep st') ->
      (forall st, Keep st ->
         forall k dd r st',
           upload_part (dest_of (A := A) AzureDest.handle) k dd st = (r, st') ->
           Keep st') ->
      (forall st r st', Keep st ->
         complete (dest_of (A := A) AzureDest.handle) st = (r, st') ->
         Keep st') ->
      (forall st r st', Keep st ->
         delete (source_of (B := AzureDest.t) src) st = (r, st') -> Keep st') ->
      Keep (a, d) ->
      exists s1,
        Keep s1
        /\ (a', d') = snd (abort (dest_of (A := A) AzureDest.handle) s1)
        /\ In (DestAbort
                 (exc_of (fst (abort (dest_of (A := A) AzureDest.handle) s1))))
             t).
  { intros Keep Kr Ku Kc Kd K0.
    apply (@move_file_raises (A * AzureDest.t) (source_of src)
             (dest_of AzureDest.handle) default_chunk tqdm_installed
             (fun _ st => Keep st)
             (fun u o l st r st' Hst Hrun => Kr st Hst o l r st' Hrun)
             (fun u k dd st r st' Hst Hrun => Ku st Hst k dd r st' Hrun)
             Keep (fun _ st Hst => Hst) (fun _ st Hst => Hst) Kc Kd
             threads show_progress choices (a, d) e (a', d') t K0 H). }
  assert (Habort :
    forall s1 : A * AzureDest.t,
      abort (dest_of (A := A) AzureDest.handle) s1
      = (Ok tt, (fst s1, snd (AzureDest.abort (snd s1))))).
  { intros [a1 d1]. cbn.
    pose proof (AzureDest_abort_deletes d1) as (Hr & _).
    destruct (AzureDest.abort d1) as [r d2]. cbn in *. subst r. reflexivity. }
  split; [exact Hc|].
  destruct (Hfinal (fun _ => True)) as (s1 & _ & Hs' & Hin); auto.
  rewrite Habort in Hs', Hin. cbn in Hs', Hin.
  injection Hs' as -> ->.
  pose proof (AzureDest_abort_deletes (snd s1)) as (_ & Hsent & _).
  split; [exact Hin|]. split; [eexists; exact Hsent|].
  intros Hans.
  destruct (Hfinal (fun st => azure_answers (snd st))) as (s2 & K2 & Hs2 & _).
  - intros [a1 d1] K o l r st'. cbn.
    destruct (read_range src o l a1) as [r1 a2].
    intros E. injection E as _ <-. exact K.
  - intros [a1 d1] K k dd r st'. cbn.
    destruct (AzureDest.upload_part k dd d1) as [r1 d2] eqn:E1.
    intros E. injection E as _ <-. cbn.
    apply (AzureDest_upload_answers _ _ K E1).
  - intros [a1 d1] r st' K. cbn.
    destruct (AzureDest.complete d1) as [r1 d2] eqn:E1.
    intros E. injection E as _ <-. cbn.
    apply (AzureDest_complete_answers K E1).
  - intros [a1 d1] r st' K. cbn.
    destruct (delete src a1) as [r1 a2].
    intros E. injection E as _ <-. exact K.
  - exact Hans.
  - rewrite Habort in Hs2. cbn in Hs2.
    pose proof (AzureDest_abort_deletes (snd s2)) as (_ & _ & Hb).
    injection Hs2 as _ Hd. rewrite <- Hd in Hb. apply Hb. exact K2.
Qed.

Lemma azure_abort_deletes_destination_blob_witness :
  fst (fst failed_run_over_existing_blob) = Raise (ProviderError 503)
  /\ count is_abort (snd failed_run_over_existing_blob) = 1%nat
  /\ In (DestAbort None) (snd failed_run_over_existing_blob)
  /\ (exists q,
        AzureDest.sent (snd (snd (fst failed_run_over_existing_blob)))
        = q ++ [AzureDest.delete_blob_req])
  /\ (azure_answers (AzureDest.init (Some abc) []) ->
      AzureDest.blob (snd (snd (fst failed_run_over_existing_blob))) = None).
Proof.
  split; [reflexivity|].
  apply (@azure_abort_deletes_destination_blob _ S3Source.handle
           true 4 false []
           (S3Source.init abc
              [Some (ProviderError 500); Some (ProviderError 500);
               Some (ProviderError 503)])
           (fst (snd (fst failed_run_over_existing_blob)))
           (AzureDest.init (Some abc) [])
           (snd (snd (fst failed_run_over_existing_blob)))
           (ProviderError 503)
           (snd failed_run_over_existing_blob)).
  reflexivity.
Defined.

(** ** The copy under [build/lib] *)

Section BuildLibFacts.

Variable S : Type.
Variable src : Source S.
Variable dest : Dest S.
Variable max_part_size : Z.
Hypothesis max_pos : 0 < max_part_size.
Variable tqdm_installed : bool.

(** There too an empty object stops at the division, and here before the
    [try]: nothing is called on either handle. *)
Lemma BuildLib_empty_object_raises (threads : Z) (show_progress : bool)
    (choices : list nat) (s : S) :
  get_size src s = 0 ->
  BuildLib.move_file_with src dest max_part_size tqdm_installed threads
    show_progress choices s
  = (Raise ZeroDivisionError, s, [Log INFO "Transferring"]).
Proof.
  intros H. unfold BuildLib.move_file_with. rewrite H.
  unfold bind at 1. unfold emit at 1. unfold bind at 1.
  unfold lift_result, BuildLib.num_parts, BuildLib.chunk_size.
  rewrite Z.min_l by lia. reflexivity.
Qed.

(** There [abort] is not guarded: when it raises after a failed
    [complete], its exception is the one the caller gets. *)
Lemma BuildLib_abort_error_surfaces (threads : Z) (show_progress : bool)
    (choices : list nat) (s s1 s2 s3 : S) (n : Z) (e e' : exn)
    (t : list event) :
  BuildLib.num_parts max_part_size (get_size src s) = Ok n ->
  thread_pool
    (BuildLib.transfer_part src dest max_part_size tqdm_installed
       (get_size src s) show_progress)
    (Z.min threads n) n choices s = (Ok tt, s1, t) ->
  complete dest s1 = (Raise e, s2) ->
  abort dest s2 = (Raise e', s3) ->
  BuildLib.move_file_with src dest max_part_size tqdm_installed threads
    show_progress choices s
  = (Raise e', s3,
     Log INFO "Transferring"
       :: t ++ [DestComplete (Some e); Log ERROR "Transfer failed";
                DestAbort (Some e')]).
Proof.
  intros Hn Hp Hc Ha. unfold BuildLib.move_file_with.
  unfold bind at 1. unfold emit at 1. unfold bind at 1.
  unfold lift_result. rewrite Hn. cbv zeta.
  unfold try_catch. unfold bind at 1. rewrite Hp.
  unfold bind at 1. unfold call at 1. rewrite Hc.
  unfold bind, emit, call, raise. rewrite Ha. cbn [exc_of app].
  rewrite <- app_assoc. reflexivity.
Qed.

End BuildLibFacts.

(** ** [parse_cloud_url] *)

Section StrFacts.

Local Open Scope string_scope.

Lemma append_nil_r (s : string) : s ++ EmptyString = s.
Proof. induction s as [|c s IH]; [reflexivity|]. cbn. rewrite IH. reflexivity. Qed.

Lemma append_assoc (a b c : string) : (a ++ b) ++ c = a ++ (b ++ c).
Proof. induction a as [|x a IH]; [reflexivity|]. cbn. rewrite IH. reflexivity. Qed.

Lemma length_append (a b : string) :
  String.length (a ++ b) = (String.length a + String.length b)%nat.
Proof. induction a as [|x a IH]; [reflexivity|]. cbn. rewrite IH. reflexivity. Qed.

Lemma prefix_append (t r : string) : String.prefix t (t ++ r) = true.
Proof.
  induction t as [|c t IH]; [destruct r; reflexivity|].
  cbn. destruct (ascii_dec c c) as [_|N]; [exact IH | contradiction].
Qed.

Lemma prefix_inv (t s : string) :
  String.prefix t s = true -> exists r, s = t ++ r.
Proof.
  revert s. induction t as [|c t IH]; intros s H.
  - exists s. reflexivity.
  - destruct s as [|d s]; [discriminate|]. cbn in H.
    destruct (ascii_dec c d) as [<-|N]; [|discriminate].
    apply IH in H as (r & ->). exists r. reflexivity.
Qed.

Lemma substring_all (s : string) : String.substring 0 (String.length s) s = s.
Proof. induction s as [|c s IH]; [reflexivity|]. cbn. rewrite IH. reflexivity. Qed.

Lemma substring_drop (t r : string) :
  String.substring (String.length t)
    (String.length (t ++ r) - String.length t) (t ++ r) = r.
Proof.
  rewrite length_append.
  replace (String.length t + String.length r - String.length t)%nat
    with (String.length r) by lia.
  induction t as [|c t IH]; [apply substring_all|]. exact IH.
Qed.

Lemma substring_take (pre rest : string) :
  String.substring 0 (String.length pre) (pre ++ rest) = pre.
Proof.
  induction pre as [|c pre IH]; [destruct rest; reflexivity|].
  cbn. rewrite IH. reflexivity.
Qed.

Lemma taken_append (pre rest : string) : Re.taken (pre ++ rest) rest = pre.
Proof.
  unfold Re.taken. rewrite length_append.
  replace (String.length pre + String.length rest - String.length rest)%nat
    with (String.length pre) by lia.
  apply substring_take.
Qed.

Lemma all_chars_append (cls : ascii -> bool) (a b : string) :
  PyStr.all_chars cls (a ++ b)
  = PyStr.all_chars cls a && PyStr.all_chars cls b.
Proof.
  induction a as [|c a IH]; [reflexivity|].
  cbn. rewrite IH. apply andb_assoc.
Qed.

Lemma all_chars_impl (p q : ascii -> bool) (s : string) :
  (forall c, p c = true -> q c = true) ->
  PyStr.all_chars p s = true -> PyStr.all_chars q s = true.
Proof.
  intros Hpq. induction s as [|c s IH]; [reflexivity|].
  cbn. intros H. apply andb_true_iff in H as (Hc & Hs).
  rewrite (Hpq _ Hc), (IH Hs). reflexivity.
Qed.

(** The split at the first [c]. *)
Lemma split1_first (c : ascii) (x r : string) :
  PyStr.all_chars (fun a => negb (Ascii.eqb a c)) x = true ->
  PyStr.split1 c (x ++ String c r) = Some (x, r).
Proof.
  induction x as [|a x IH]; cbn.
  - rewrite Ascii.eqb_refl. reflexivity.
  - intros H. apply andb_true_iff in H as (Ha & Hx).
    apply negb_true_iff in Ha. rewrite Ha, (IH Hx). reflexivity.
Qed.

Lemma split1_inv (c : ascii) (s x r : string) :
  PyStr.split1 c s = Some (x, r) ->
  s = x ++ String c r
  /\ PyStr.all_chars (fun a => negb (Ascii.eqb a c)) x = true.
Proof.
  revert x. induction s as [|a s IH]; intros x; [discriminate|].
  cbn. destruct (Ascii.eqb a c) eqn:E.
  - intros H. injection H as <- <-. apply Ascii.eqb_eq in E as ->. auto.
  - destruct (PyStr.split1 c s) as [[b a']|]; [|discriminate].
    intros H. injection H as <- <-.
    destruct (IH b eq_refl) as (-> & Hb). cbn. rewrite E, Hb. auto.
Qed.

Lemma split1_none (c : ascii) (s : string) :
  PyStr.split1 c s = None <->
  PyStr.all_chars (fun a => negb (Ascii.eqb a c)) s = true.
Proof.
  induction s as [|a s IH]; [split; reflexivity|].
  cbn. destruct (Ascii.eqb a c); cbn; [split; discriminate|].
  destruct (PyStr.split1 c s) as [[b a']|].
  - split; [discriminate|]. intros H. apply IH in H. discriminate.
  - split; [intros _; apply IH; reflexivity | reflexivity].
Qed.

(** Two ways of cutting a string at a [c] that neither head contains are
    the same way. *)
Lemma cut_unique (c : ascii) (x y r r' : string) :
  PyStr.all_chars (fun a => negb (Ascii.eqb a c)) x = true ->
  PyStr.all_chars (fun a => negb (Ascii.eqb a c)) y = true ->
  x ++ String c r = y ++ String c r' -> x = y /\ r = r'.
Proof.
  intros Hx Hy E.
  pose proof (split1_first c x r Hx) as H1.
  rewrite E, (split1_first c y r' Hy) in H1.
  injection H1 as -> ->. auto.
Qed.

End StrFacts.

(** *** The matcher *)

Section MatcherFacts.

Local Open Scope string_scope.

Variable A : Type.
Variable cls : ascii -> bool.

(** A run of [cls] characters that cannot be made longer is what [cls*]
    takes first. *)
Lemma star_greedy (pre rest : string) (k : string -> option A) (r : A) :
  PyStr.all_chars cls pre = true ->
  Re.stops cls rest ->
  k rest = Some r ->
  Re.star cls (pre ++ rest) k = Some r.
Proof.
  intros Hpre Hstop Hk. induction pre as [|c pre IH]; cbn.
  - destruct rest as [|c rest]; [exact Hk|].
    cbn in Hstop. cbn. rewrite Hstop. exact Hk.
  - cbn in Hpre. apply andb_true_iff in Hpre as (Hc & Hpre).
    rewrite Hc, (IH Hpre). reflexivity.
Qed.

Lemma plus_greedy (pre rest : string) (k : string -> option A) (r : A) :
  pre <> EmptyString ->
  PyStr.all_chars cls pre = true ->
  Re.stops cls rest ->
  k rest = Some r ->
  Re.plus cls (pre ++ rest) k = Some r.
Proof.
  intros Hne Hpre Hstop Hk. destruct pre as [|c pre]; [contradiction|].
  cbn in *. apply andb_true_iff in Hpre as (Hc & Hpre). rewrite Hc.
  apply star_greedy; assumption.
Qed.

Lemma star_inv (s : string) (k : string -> option A) (r : A) :
  Re.star cls s k = Some r ->
  exists pre rest,
    s = pre ++ rest /\ PyStr.all_chars cls pre = true /\ k rest = Some r.
Proof.
  induction s as [|c s IH]; cbn.
  - intros H. exists EmptyString, EmptyString. auto.
  - destruct (cls c) eqn:Hc.
    + destruct (Re.star cls s k) as [r'|] eqn:E.
      * intros H. injection H as ->.
        destruct (IH eq_refl) as (pre & rest & -> & Hpre & Hk).
        exists (String c pre), rest. cbn. rewrite Hc, Hpre. auto.
      * intros H. exists EmptyString, (String c s). auto.
    + intros H. exists EmptyString, (String c s). auto.
Qed.

Lemma plus_inv (s : string) (k : string -> option A) (r : A) :
  Re.plus cls s k = Some r ->
  exists pre rest,
    s = pre ++ rest /\ pre <> EmptyString /\ PyStr.all_chars cls pre = true
    /\ k rest = Some r.
Proof.
  destruct s as [|c s]; [discriminate|]. cbn.
  destruct (cls c) eqn:Hc; [|discriminate].
  intros H. apply star_inv in H as (pre & rest & -> & Hpre & Hk).
  exists (String c pre), rest. cbn. rewrite Hc, Hpre.
  repeat split; [discriminate | exact Hk].
Qed.

End MatcherFacts.

Section PatternFacts.

Local Open Scope string_scope.

Local Abbreviation nl := (String (ascii_of_nat 10) EmptyString).

Lemma lit_run (text rest : string) m k :
  Re.run (Re.Lit text) (text ++ rest) m k = k rest m.
Proof. cbn. rewrite prefix_append, substring_drop. reflexivity. Qed.

Lemma lit_inv (text s : string) m k r :
  Re.run (Re.Lit text) s m k = Some r ->
  exists rest, s = text ++ rest /\ k rest m = Some r.
Proof.
  cbn. destruct (String.prefix text s) eqn:E; [|discriminate].
  apply prefix_inv in E as (rest & ->). rewrite substring_drop.
  intros H. exists rest. auto.
Qed.

Lemma eos_run (tail : string) m k :
  Re.at_end tail -> Re.run Re.Eos tail m k = k tail m.
Proof. intros [-> | ->]; reflexivity. Qed.

Lemma eos_inv (s : string) m k r :
  Re.run Re.Eos s m k = Some r -> Re.at_end s /\ k s m = Some r.
Proof.
  cbn [Re.run]. destruct (String.eqb s EmptyString) eqn:E1; cbn [orb].
  - apply String.eqb_eq in E1. subst s. intros H.
    split; [left; reflexivity | exact H].
  - destruct (String.eqb s nl) eqn:E2; [|discriminate].
    apply String.eqb_eq in E2. subst s. intros H.
    split; [right; reflexivity | exact H].
Qed.

Lemma group_plus_run (n : nat) (cls : ascii -> bool) (pre rest : string)
    m k r :
  Re.one_or_more cls pre ->
  Re.stops cls rest ->
  k rest ((n, pre) :: m) = Some r ->
  Re.run (Re.Group n (Re.Plus cls)) (pre ++ rest) m k = Some r.
Proof.
  intros (Hne & Hpre) Hstop Hk. cbn [Re.run].
  apply plus_greedy; [exact Hne | exact Hpre | exact Hstop|].
  rewrite taken_append. exact Hk.
Qed.

Lemma group_plus_inv (n : nat) (cls : ascii -> bool) (s : string) m k r :
  Re.run (Re.Group n (Re.Plus cls)) s m k = Some r ->
  exists pre rest,
    s = pre ++ rest /\ Re.one_or_more cls pre
    /\ k rest ((n, pre) :: m) = Some r.
Proof.
  cbn [Re.run]. intros H.
  apply plus_inv in H as (pre & rest & -> & Hne & Hpre & Hk).
  rewrite taken_append in Hk. exists pre, rest. repeat split; assumption.
Qed.

Lemma at_end_stops (tail : string) : Re.at_end tail -> Re.stops Re.dot tail.
Proof. intros [-> | ->]; [exact I | reflexivity]. Qed.

(** [/(.+)$]: a slash, then the key, then the end. *)
Lemma key_run (n : nat) (key tail : string) m k r :
  Re.one_or_more Re.dot key ->
  Re.at_end tail ->
  k tail ((n, key) :: m) = Some r ->
  Re.run (Re.Lit "/" >> Re.Group n (Re.Plus Re.dot) >> Re.Eos)
    ("/" ++ key ++ tail) m k = Some r.
Proof.
  intros Hkey Hend Hk.
  change (Re.run (?a >> ?b) ?s ?m0 ?k0)
    with (Re.run a s m0 (fun rest m' => Re.run b rest m' k0)).
  rewrite lit_run.
  change (Re.run (?a >> ?b) ?s ?m0 ?k0)
    with (Re.run a s m0 (fun rest m' => Re.run b rest m' k0)).
  apply group_plus_run; [exact Hkey | apply at_end_stops; exact Hend|].
  rewrite eos_run by exact Hend. exact Hk.
Qed.

Lemma key_inv (n : nat) (s : string) m k r :
  Re.run (Re.Lit "/" >> Re.Group n (Re.Plus Re.dot) >> Re.Eos) s m k
  = Some r ->
  exists key tail,
    s = "/" ++ key ++ tail /\ Re.one_or_more Re.dot key /\ Re.at_end tail
    /\ k tail ((n, key) :: m) = Some r.
Proof.
  change (Re.run (?a >> ?b) ?s ?m0 ?k0)
    with (Re.run a s m0 (fun rest m' => Re.run b rest m' k0)).
  intros H. apply lit_inv in H as (rest & -> & H).
  change (Re.run (?a >> ?b) ?s ?m0 ?k0)
    with (Re.run a s m0 (fun rest m' => Re.run b rest m' k0)) in H.
  apply group_plus_inv in H as (key & tail & -> & Hkey & H).
  apply eos_inv in H as (Hend & H).
  exists key, tail. repeat split; try assumption; apply Hkey.
Qed.

(** [([^/]+)/(.+)$]. *)
Lemma path_run (n : nat) (seg key tail : string) m k r :
  Re.one_or_more Re.not_slash seg ->
  Re.one_or_more Re.dot key ->
  Re.at_end tail ->
  k tail ((S n, key) :: (n, seg) :: m) = Some r ->
  Re.run (Re.Group n (Re.Plus Re.not_slash) >> Re.Lit "/"
          >> Re.Group (S n) (Re.Plus Re.dot) >> Re.Eos)
    (seg ++ "/" ++ key ++ tail) m k = Some r.
Proof.
  intros Hseg Hkey Hend Hk.
  change (Re.run (?a >> ?b) ?s ?m0 ?k0)
    with (Re.run a s m0 (fun rest m' => Re.run b rest m' k0)).
  apply group_plus_run; [exact Hseg | reflexivity|].
  apply key_run; assumption.
Qed.

Lemma path_inv (n : nat) (s : string) m k r :
  Re.run (Re.Group n (Re.Plus Re.not_slash) >> Re.Lit "/"
          >> Re.Group (S n) (Re.Plus Re.dot) >> Re.Eos) s m k = Some r ->
  exists seg key tail,
    s = seg ++ "/" ++ key ++ tail
    /\ Re.one_or_more Re.not_slash seg /\ Re.one_or_more Re.dot key
    /\ Re.at_end tail
    /\ k tail ((S n, key) :: (n, seg) :: m) = Some r.
Proof.
  change (Re.run (?a >> ?b) ?s ?m0 ?k0)
    with (Re.run a s m0 (fun rest m' => Re.run b rest m' k0)).
  intros H. apply group_plus_inv in H as (seg & rest & -> & Hseg & H).
  apply key_inv in H as (key & tail & -> & Hkey & Hend & H).
  exists seg, key, tail. repeat split; try assumption;
    try apply Hseg; apply Hkey.
Qed.

(** What [re.match] answers for the two-group patterns. *)
Lemma bucket_pattern_match (scheme url : string) (m : Re.groups) :
  Re.match_ (bucket_pattern scheme) url = Some m <->
  exists rest bucket key,
    url = scheme ++ rest /\ bucket_form rest bucket key
    /\ m = [(2%nat, key); (1%nat, bucket)].
Proof.
  unfold Re.match_, bucket_pattern, bucket_form.
  change (Re.run (?a >> ?b) ?s ?m0 ?k0)
    with (Re.run a s m0 (fun rest m' => Re.run b rest m' k0)).
  split.
  - intros H. apply lit_inv in H as (rest & -> & H).
    apply path_inv in H as (seg & key & tail & -> & Hs & Hk & He & H).
    injection H as <-. exists (seg ++ "/" ++ key ++ tail), seg, key.
    repeat split; try reflexivity. exists tail. auto.
  - intros (rest & bucket & key & -> & (tail & -> & Hs & Hk & He) & ->).
    rewrite lit_run. apply path_run; auto.
Qed.

Lemma word_not_slash (c : ascii) : Re.word c = true -> Re.not_slash c = true.
Proof.
  unfold Re.not_slash. destruct (Ascii.eqb c "/") eqn:E; [|reflexivity].
  apply Ascii.eqb_eq in E as ->. intros H. vm_compute in H. discriminate.
Qed.

(** The account branch [(\w+)@] followed by the rest of the pattern. *)
Lemma account_run (rest account container blob : string) m k r :
  account_form rest account container blob ->
  (forall tail,
      Re.at_end tail ->
      k tail ((3%nat, blob) :: (2%nat, container) :: (1%nat, account) :: m)
      = Some r) ->
  Re.run ((Re.Group 1 (Re.Plus Re.word) >> Re.Lit "@")
          >> Re.Group 2 (Re.Plus Re.not_slash) >> Re.Lit "/"
          >> Re.Group 3 (Re.Plus Re.dot) >> Re.Eos) rest m k = Some r.
Proof.
  intros (tail & -> & Ha & Hc & Hb & He) Hk.
  change (Re.run (?a >> ?b) ?s ?m0 ?k0)
    with (Re.run a s m0 (fun rest m' => Re.run b rest m' k0)).
  change (Re.run (?a >> ?b) ?s ?m0 ?k0)
    with (Re.run a s m0 (fun rest m' => Re.run b rest m' k0)).
  apply group_plus_run; [exact Ha | reflexivity|].
  rewrite lit_run. apply path_run; auto.
Qed.

Lemma account_inv (rest : string) m k r :
  Re.run ((Re.Group 1 (Re.Plus Re.word) >> Re.Lit "@")
          >> Re.Group 2 (Re.Plus Re.not_slash) >> Re.Lit "/"
          >> Re.Group 3 (Re.Plus Re.dot) >> Re.Eos) rest m k = Some r ->
  exists account container blob tail,
    account_form rest account container blob
    /\ k tail ((3%nat, blob) :: (2%nat, container) :: (1%nat, account) :: m)
       = Some r.
Proof.
  change (Re.run (?a >> ?b) ?s ?m0 ?k0)
    with (Re.run a s m0 (fun rest m' => Re.run b rest m' k0)).
  change (Re.run (?a >> ?b) ?s ?m0 ?k0)
    with (Re.run a s m0 (fun rest m' => Re.run b rest m' k0)).
  intros H. apply group_plus_inv in H as (a & rest1 & -> & Ha & H).
  apply lit_inv in H as (rest2 & -> & H).
  apply path_inv in H as (c & b & tail & -> & Hc & Hb & He & H).
  exists a, c, b, tail. split; [|exact H]. exists tail. auto.
Qed.

(** What [re.match] answers for the Azure pattern: the account branch when
    it matches, the plain container otherwise. *)
Lemma azure_pattern_match (url : string) (m : Re.groups) :
  Re.match_ azure_pattern url = Some m <->
  exists rest,
    url = "azure://" ++ rest
    /\ ((exists account container blob,
            account_form rest account container blob
            /\ m = [(3%nat, blob); (2%nat, container); (1%nat, account)])
        \/ ((forall account container blob,
                ~ account_form rest account container blob)
            /\ exists container blob,
                 bucket_form rest container blob
                 /\ m = [(3%nat, blob); (2%nat, container)])).
Proof.
  unfold Re.match_, azure_pattern.
  change (Re.run (Re.Lit ?t >> ?b) ?s ?m0 ?k0)
    with (Re.run (Re.Lit t) s m0 (fun rest m' => Re.run b rest m' k0)).
  split.
  - intros H. apply lit_inv in H as (rest & -> & H). exists rest.
    split; [reflexivity|].
    change (Re.run (Re.Opt ?a >> ?b) ?s ?m0 ?k0)
      with (match Re.run (a >> b) s m0 k0 with
            | Some m' => Some m'
            | None => Re.run b s m0 k0
            end) in H.
    destruct (Re.run _ rest [] _) as [m'|] eqn:E in H.
    + injection H as ->.
      apply account_inv in E as (a & c & b & tail & Hw & E).
      injection E as <-. left. exists a, c, b. auto.
    + right. split.
      * intros a c b Hw.
        rewrite (@account_run rest a c b [] _
                   [(3%nat, b); (2%nat, c); (1%nat, a)] Hw) in E;
          [discriminate | reflexivity].
      * apply path_inv in H as (c & b & tail & -> & Hc & Hb & He & H).
        injection H as <-. exists c, b. split; [|reflexivity].
        exists tail. auto.
  - intros (rest & -> & [(a & c & b & Hw & ->) | (Hno & c & b & Hb & ->)]).
    + rewrite lit_run.
      change (Re.run (Re.Opt ?a >> ?b) ?s ?m0 ?k0)
        with (match Re.run (a >> b) s m0 k0 with
              | Some m' => Some m'
              | None => Re.run b s m0 k0
              end).
      rewrite (@account_run rest a c b [] _
                 [(3%nat, b); (2%nat, c); (1%nat, a)] Hw); reflexivity.
    + rewrite lit_run.
      change (Re.run (Re.Opt ?a >> ?b) ?s ?m0 ?k0)
        with (match Re.run (a >> b) s m0 k0 with
              | Some m' => Some m'
              | None => Re.run b s m0 k0
              end).
      destruct (Re.run _ rest [] _) as [m'|] eqn:E.
      * apply account_inv in E as (a & c' & b' & tail & Hw & _).
        destruct (Hno _ _ _ Hw).
      * destruct Hb as (tail & -> & Hc & Hb & He). apply path_run; auto.
Qed.

End PatternFacts.

Section ParseFacts.

Local Open Scope string_scope.

Variable urlparse : string -> result (string * string).

Lemma parse_bucket_url_spec (scheme provider url : string) r :
  parse_bucket_url scheme provider url = Some r <->
  exists rest bucket key,
    url = scheme ++ rest /\ bucket_form rest bucket key
    /\ r = (provider, Bucket bucket, key).
Proof.
  unfold parse_bucket_url, PyStr.startswith. split.
  - destruct (String.prefix scheme url); [|discriminate].
    destruct (Re.match_ (bucket_pattern scheme) url) as [m|] eqn:E;
      [|discriminate].
    apply bucket_pattern_match in E as (rest & bucket & key & -> & Hb & ->).
    cbn. intros H. injection H as <-. exists rest, bucket, key. auto.
  - intros (rest & bucket & key & -> & Hb & ->).
    rewrite prefix_append.
    destruct (Re.match_ (bucket_pattern scheme) (scheme ++ rest)) as [m|] eqn:E.
    + apply bucket_pattern_match in E as (rest' & b' & k' & E & Hb' & ->).
      assert (E' : Re.match_ (bucket_pattern scheme) (scheme ++ rest)
                   = Some [(2%nat, key); (1%nat, bucket)]).
      { apply bucket_pattern_match. exists rest, bucket, key. auto. }
      assert (Em : Re.match_ (bucket_pattern scheme) (scheme ++ rest)
                   = Some [(2%nat, k'); (1%nat, b')]).
      { apply bucket_pattern_match. exists rest', b', k'. auto. }
      rewrite E' in Em. injection Em as <- <-. reflexivity.
    + assert (E' : Re.match_ (bucket_pattern scheme) (scheme ++ rest)
                   = Some [(2%nat, key); (1%nat, bucket)]).
      { apply bucket_pattern_match. exists rest, bucket, key. auto. }
      rewrite E' in E. discriminate.
Qed.

Lemma or_None_account (account : string) :
  account <> EmptyString -> or_None (Some account) = Some account.
Proof. destruct account; [contradiction | reflexivity]. Qed.

Lemma parse_azure_url_spec (url : string) r :
  parse_azure_url url = Some r <->
  exists rest,
    url = "azure://" ++ rest
    /\ ((exists account container blob,
            account_form rest account container blob
            /\ r = ("azure", AccountContainer (Some account) container, blob))
        \/ ((forall account container blob,
                ~ account_form rest account container blob)
            /\ exists container blob,
                 bucket_form rest container blob
                 /\ r = ("azure", AccountContainer None container, blob))).
Proof.
  unfold parse_azure_url, PyStr.startswith. split.
  - destruct (String.prefix "azure://" url); [|discriminate].
    destruct (Re.match_ azure_pattern url) as [m|] eqn:E; [|discriminate].
    apply azure_pattern_match in E
      as (rest & -> & [(a & c & b & Hw & ->) | (Hno & c & b & Hb & ->)]).
    + cbn [Re.group Nat.eqb]. intros H. injection H as <-.
      exists rest. split; [reflexivity|]. left. exists a, c, b.
      split; [exact Hw|].
      destruct Hw as (tail & _ & (Hne & _) & _).
      destruct a; [contradiction | reflexivity].
    + cbn [Re.group Nat.eqb or_None]. intros H. injection H as <-.
      exists rest. split; [reflexivity|]. right. split; [exact Hno|].
      exists c, b. auto.
  - intros (rest & -> & Hcases).
    change (String.prefix "azure://" ("azure://" ++ rest)) with (String.prefix EmptyString rest).
    assert (Hp : String.prefix EmptyString rest = true) by (destruct rest; reflexivity).
    rewrite Hp.
    destruct Hcases as [(a & c & b & Hw & ->) | (Hno & c & b & Hb & ->)].
    + rewrite (proj2 (azure_pattern_match ("azure://" ++ rest)
                        [(3%nat, b); (2%nat, c); (1%nat, a)])).
      * cbn [Re.group Nat.eqb]. rewrite or_None_account; [reflexivity|].
        destruct Hw as (tail & _ & (Hne & _) & _). exact Hne.
      * exists rest. split; [reflexivity|]. left. exists a, c, b. auto.
    + rewrite (proj2 (azure_pattern_match ("azure://" ++ rest)
                        [(3%nat, b); (2%nat, c)])).
      * reflexivity.
      * exists rest. split; [reflexivity|]. right. split; [exact Hno|].
        exists c, b. auto.
Qed.

(** [has_account] decides whether the account branch matches. *)
Lemma account_form_has_account (container blob tail account c' b' : string) :
  PyStr.all_chars Re.not_slash container = true ->
  account_form (container ++ "/" ++ blob ++ tail) account c' b' ->
  has_account container = true.
Proof.
  intros Hc (tail' & E & (Hane & Ha) & (Hcne & Hc') & _).
  assert (Hs : PyStr.all_chars Re.not_slash (account ++ "@" ++ c') = true).
  { rewrite all_chars_append. cbn [append PyStr.all_chars].
    rewrite (@all_chars_impl Re.word Re.not_slash account word_not_slash Ha), Hc'.
    reflexivity. }
  replace (account ++ "@" ++ c' ++ "/" ++ b' ++ tail')
    with ((account ++ "@" ++ c') ++ String "/" (b' ++ tail')) in E
    by (rewrite !append_assoc; reflexivity).
  apply cut_unique in E as (-> & _); [|exact Hc | exact Hs].
  unfold has_account.
  change (account ++ "@" ++ c') with (account ++ String "@" c').
  rewrite split1_first.
  - rewrite Ha. destruct account; [contradiction|].
    destruct c'; [contradiction | reflexivity].
  - apply (@all_chars_impl Re.word (fun a => negb (Ascii.eqb a "@")) account);
      [|exact Ha].
    intros c Hw. destruct (Ascii.eqb c "@") eqn:E; [|reflexivity].
    apply Ascii.eqb_eq in E as ->. vm_compute in Hw. discriminate.
Qed.

Lemma bucket_form_split (rest bucket key : string) :
  bucket_form rest bucket key ->
  exists tail,
    PyStr.split1 "/" rest = Some (bucket, key ++ tail)
    /\ bucket <> EmptyString /\ key <> EmptyString.
Proof.
  intros (tail & -> & (Hbne & Hb) & (Hkne & _) & _). exists tail.
  split; [|auto]. apply (split1_first "/" bucket (key ++ tail)). exact Hb.
Qed.

Lemma account_form_bucket_form (rest account container blob : string) :
  account_form rest account container blob ->
  bucket_form rest (account ++ "@" ++ container) blob.
Proof.
  intros (tail & -> & (Hane & Ha) & (Hcne & Hc) & Hb & He). exists tail.
  split; [rewrite !append_assoc; reflexivity|].
  split; [|auto]. split.
  - destruct account; [contradiction | discriminate].
  - rewrite all_chars_append. cbn [append PyStr.all_chars].
    rewrite (@all_chars_impl Re.word Re.not_slash account word_not_slash Ha), Hc.
    reflexivity.
Qed.

Lemma bucket_form_bucket_and_key (rest bucket key : string) :
  bucket_form rest bucket key -> bucket_and_key rest = true.
Proof.
  intros H. apply bucket_form_split in H as (tail & E & Hb & Hk).
  unfold bucket_and_key. rewrite E.
  destruct bucket; [contradiction|]. destruct key; [contradiction|].
  reflexivity.
Qed.

Lemma append_inj_l (a b c : string) : a ++ b = a ++ c -> b = c.
Proof.
  induction a as [|x a IH]; [auto|]. cbn. intros H. injection H as H. auto.
Qed.

Lemma parse_bucket_url_none (scheme provider rest : string) :
  bucket_and_key rest = false ->
  parse_bucket_url scheme provider (scheme ++ rest) = None.
Proof.
  intros Hno.
  destruct (parse_bucket_url scheme provider (scheme ++ rest)) as [r|] eqn:E;
    [|reflexivity].
  apply parse_bucket_url_spec in E as (rest' & b & k & E & Hb & _).
  apply append_inj_l in E as <-.
  apply bucket_form_bucket_and_key in Hb. congruence.
Qed.

Lemma parse_azure_url_none (rest : string) :
  bucket_and_key rest = false ->
  parse_azure_url ("azure://" ++ rest) = None.
Proof.
  intros Hno.
  destruct (parse_azure_url ("azure://" ++ rest)) as [r|] eqn:E;
    [|reflexivity].
  apply parse_azure_url_spec in E
    as (rest' & E & [(a & c & b & Hw & _) | (_ & c & b & Hb & _)]);
    apply append_inj_l in E as <-.
  - apply account_form_bucket_form, bucket_form_bucket_and_key in Hw.
    congruence.
  - apply bucket_form_bucket_and_key in Hb. congruence.
Qed.

Lemma parse_bucket_url_other (scheme provider url : string) :
  PyStr.startswith url scheme = false ->
  parse_bucket_url scheme provider url = None.
Proof. unfold parse_bucket_url. intros ->. reflexivity. Qed.

Lemma parse_azure_url_other (url : string) :
  PyStr.startswith url "azure://" = false -> parse_azure_url url = None.
Proof. unfold parse_azure_url. intros ->. reflexivity. Qed.

Lemma lstrip_slashes (slashes s : string) :
  PyStr.all_chars (fun c => Ascii.eqb c "/") slashes = true ->
  Re.stops (fun c => Ascii.eqb c "/") s ->
  PyStr.lstrip "/" (slashes ++ s) = s.
Proof.
  intros Hs Hstop. induction slashes as [|c l IH]; cbn.
  - destruct s as [|c s]; [reflexivity|]. cbn in Hstop. cbn.
    rewrite Hstop. reflexivity.
  - cbn in Hs. apply andb_true_iff in Hs as (Hc & Hl). rewrite Hc. auto.
Qed.

End ParseFacts.

(** X1.  [s3://<bucket>/<key>] and [gs://<bucket>/<blob>]: a bucket without
    a slash, then any key that holds no newline, give the provider, the
    bucket and the key; a newline that ends the URL is dropped. *)
Theorem parse_cloud_url_bucket_key
    (urlparse : string -> result (string * string))
    (bucket key tail : string) :
  Re.one_or_more Re.not_slash bucket ->
  Re.one_or_more Re.dot key ->
  Re.at_end tail ->
  parse_cloud_url urlparse ("s3://" ++ bucket ++ "/" ++ key ++ tail)%string
  = Ok ("s3"%string, Bucket bucket, key)
  /\ parse_cloud_url urlparse ("gs://" ++ bucket ++ "/" ++ key ++ tail)%string
     = Ok ("gcs"%string, Bucket bucket, key).
Proof.
  intros Hb Hk He. unfold parse_cloud_url. split.
  - rewrite (proj2 (parse_bucket_url_spec "s3://" "s3"
                      ("s3://" ++ bucket ++ "/" ++ key ++ tail)
                      ("s3"%string, Bucket bucket, key))); [reflexivity|].
    exists (bucket ++ "/" ++ key ++ tail)%string, bucket, key.
    repeat split; try apply Hb; try apply Hk. exists tail.
    repeat split; try apply Hb; try apply Hk; exact He.
  - rewrite parse_bucket_url_other by reflexivity.
    rewrite (proj2 (parse_bucket_url_spec "gs://" "gcs"
                      ("gs://" ++ bucket ++ "/" ++ key ++ tail)
                      ("gcs"%string, Bucket bucket, key))); [reflexivity|].
    exists (bucket ++ "/" ++ key ++ tail)%string, bucket, key.
    repeat split; try apply Hb; try apply Hk. exists tail.
    repeat split; try apply Hb; try apply Hk; exact He.
Qed.

Lemma parse_cloud_url_bucket_key_witness :
  parse_cloud_url (urlparse_const EmptyString EmptyString)
    "s3://my-bucket/path/to/object.txt"
  = Ok ("s3"%string, Bucket "my-bucket", "path/to/object.txt"%string)
  /\ parse_cloud_url (urlparse_const EmptyString EmptyString)
       "gs://my-bucket/path/to/object.txt"
     = Ok ("gcs"%string, Bucket "my-bucket", "path/to/object.txt"%string).
Proof.
  apply (@parse_cloud_url_bucket_key (urlparse_const EmptyString EmptyString)
           "my-bucket" "path/to/object.txt" EmptyString).
  - split; [discriminate | reflexivity].
  - split; [discriminate | reflexivity].
  - left. reflexivity.
Defined.

(** X2.  [azure://<account>@<container>/<blob>]: an account of word
    characters is returned with the container. *)
Theorem parse_cloud_url_azure_account
    (urlparse : string -> result (string * string))
    (account container blob tail : string) :
  Re.one_or_more Re.word account ->
  Re.one_or_more Re.not_slash container ->
  Re.one_or_more Re.dot blob ->
  Re.at_end tail ->
  parse_cloud_url urlparse
    ("azure://" ++ account ++ "@" ++ container ++ "/" ++ blob ++ tail)%string
  = Ok ("azure"%string, AccountContainer (Some account) container, blob).
Proof.
  intros Ha Hc Hb He. unfold parse_cloud_url.
  rewrite !parse_bucket_url_other by reflexivity.
  rewrite (proj2 (parse_azure_url_spec
                    ("azure://" ++ account ++ "@" ++ container ++ "/"
                     ++ blob ++ tail)
                    ("azure"%string, AccountContainer (Some account) container,
                     blob))); [reflexivity|].
  exists (account ++ "@" ++ container ++ "/" ++ blob ++ tail)%string.
  split; [reflexivity|]. left. exists account, container, blob.
  split; [|reflexivity]. exists tail. auto.
Qed.

Lemma parse_cloud_url_azure_account_witness :
  parse_cloud_url (urlparse_const EmptyString EmptyString)
    "azure://myaccount@mycontainer/dir/file.bin"
  = Ok ("azure"%string, AccountContainer (Some "myaccount"%string)
                          "mycontainer", "dir/file.bin"%string).
Proof.
  apply (@parse_cloud_url_azure_account (urlparse_const EmptyString EmptyString)
           "myaccount" "mycontainer" "dir/file.bin" EmptyString).
  - split; [discriminate | reflexivity].
  - split; [discriminate | reflexivity].
  - split; [discriminate | reflexivity].
  - left. reflexivity.
Defined.

(** X3.  [azure://<container>/<blob>]: when the text before the first slash
    does not start with an account (word characters, [@], something more),
    all of it is the container and the account is [None]; so it is for an
    account that holds a hyphen or a dot. *)
Theorem parse_cloud_url_azure_container
    (urlparse : string -> result (string * string))
    (container blob tail : string) :
  Re.one_or_more Re.not_slash container ->
  has_account container = false ->
  Re.one_or_more Re.dot blob ->
  Re.at_end tail ->
  parse_cloud_url urlparse
    ("azure://" ++ container ++ "/" ++ blob ++ tail)%string
  = Ok ("azure"%string, AccountContainer None container, blob).
Proof.
  intros Hc Hno Hb He. unfold parse_cloud_url.
  rewrite !parse_bucket_url_other by reflexivity.
  rewrite (proj2 (parse_azure_url_spec
                    ("azure://" ++ container ++ "/" ++ blob ++ tail)
                    ("azure"%string, AccountContainer None container, blob)));
    [reflexivity|].
  exists (container ++ "/" ++ blob ++ tail)%string.
  split; [reflexivity|]. right. split.
  - intros a c' b' Hw.
    apply account_form_has_account in Hw; [congruence | apply Hc].
  - exists container, blob. split; [|reflexivity]. exists tail. auto.
Qed.

Lemma parse_cloud_url_azure_container_witness :
  parse_cloud_url (urlparse_const EmptyString EmptyString) "azure://my-account@data/dir/file.bin"
  = Ok ("azure"%string, AccountContainer None "my-account@data",
        "dir/file.bin"%string).
Proof.
  apply (@parse_cloud_url_azure_container (urlparse_const EmptyString EmptyString)
           "my-account@data" "dir/file.bin" EmptyString).
  - split; [discriminate | reflexivity].
  - reflexivity.
  - split; [discriminate | reflexivity].
  - left. reflexivity.
Defined.

(** X4.  Whatever [parse_cloud_url] returns, the provider is [s3], [gcs] or
    [azure]; the second component is a pair exactly for [azure]; and for
    [s3] and [gcs] the URL is the scheme, a non-empty bucket without a
    slash, a slash and a non-empty key without a newline. *)
Theorem parse_cloud_url_providers
    (urlparse : string -> result (string * string))
    (url provider : string) (bucket : bucket_id) (key : string) :
  parse_cloud_url urlparse url = Ok (provider, bucket, key) ->
  (provider = "s3"%string
   /\ exists name rest,
        bucket = Bucket name /\ url = ("s3://" ++ rest)%string
        /\ bucket_form rest name key)
  \/ (provider = "gcs"%string
      /\ exists name rest,
           bucket = Bucket name /\ url = ("gs://" ++ rest)%string
           /\ bucket_form rest name key)
  \/ (provider = "azure"%string
      /\ exists account container,
           bucket = AccountContainer account container).
Proof.
  unfold parse_cloud_url.
  destruct (parse_bucket_url "s3://" "s3" url) as [r|] eqn:E1.
  { apply parse_bucket_url_spec in E1 as (rest & b & k & -> & Hb & ->).
    intros H. injection H as <- <- <-. left. split; [reflexivity|].
    exists b, rest. auto. }
  destruct (parse_bucket_url "gs://" "gcs" url) as [r|] eqn:E2.
  { apply parse_bucket_url_spec in E2 as (rest & b & k & -> & Hb & ->).
    intros H. injection H as <- <- <-. right. left. split; [reflexivity|].
    exists b, rest. auto. }
  destruct (parse_azure_url url) as [r|] eqn:E3.
  { apply parse_azure_url_spec in E3
      as (rest & -> & [(a & c & b & _ & ->) | (_ & c & b & _ & ->)]);
      intros H; injection H as <- <- <-; right; right;
      (split; [reflexivity|]); eexists; eexists; reflexivity. }
  destruct (PyStr.startswith url "https://"
            && PyStr.contains ".blob.core.windows.net" url); [|discriminate].
  unfold parse_https_url.
  destruct (urlparse url) as [[netloc path]|e]; [|discriminate].
  destruct (PyStr.split1 "/" (PyStr.lstrip "/" path)) as [[c b]|];
    [|discriminate].
  intros H. injection H as <- <- <-. right. right.
  split; [reflexivity|]. eexists; eexists; reflexivity.
Qed.

Lemma parse_cloud_url_providers_witness :
  ("gcs"%string = "s3"%string
   /\ exists name rest,
        Bucket "mybucket" = Bucket name
        /\ "gs://mybucket/folder/data.csv"%string = ("s3://" ++ rest)%string
        /\ bucket_form rest name "folder/data.csv")
  \/ ("gcs"%string = "gcs"%string
      /\ exists name rest,
           Bucket "mybucket" = Bucket name
           /\ "gs://mybucket/folder/data.csv"%string = ("gs://" ++ rest)%string
           /\ bucket_form rest name "folder/data.csv")
  \/ ("gcs"%string = "azure"%string
      /\ exists account container,
           Bucket "mybucket" = AccountContainer account container).
Proof.
  apply (@parse_cloud_url_providers (urlparse_const EmptyString EmptyString)
           "gs://mybucket/folder/data.csv" "gcs" (Bucket "mybucket")
           "folder/data.csv").
  reflexivity.
Defined.

(** X5.  A URL [s3://], [gs://] or [azure://] whose remainder has no slash,
    or nothing before its first slash, or nothing after it, raises
    [ValueError] (no bucket or no key); so does a URL with none of the four
    supported prefixes. *)
Theorem parse_cloud_url_rejects
    (urlparse : string -> result (string * string)) :
  (forall rest,
      bucket_and_key rest = false ->
      parse_cloud_url urlparse ("s3://" ++ rest)%string = Raise ValueError
      /\ parse_cloud_url urlparse ("gs://" ++ rest)%string = Raise ValueError
      /\ parse_cloud_url urlparse ("azure://" ++ rest)%string
         = Raise ValueError)
  /\ (forall url,
         PyStr.startswith url "s3://" = false ->
         PyStr.startswith url "gs://" = false ->
         PyStr.startswith url "azure://" = false ->
         PyStr.startswith url "https://" = false ->
         parse_cloud_url urlparse url = Raise ValueError).
Proof.
  split.
  - intros rest Hno. unfold parse_cloud_url. repeat split.
    + rewrite parse_bucket_url_none by exact Hno.
      rewrite parse_bucket_url_other by reflexivity.
      rewrite parse_azure_url_other by reflexivity. reflexivity.
    + rewrite parse_bucket_url_other by reflexivity.
      rewrite parse_bucket_url_none by exact Hno.
      rewrite parse_azure_url_other by reflexivity. reflexivity.
    + rewrite !parse_bucket_url_other by reflexivity.
      rewrite parse_azure_url_none by exact Hno. reflexivity.
  - intros url H1 H2 H3 H4. unfold parse_cloud_url.
    rewrite !parse_bucket_url_other by assumption.
    rewrite parse_azure_url_other by assumption.
    rewrite H4. reflexivity.
Qed.

Lemma parse_cloud_url_rejects_witness :
  parse_cloud_url (urlparse_const EmptyString EmptyString) "s3://my-bucket" = Raise ValueError
  /\ parse_cloud_url (urlparse_const EmptyString EmptyString) "gs://my-bucket/"
     = Raise ValueError
  /\ parse_cloud_url (urlparse_const EmptyString EmptyString) "azure:///dir/file.bin"
     = Raise ValueError
  /\ parse_cloud_url (urlparse_const EmptyString EmptyString) "ftp://server/path"
     = Raise ValueError.
Proof.
  split; [|split; [|split]].
  - apply (proj1 (parse_cloud_url_rejects (urlparse_const EmptyString EmptyString))
             "my-bucket"%string). reflexivity.
  - apply (proj1 (parse_cloud_url_rejects (urlparse_const EmptyString EmptyString))
             "my-bucket/"%string). reflexivity.
  - apply (proj1 (parse_cloud_url_rejects (urlparse_const EmptyString EmptyString))
             "/dir/file.bin"%string). reflexivity.
  - apply (proj2 (parse_cloud_url_rejects (urlparse_const EmptyString EmptyString))
             "ftp://server/path"%string); reflexivity.
Defined.

(** X6.  [https://<account>.blob.core.windows.net/<container>/<blob>]: with
    the netloc and the path [urlparse] finds, the account is the netloc up
    to its first dot, the container is the path, leading slashes dropped, up
    to its first slash, and the blob is all that follows, empty or not. *)
Theorem parse_cloud_url_https
    (urlparse : string -> result (string * string))
    (url account domain slashes container blob : string) :
  PyStr.startswith url "https://" = true ->
  PyStr.contains ".blob.core.windows.net" url = true ->
  urlparse url
  = Ok ((account ++ "." ++ domain)%string,
        (slashes ++ container ++ "/" ++ blob)%string) ->
  PyStr.all_chars (fun c => negb (Ascii.eqb c "."%char)) account = true ->
  PyStr.all_chars (fun c => Ascii.eqb c "/"%char) slashes = true ->
  Re.one_or_more Re.not_slash container ->
  parse_cloud_url urlparse url
  = Ok ("azure"%string, AccountContainer (Some account) container, blob).
Proof.
  intros H1 H2 Hu Ha Hs (Hcne & Hc). unfold parse_cloud_url.
  assert (N1 : PyStr.startswith url "s3://" = false).
  { unfold PyStr.startswith in *. apply prefix_inv in H1 as (r & ->).
    reflexivity. }
  assert (N2 : PyStr.startswith url "gs://" = false).
  { unfold PyStr.startswith in *. apply prefix_inv in H1 as (r & ->).
    reflexivity. }
  assert (N3 : PyStr.startswith url "azure://" = false).
  { unfold PyStr.startswith in *. apply prefix_inv in H1 as (r & ->).
    reflexivity. }
  rewrite !parse_bucket_url_other by assumption.
  rewrite parse_azure_url_other by assumption.
  rewrite H1, H2. cbn [andb]. unfold parse_https_url. rewrite Hu.
  rewrite lstrip_slashes.
  - change (container ++ "/" ++ blob)%string
      with (container ++ String "/" blob)%string.
    rewrite (split1_first "/" container blob Hc).
    unfold PyStr.split_first.
    change (account ++ "." ++ domain)%string
      with (account ++ String "." domain)%string.
    rewrite (split1_first "." account domain Ha). reflexivity.
  - exact Hs.
  - destruct container as [|c l]; [contradiction|].
    cbn in Hc |- *. apply andb_true_iff in Hc as (Hc & _).
    unfold Re.not_slash in Hc. apply negb_true_iff in Hc. exact Hc.
Qed.

Lemma parse_cloud_url_https_witness :
  parse_cloud_url
    (urlparse_const "accountname.blob.core.windows.net"
       "/container123/path/data.bin")
    "https://accountname.blob.core.windows.net/container123/path/data.bin"
  = Ok ("azure"%string, AccountContainer (Some "accountname"%string)
                          "container123", "path/data.bin"%string).
Proof.
  apply (@parse_cloud_url_https
           (urlparse_const "accountname.blob.core.windows.net"
              "/container123/path/data.bin")
           "https://accountname.blob.core.windows.net/container123/path/data.bin"
           "accountname" "blob.core.windows.net" "/" "container123"
           "path/data.bin").
  - reflexivity.
  - reflexivity.
  - reflexivity.
  - reflexivity.
  - reflexivity.
  - split; [discriminate | reflexivity].
Defined.

(** ** The plan, for every object the planner accepts *)

(** X7.  For an object of [0 < size < 2^53] bytes the planner returns
    [ceil(size / chunk_size)] parts, at least one, and the parts are laid
    end to end from 0 to [size]: each of 1 to [max_part_size] bytes, each
    starting where the one before ends, the last ending at [size]. *)
Theorem planned_parts_partition (max_part_size size : Z) :
  0 < max_part_size ->
  0 < size < 2 ^ 53 ->
  exists n,
    num_parts max_part_size size = Ok n
    /\ 1 <= n
    /\ (n - 1) * chunk_size max_part_size size < size
       <= n * chunk_size max_part_size size
    /\ part_offset max_part_size size 0 = 0
    /\ (forall i, 0 <= i < n ->
          0 < bytes_to_read max_part_size size i <= max_part_size)
    /\ (forall i, 0 <= i < n - 1 ->
          part_offset max_part_size size (i + 1)
          = part_offset max_part_size size i
            + bytes_to_read max_part_size size i)
    /\ part_offset max_part_size size (n - 1)
       + bytes_to_read max_part_size size (n - 1) = size.
Proof.
  intros Hmax [Hpos Hlt].
  exists (ceil_div size (Z.min size max_part_size)).
  split; [apply num_parts_exact; assumption|].
  destruct (planned_count_bounds Hmax Hpos) as [Hb Hn].
  destruct (planned_parts_tile Hmax Hpos) as (H0 & H1 & H2 & H3).
  repeat split; try assumption; try apply Hb; try apply H1; assumption.
Qed.

Lemma planned_parts_partition_witness :
  exists n,
    num_parts 4 10 = Ok n
    /\ 1 <= n
    /\ (n - 1) * chunk_size 4 10 < 10 <= n * chunk_size 4 10
    /\ part_offset 4 10 0 = 0
    /\ (forall i, 0 <= i < n -> 0 < bytes_to_read 4 10 i <= 4)
    /\ (forall i, 0 <= i < n - 1 ->
          part_offset 4 10 (i + 1)
          = part_offset 4 10 i + bytes_to_read 4 10 i)
    /\ part_offset 4 10 (n - 1) + bytes_to_read 4 10 (n - 1) = 10.
Proof.
  apply (@planned_parts_partition 4 10); [lia | split; [lia | reflexivity]].
Defined.

(** X8.  An object of at most 64 MiB is one part: one range, the whole
    object, read by one worker whatever [threads] asks for. *)
Theorem small_object_is_one_part (size threads : Z) :
  0 < size <= default_chunk ->
  1 <= threads ->
  num_parts default_chunk size = Ok 1
  /\ part_offset default_chunk size 0 = 0
  /\ bytes_to_read default_chunk size 0 = size
  /\ clamp_threads threads 1 = 1.
Proof.
  intros [Hpos Hle] Hth.
  assert (Hmax : 0 < default_chunk) by reflexivity.
  assert (Hlt : size < 2 ^ 53).
  { apply Z.le_lt_trans with (m := default_chunk); [exact Hle | reflexivity]. }
  rewrite (num_parts_exact Hmax Hpos Hlt).
  assert (Hn : ceil_div size (Z.min size default_chunk) = 1).
  { rewrite Z.min_l by exact Hle. unfold ceil_div.
    replace (size + size - 1) with (1 * size + (size - 1)) by lia.
    rewrite Z.div_add_l by lia. rewrite Z.div_small by lia. lia. }
  rewrite Hn. split; [reflexivity|]. split; [unfold part_offset; lia|].
  split.
  - unfold bytes_to_read, part_offset, chunk_size.
    destruct (Z.ltb_spec size default_chunk);
      destruct (Z.leb_spec (0 * size + size) size);
      destruct (Z.leb_spec (0 * default_chunk + default_chunk) size); lia.
  - unfold clamp_threads. destruct (Z.ltb_spec 1 threads); lia.
Qed.

Lemma small_object_is_one_part_witness :
  num_parts default_chunk 26000 = Ok 1
  /\ part_offset default_chunk 26000 0 = 0
  /\ bytes_to_read default_chunk 26000 0 = 26000
  /\ clamp_threads 4 1 = 1.
Proof.
  apply (@small_object_is_one_part 26000 4);
    [split; [lia | discriminate] | lia].
Defined.

(** ** Every part runs *)

Lemma futures_app (t1 t2 : list event) :
  futures (t1 ++ t2) = futures t1 ++ futures t2.
Proof. unfold futures. apply flat_map_app. Qed.

Lemma futures_worker (t : list event) : all is_worker t -> futures t = [].
Proof.
  induction 1 as [|ev t Hev _ IH]; [reflexivity|].
  cbn [futures flat_map]. fold (futures t). rewrite IH.
  destruct ev; try reflexivity. discriminate.
Qed.

Section PoolTrace.

Variable S : Type.
Variable task : Z -> M S unit.

Hypothesis task_worker :
  forall i s r s' t, task i s = (r, s', t) -> all is_worker t.

Hypothesis task_reads :
  forall i s r s' t,
    task i s = (r, s', t) -> (1 <= count is_read t <= 3)%nat.

(** The futures end in the order given, each after one to three reads. *)
Lemma run_futures_parts (order : list Z) :
  forall s r s' t,
    run_futures task order s = (r, s', t) ->
    futures t = order
    /\ (List.length order <= count is_read t <= 3 * List.length order)%nat.
Proof.
  induction order as [|i rest IH]; intros s r s' t H.
  - apply ret_inv in H as (_ & _ & ->). cbn. split; [reflexivity | lia].
  - cbn [run_futures] in H.
    apply bind_inv in H
      as [(r1 & s1 & t1 & t2 & H1 & H2 & ->) | (e & H1 & _)].
    2: { unfold capture in H1. destruct (task i s) as [[? ?] ?].
         discriminate. }
    unfold capture in H1. destruct (task i s) as [[r0 s0] t0] eqn:Et.
    injection H1 as <- <- <-.
    pose proof (@task_worker i s r0 s0 t0 Et) as W.
    pose proof (@task_reads i s r0 s0 t0 Et) as R.
    apply bind_emit_inv in H2 as (t3 & H2 & ->).
    assert (Hrest : exists s2 r2 t4,
               run_futures task rest s0 = (r2, s2, t4) /\ t3 = t4).
    { apply bind_inv in H2
        as [(later & s2 & t4 & t5 & H3 & H4 & ->) | (e & H3 & ->)].
      - apply ret_inv in H4 as (_ & _ & ->). rewrite app_nil_r.
        exists s2, (Ok later), t4. auto.
      - exists s', (Raise e), t3. auto. }
    destruct Hrest as (s2 & r2 & t4 & H3 & ->).
    apply IH in H3 as (Hf & Hr).
    change (t0 ++ FutureDone i (exc_of r0) :: t4)
      with (t0 ++ [FutureDone i (exc_of r0)] ++ t4).
    rewrite !futures_app, !count_app, (futures_worker W), Hf.
    cbn [futures flat_map app List.length]. cbn [count filter is_read List.length].
    split; [reflexivity | lia].
Qed.

End PoolTrace.

Lemma futures_log (lvl : level) (msg : string) (t : list event) :
  futures (Log lvl msg :: t) = futures t.
Proof. reflexivity. Qed.

Lemma count_read_cons (ev : event) (t : list event) :
  count is_read (ev :: t)
  = ((if is_read ev then 1 else 0) + count is_read t)%nat.
Proof. unfold count. cbn [filter]. destruct (is_read ev); reflexivity. Qed.

(** X9.  Whatever fails, every planned part's future runs to its end, once,
    and each part costs one to three [read_range] calls: a part that failed
    for good does not stop the parts still waiting. *)
Theorem move_file_runs_every_part {S} (src : Source S) (dest : Dest S)
    (max_part_size : Z) (tqdm_installed : bool) (threads : Z)
    (show_progress : bool) (choices : list nat) s r s' t :
  0 < max_part_size ->
  0 < get_size src s < 2 ^ 53 ->
  1 <= threads ->
  move_file_with src dest max_part_size tqdm_installed threads show_progress
    choices s = (r, s', t) ->
  exists n,
    num_parts max_part_size (get_size src s) = Ok n
    /\ Permutation (futures t) (range n)
    /\ (Z.to_nat n <= count is_read t <= 3 * Z.to_nat n)%nat.
Proof.
  intros Hmax [Hpos Hlt] Hth H.
  set (size := get_size src s) in *.
  set (n := ceil_div size (Z.min size max_part_size)).
  assert (Hn : num_parts max_part_size size = Ok n)
    by (apply num_parts_exact; assumption).
  assert (Hn1 : 1 <= n) by (apply (planned_count_bounds Hmax Hpos)).
  exists n. split; [exact Hn|].
  set (th := clamp_threads threads n).
  assert (Hth' : 0 < th)
    by (unfold th, clamp_threads; destruct (n <? threads); lia).
  set (order := completion_order (Z.to_nat th) choices (Z.to_nat n) (range n)).
  assert (Hperm : Permutation order (range n)).
  { apply completion_order_perm; [lia|]. rewrite range_length. lia. }
  assert (Hlen : List.length order = Z.to_nat n).
  { rewrite (Permutation_length Hperm). apply range_length. }
  assert (Hbody :
    forall rb sb tb,
      move_body src dest max_part_size tqdm_installed threads show_progress
        choices s = (rb, sb, tb) ->
      futures tb = order
      /\ (Z.to_nat n <= count is_read tb <= 3 * Z.to_nat n)%nat).
  { intros rb sb tb Hb. unfold move_body in Hb. fold size in Hb.
    apply bind_emit_inv in Hb as (t1 & Hb & ->).
    apply bind_inv in Hb
      as [(n0 & s1 & t2 & t3 & Hl & Hb & ->) | (e & Hl & ->)].
    2: { unfold lift_result in Hl. rewrite Hn in Hl. discriminate. }
    unfold lift_result in Hl. rewrite Hn in Hl. injection Hl as <- <- <-.
    fold th in Hb. cbn [app].
    assert (Hpool :
      forall r0 s0 t0,
        thread_pool (transfer_part src dest max_part_size tqdm_installed
                       size show_progress) th n choices s = (r0, s0, t0) ->
        futures t0 = order
        /\ (Z.to_nat n <= count is_read t0 <= 3 * Z.to_nat n)%nat).
    { intros r0 s0 t0 Hp. unfold thread_pool in Hp.
      replace (th <=? 0) with false in Hp
        by (symmetry; apply Z.leb_gt; exact Hth').
      fold order in Hp.
      assert (Hrun : exists r1 s1 t1,
                 run_futures (transfer_part src dest max_part_size
                                tqdm_installed size show_progress) order s
                 = (r1, s1, t1) /\ t0 = t1).
      { apply bind_inv in Hp
          as [(first & s2 & t4 & t5 & H1 & H2 & ->) | (e & H1 & _)].
        - exists (Ok first), s2, t4. split; [exact H1|].
          destruct first as [e|].
          + apply raise_inv in H2 as (_ & _ & ->). apply app_nil_r.
          + apply ret_inv in H2 as (_ & _ & ->). apply app_nil_r.
        - exists (Raise e), s0, t0. auto. }
      destruct Hrun as (r1 & s2 & t4 & Hrun & ->).
      apply run_futures_parts in Hrun.
      - rewrite Hlen in Hrun. exact Hrun.
      - intros i0 st r2 st' t5 Ht.
        apply (@transfer_part_run S src dest max_part_size tqdm_installed
                 size show_progress (fun _ _ => True)
                 (fun _ _ _ _ _ _ _ _ => I) (fun _ _ _ _ _ _ _ _ => I)
                 i0 [] st r2 st' t5 I Ht).
      - intros i0 st r2 st' t5 Ht.
        apply (@transfer_part_run S src dest max_part_size tqdm_installed
                 size show_progress (fun _ _ => True)
                 (fun _ _ _ _ _ _ _ _ => I) (fun _ _ _ _ _ _ _ _ => I)
                 i0 [] st r2 st' t5 I Ht). }
    apply bind_inv in Hb
      as [([] & s2 & P & t4 & Hp & Hb & ->) | (e & Hp & ->)].
    2: { apply Hpool in Hp. rewrite count_read_cons, futures_log. exact Hp. }
    apply Hpool in Hp as (Hf & Hr).
    assert (Htail : futures t4 = [] /\ count is_read t4 = 0%nat).
    { apply bind_inv in Hb
        as [([] & s3 & t5 & t6 & Hc & Hb & ->) | (e & Hc & ->)].
      2: { apply call_inv in Hc as [_ ->]. auto. }
      apply call_inv in Hc as [_ ->].
      apply bind_inv in Hb
        as [([] & s4 & t7 & t8 & Hd & Hb & ->) | (e & Hd & ->)].
      2: { apply call_inv in Hd as [_ ->]. auto. }
      apply call_inv in Hd as [_ ->].
      apply bind_emit_inv in Hb as (t9 & Hb & ->).
      apply ret_inv in Hb as (_ & _ & ->). auto. }
    destruct Htail as (Hf4 & Hr4).
    rewrite count_read_cons, futures_log, futures_app, count_app, Hf, Hf4, Hr4.
    cbn [is_read]. rewrite app_nil_r.
    split; [reflexivity | lia]. }
  unfold move_file_with in H.
  apply try_catch_inv in H
    as [(b & Hb & _) | (e & s1 & t1 & t2 & Hb & Hh & ->)].
  - destruct (Hbody _ _ _ Hb) as (Hf & Hr). rewrite Hf. auto.
  - destruct (Hbody _ _ _ Hb) as (Hf & Hr).
    apply handler_run in Hh as (_ & _ & _ & A & HA & ->).
    rewrite futures_app, count_app, Hf.
    destruct HA; cbn [futures flat_map app count filter is_read List.length];
      rewrite app_nil_r; (split; [exact Hperm | lia]).
Qed.

(** ** From an [S3Source] to a destination that returned *)

Section FromS3.

Variable B : Type.
Variable dest : Dest B.
Variable max_part_size : Z.
Hypothesis max_pos : 0 < max_part_size.
Variable data : bytes.

(** What the destination's state says about the uploads it accepted. *)
Variable DInv : list (Z * bytes) -> B -> Prop.

Hypothesis DInv_upload :
  forall u k d b r b',
    DInv u b -> upload_part dest k d b = (r, b') ->
    DInv (u ++ match r with Ok _ => [(k, d)] | Raise _ => [] end) b'.

(** A run that returns accepted the object's parts, each once, called
    [complete] on the state they left and then deleted the source
    object. *)
Lemma s3_run_returns (tqdm_installed : bool) (threads : Z)
    (show_progress : bool) (choices : list nat) (f : faults) (b0 : B)
    (s' : S3Source.t * B) (b : bool) (t : list event) :
  len data < 2 ^ 53 ->
  DInv [] b0 ->
  move_file_with (source_of S3Source.handle) (dest_of dest) max_part_size
    tqdm_installed threads show_progress choices
    (S3Source.init data f, b0) = (Ok b, s', t) ->
  0 < len data
  /\ exists order b2,
       Permutation order
         (range (ceil_div (len data) (Z.min (len data) max_part_size)))
       /\ uploads t
          = map (fun i => (i + 1, chunk max_part_size data i)) order
       /\ DInv (uploads t) b2
       /\ complete dest b2 = (Ok tt, snd s')
       /\ S3Source.object (fst s') = None.
Proof.
  intros Hbound Hb0 H.
  pose (Inv := fun (u : list (Z * bytes)) (st : S3Source.t * B) =>
                 S3Source.object (fst st) = Some data /\ DInv u (snd st)).
  assert (Hread :
    forall u offset length st r st',
      Inv u st ->
      read_range (source_of (B := B) S3Source.handle) offset length st
      = (r, st') ->
      Inv u st').
  { intros u offset length [a b1] r st' [Hst Hd]. unfold Inv in *. cbn.
    destruct (S3Source.read_range offset length a) as [r1 a1] eqn:E.
    intros Heq. injection Heq as _ <-. cbn.
    rewrite (S3Source_read_keeps _ _ _ E). auto. }
  assert (Hupload :
    forall u k d st r st',
      Inv u st ->
      upload_part (dest_of (A := S3Source.t) dest) k d st = (r, st') ->
      Inv (u ++ match r with Ok _ => [(k, d)] | Raise _ => [] end) st').
  { intros u k d [a b1] r st' [Hst Hd]. unfold Inv in *. cbn.
    destruct (upload_part dest k d b1) as [r1 b2] eqn:E.
    intros Heq. injection Heq as <- <-. cbn. split; [exact Hst|].
    apply (DInv_upload _ _ Hd E). }
  assert (Hhonest :
    forall u offset length st d st',
      Inv u st ->
      read_range (source_of (B := B) S3Source.handle) offset length st
      = (Ok d, st') ->
      d = slice data offset (offset + length)).
  { intros u offset length [a b1] d st' [Hst _]. unfold Inv in *. cbn.
    destruct (S3Source.read_range offset length a) as [r1 a1] eqn:E.
    intros Heq. injection Heq as -> _.
    apply (S3Source_read_honest _ _ _ Hst E). }
  destruct (@uploads_are_chunks (S3Source.t * B)
              (source_of S3Source.handle) (dest_of dest) max_part_size max_pos
              data Inv Hread Hupload Hhonest tqdm_installed threads
              show_progress choices [] (S3Source.init data f, b0) s' b t
              (conj eq_refl Hb0) eq_refl Hbound H)
    as (Hpos & order & [a2 b2] & [a3 b3] & Hperm & Hup & [Ho Hd] & Hc & Hdel).
  split; [exact Hpos|]. exists order, b2. cbn [app] in Hd. cbn [snd fst] in *.
  split; [exact Hperm|]. split; [exact Hup|]. split; [exact Hd|].
  cbn in Hc. destruct (complete dest b2) as [rc bc] eqn:Ec.
  injection Hc as -> <- <-.
  cbn in Hdel. unfold S3Source.delete in Hdel.
  destruct (next_fault (S3Source.pending a2)) as [[e|] rest];
    [discriminate|].
  injection Hdel as <-. cbn. auto.
Qed.

End FromS3.

Lemma sort_map {A B K} (key : B -> K) (key' : A -> K)
    (leb : K -> K -> bool) (f : A -> B) :
  (forall x, key (f x) = key' x) ->
  forall l, Py.sort key leb (map f l) = map f (Py.sort key' leb l).
Proof.
  intros Hk.
  assert (Hins : forall x l,
             Py.insert key leb (f x) (map f l)
             = map f (Py.insert key' leb x l)).
  { intros x l. induction l as [|y l IH]; [reflexivity|].
    cbn [map Py.insert]. rewrite !Hk.
    destruct (leb (key' x) (key' y)); [reflexivity|].
    cbn [map]. rewrite IH. reflexivity. }
  induction l as [|x l IH]; [reflexivity|].
  cbn [map Py.sort]. rewrite IH. apply Hins.
Qed.

(** The accepted parts of a run that returned, sorted by part number. *)
Lemma sorted_chunks (max_part_size : Z) (data : bytes) (order : list Z)
    (n : Z) :
  Permutation order (range n) ->
  Py.sort fst Z.leb (map (fun i => (i + 1, chunk max_part_size data i)) order)
  = map (fun i => (i + 1, chunk max_part_size data i)) (range n).
Proof.
  intros Hperm. apply sort_of_permutation.
  - apply tagged_sorted.
  - apply Permutation_map. exact Hperm.
Qed.

Lemma S3Dest_upload_raise_keeps (k : Z) (data : bytes) (s s1 : S3Dest.t)
    (e : exn) :
  S3Dest.upload_part k data s = (Raise e, s1) ->
  S3Dest.parts s1 = S3Dest.parts s /\ S3Dest.etag_of s1 = S3Dest.etag_of s.
Proof.
  unfold S3Dest.upload_part, S3Dest.request_.
  destruct (next_fault (S3Dest.pending s)) as [[e0|] rest]; [|discriminate].
  intros H. injection H as _ <-. auto.
Qed.

(** ** S3 to S3 *)

(** X14.  Whenever a transfer to an [S3Dest] returns, whatever failed and
    was retried on the way, the last request sent is
    [complete_multipart_upload] with every part of the object listed once,
    in ascending part-number order, under the ETag the service gave for its
    bytes (surrounding quotes removed). *)
Theorem s3_complete_lists_every_part_once (max_part_size : Z)
    (data : bytes) (etag_of : Z -> bytes -> string) (f1 f2 : faults)
    (tqdm_installed : bool) (threads : Z) (show_progress : bool)
    (choices : list nat) (s' : S3Source.t * S3Dest.t) (b : bool)
    (t : list event) :
  0 < max_part_size ->
  len data < 2 ^ 53 ->
  move_file_with (source_of S3Source.handle) (dest_of S3Dest.handle)
    max_part_size tqdm_installed threads show_progress choices
    (S3Source.init data f1, S3Dest.init etag_of f2) = (Ok b, s', t) ->
  last (S3Dest.sent (snd s')) S3Dest.abort_multipart_upload_req
  = S3Dest.complete_multipart_upload_req
      (map (fun i => s3_part etag_of (tagged_chunk max_part_size data i))
         (range (ceil_div (len data) (Z.min (len data) max_part_size)))).
Proof.
  intros Hmax Hbound H.
  pose (DInv := fun (u : list (Z * bytes)) (d : S3Dest.t) =>
                  S3Dest.parts d = map (s3_part etag_of) u
                  /\ S3Dest.etag_of d = etag_of).
  assert (Hup :
    forall u k d b1 r b',
      DInv u b1 -> upload_part S3Dest.handle k d b1 = (r, b') ->
      DInv (u ++ match r with Ok _ => [(k, d)] | Raise _ => [] end) b').
  { intros u k d b1 r b' [Hp He] E. cbn in E. unfold DInv.
    destruct r as [[]|e].
    - apply S3Dest_upload_appends in E as [E1 E2].
      rewrite E1, E2, Hp, He, map_app. auto.
    - apply S3Dest_upload_raise_keeps in E as [E1 E2].
      rewrite E1, E2, app_nil_r. auto. }
  destruct (@s3_run_returns S3Dest.t S3Dest.handle max_part_size Hmax data
              DInv Hup tqdm_installed threads show_progress choices f1
              (S3Dest.init etag_of f2) s' b t Hbound (conj eq_refl eq_refl) H)
    as (Hpos & order & b2 & Hperm & Hu & [Hp He] & Hc & _).
  cbn in Hc. unfold S3Dest.complete, S3Dest.request_ in Hc.
  cbn [S3Dest.pending S3Dest.sent S3Dest.etag_of S3Dest.parts
       S3Dest.warnings] in Hc.
  destruct (next_fault (S3Dest.pending b2)) as [[e|] rest]; [discriminate|].
  injection Hc as <-. cbn [S3Dest.sent]. rewrite last_last. f_equal.
  rewrite Hp, Hu.
  rewrite (@sort_map _ _ _ S3Dest.PartNumber fst Z.leb (s3_part etag_of))
    by reflexivity.
  rewrite (@sorted_chunks max_part_size data order _ Hperm), map_map.
  reflexivity.
Qed.

Lemma s3_complete_lists_every_part_once_witness :
  let run :=
    move_file_with (source_of S3Source.handle) (dest_of S3Dest.handle)
      2 true 4 true [1%nat; 0%nat]
      (S3Source.init abcde [Some (ProviderError 500)],
       S3Dest.init (fun _ _ => "etag"%string) [None; Some (ProviderError 503)])
  in
  fst (fst run) = Ok true
  /\ last (S3Dest.sent (snd (snd (fst run)))) S3Dest.abort_multipart_upload_req
     = S3Dest.complete_multipart_upload_req
         (map (fun i => s3_part (fun _ _ => "etag"%string)
                          (tagged_chunk 2 abcde i))
            (range (ceil_div (len abcde) (Z.min (len abcde) 2)))).
Proof.
  intros run. split; [reflexivity|].
  apply (@s3_complete_lists_every_part_once 2 abcde
           (fun _ _ => "etag"%string) [Some (ProviderError 500)]
           [None; Some (ProviderError 503)] true 4 true [1%nat; 0%nat]
           (snd (fst run)) true (snd run));
    [reflexivity | reflexivity | reflexivity].
Defined.

Lemma move_file_runs_every_part_witness :
  let run :=
    move_file_with (source_of S3Source.handle) (dest_of DummyDest.handle)
      1 true 2 false []
      (S3Source.init abc
         [None; Some (ProviderError 500); Some (ProviderError 500);
          Some (ProviderError 503)],
       DummyDest.init) in
  fst (fst run) = Raise (ProviderError 503)
  /\ exists n,
       num_parts 1 3 = Ok n
       /\ Permutation (futures (snd run)) (range n)
       /\ (Z.to_nat n <= count is_read (snd run) <= 3 * Z.to_nat n)%nat.
Proof.
  intros run. split; [reflexivity|].
  apply (@move_file_runs_every_part _
           (source_of S3Source.handle) (dest_of DummyDest.handle)
           1 true 2 false []
           (S3Source.init abc
              [None; Some (ProviderError 500); Some (ProviderError 500);
               Some (ProviderError 503)],
            DummyDest.init)
           (fst (fst run)) (snd (fst run)) (snd run));
    [lia | split; [reflexivity | reflexivity] | lia | reflexivity].
Defined.

(** ** Names and stores *)

Lemma str_inj (a b : Z) : 0 <= a -> 0 <= b -> Py.str a = Py.str b -> a = b.
Proof.
  intros Ha Hb. unfold Py.str.
  replace (a <? 0) with false by (symmetry; apply Z.ltb_ge; exact Ha).
  replace (b <? 0) with false by (symmetry; apply Z.ltb_ge; exact Hb).
  unfold Py.digits. intros H.
  assert (Hnn : forall n : N, N.to_uint n <> Decimal.Nil).
  { intros [|p]; [discriminate | apply DecimalPos.Unsigned.to_uint_nonnil]. }
  assert (E : Some (N.to_uint (Z.to_N a)) = Some (N.to_uint (Z.to_N b))).
  { rewrite <- (NilZero.usu _ (Hnn (Z.to_N a))).
    rewrite <- (NilZero.usu _ (Hnn (Z.to_N b))).
    rewrite H. reflexivity. }
  injection E as E. apply DecimalN.Unsigned.to_uint_inj in E.
  apply (f_equal Z.of_N) in E. rewrite !Z2N.id in E; assumption.
Qed.


Lemma lookup_remove_other (x y : string) (l : list (string * bytes)) :
  x <> y -> GCSDest.lookup x (GCSDest.remove y l) = GCSDest.lookup x l.
Proof.
  intros Hne. unfold GCSDest.lookup, GCSDest.remove.
  induction l as [|[n d] l IH]; [reflexivity|]. cbn [filter find fst].
  destruct (String.eqb n y) eqn:Ey; cbn [negb].
  - apply String.eqb_eq in Ey as ->.
    replace (String.eqb y x) with false
      by (symmetry; apply String.eqb_neq; congruence).
    exact IH.
  - cbn [find fst]. destruct (String.eqb n x); [reflexivity | exact IH].
Qed.

Lemma lookup_remove_same (x : string) (l : list (string * bytes)) :
  GCSDest.lookup x (GCSDest.remove x l) = None.
Proof.
  unfold GCSDest.lookup, GCSDest.remove.
  induction l as [|[n d] l IH]; [reflexivity|]. cbn [filter find fst].
  destruct (String.eqb n x) eqn:E; cbn [negb]; [exact IH|].
  cbn [find fst]. rewrite E. exact IH.
Qed.

Lemma lookup_put_other (x y : string) (d : bytes) (l : list (string * bytes)) :
  x <> y -> GCSDest.lookup x (put y d l) = GCSDest.lookup x l.
Proof.
  intros Hne. unfold put.
  transitivity (GCSDest.lookup x (GCSDest.remove y l));
    [|apply lookup_remove_other; exact Hne].
  unfold GCSDest.lookup at 1. cbn [find fst].
  replace (String.eqb y x) with false
    by (symmetry; apply String.eqb_neq; congruence).
  reflexivity.
Qed.

Lemma stored_snoc (name_of : Z -> string) (u : list (Z * bytes))
    (k : Z) (d : bytes) (bucket : list (string * bytes)) :
  stored name_of (u ++ [(k, d)]) bucket
  = put (name_of k) d (stored name_of u bucket).
Proof. unfold stored. rewrite fold_left_app. reflexivity. Qed.

Section Stored.

Variable name_of : Z -> string.

(** Part numbers that are not negative get names of their own. *)
Hypothesis name_of_inj :
  forall a b, 0 <= a -> 0 <= b -> name_of a = name_of b -> a = b.


(** A name that is no part's name holds what it held before. *)
Lemma stored_lookup_other (u : list (Z * bytes))
    (bucket : list (string * bytes)) (x : string) :
  (forall k, x <> name_of k) ->
  GCSDest.lookup x (stored name_of u bucket) = GCSDest.lookup x bucket.
Proof.
  intros Hx. induction u as [|[k d] u IH] using rev_ind; [reflexivity|].
  rewrite stored_snoc, lookup_put_other; [exact IH | apply Hx].
Qed.


End Stored.


Lemma range_In (n i : Z) : In i (range n) <-> 0 <= i < n.
Proof.
  unfold range. rewrite in_map_iff. split.
  - intros (k & <- & Hk). apply in_seq in Hk. lia.
  - intros Hi. exists (Z.to_nat i). split; [lia|]. apply in_seq. lia.
Qed.

(** ** S3 to GCS *)

Lemma GCSDest_delete_all_keeps (warn : bool) (names : list string)
    (x : string) :
  ~ In x names ->
  forall s,
    GCSDest.lookup x (GCSDest.blobs (GCSDest.delete_all warn names s))
    = GCSDest.lookup x (GCSDest.blobs s).
Proof.
  induction names as [|n names IH]; intros Hx s; [reflexivity|].
  assert (Hn : x <> n) by (intros ->; apply Hx; left; reflexivity).
  assert (Hrest : ~ In x names) by (intros Hin; apply Hx; right; exact Hin).
  cbn [GCSDest.delete_all]. unfold GCSDest.delete_blob.
  destruct (next_fault (GCSDest.pending s)) as [[e|] rest].
  - destruct warn; rewrite (IH Hrest); reflexivity.
  - destruct (GCSDest.lookup n (GCSDest.blobs s)).
    + rewrite (IH Hrest). cbn [GCSDest.blobs GCSDest.with_bucket].
      apply lookup_remove_other. exact Hn.
    + destruct warn; rewrite (IH Hrest); reflexivity.
Qed.









(** ** What [GCSDest.abort] deletes *)

Lemma GCSDest_delete_all_absent (warn : bool) (names : list string)
    (x : string) :
  forall s,
    GCSDest.lookup x (GCSDest.blobs s) = None ->
    GCSDest.lookup x (GCSDest.blobs (GCSDest.delete_all warn names s)) = None.
Proof.
  induction names as [|n names IH]; intros s Hx; [exact Hx|].
  cbn [GCSDest.delete_all]. unfold GCSDest.delete_blob.
  destruct (next_fault (GCSDest.pending s)) as [[e|] rest].
  - destruct warn; apply IH; exact Hx.
  - destruct (GCSDest.lookup n (GCSDest.blobs s)).
    + apply IH. cbn [GCSDest.blobs GCSDest.with_bucket].
      destruct (String.eqb x n) eqn:E.
      * apply String.eqb_eq in E as ->. apply lookup_remove_same.
      * apply String.eqb_neq in E. rewrite lookup_remove_other; assumption.
    + destruct warn; apply IH; exact Hx.
Qed.

Lemma answered_next (f : faults) :
  answered f -> fst (next_fault f) = None /\ answered (snd (next_fault f)).
Proof.
  destruct 1 as [|o f Ho Hf]; cbn; [split; [reflexivity | constructor]|].
  subst o. auto.
Qed.

Lemma GCSDest_delete_all_removes (warn : bool) (names : list string)
    (x : string) :
  In x names ->
  forall s,
    answered (GCSDest.pending s) ->
    GCSDest.lookup x (GCSDest.blobs (GCSDest.delete_all warn names s)) = None.
Proof.
  induction names as [|n names IH]; intros Hin s Hs; [destruct Hin|].
  cbn [GCSDest.delete_all]. unfold GCSDest.delete_blob.
  destruct (answered_next Hs) as [Hf Hrest].
  destruct (next_fault (GCSDest.pending s)) as [f rest]. cbn in Hf, Hrest.
  subst f.
  destruct (String.eqb x n) eqn:E.
  - apply String.eqb_eq in E as ->.
    destruct (GCSDest.lookup n (GCSDest.blobs s)) eqn:El.
    + apply GCSDest_delete_all_absent.
      cbn [GCSDest.blobs GCSDest.with_bucket]. apply lookup_remove_same.
    + destruct warn; apply GCSDest_delete_all_absent; exact El.
  - apply String.eqb_neq in E.
    destruct Hin as [->|Hin]; [contradiction|].
    destruct (GCSDest.lookup n (GCSDest.blobs s)).
    + apply IH; [exact Hin | exact Hrest].
    + destruct warn; apply IH; try exact Hin; exact Hrest.
Qed.

(** X17.  [GCSDest.abort] never raises and only touches the temporary blobs
    numbered 1 to [part_count], the count of accepted uploads: a part
    accepted under a greater number (part 3 when part 2 was never accepted)
    stays in the bucket, while the parts numbered up to the count are gone
    once the service has answered. *)
Theorem GCSDest_abort_deletes_counted_parts (s : GCSDest.t) :
  fst (GCSDest.abort s) = Ok tt
  /\ (forall k,
         0 <= k -> GCSDest.part_count s < k ->
         GCSDest.lookup (GCSDest.part_name s k)
           (GCSDest.blobs (snd (GCSDest.abort s)))
         = GCSDest.lookup (GCSDest.part_name s k) (GCSDest.blobs s))
  /\ (answered (GCSDest.pending s) ->
      forall k,
        1 <= k <= GCSDest.part_count s ->
        GCSDest.lookup (GCSDest.part_name s k)
          (GCSDest.blobs (snd (GCSDest.abort s))) = None).
Proof.
  split; [reflexivity|]. unfold GCSDest.abort. cbn [snd]. split.
  - intros k Hk Hgt. apply GCSDest_delete_all_keeps.
    unfold GCSDest.part_names. intros Hin.
    apply in_map_iff in Hin as (i & E & Hi). apply range_In in Hi.
    unfold GCSDest.part_name in E. apply append_inj_l in E.
    apply str_inj in E; lia.
  - intros Hs k Hk. apply GCSDest_delete_all_removes; [|exact Hs].
    unfold GCSDest.part_names. apply in_map_iff. exists (k - 1).
    split; [f_equal; lia | apply range_In; lia].
Qed.

Lemma GCSDest_abort_deletes_counted_parts_witness :
  let s :=
    upload_all GCSDest.handle [(1, abc); (3, abcde)]
      (GCSDest.new [] "out.bin" "0f" []) in
  GCSDest.part_count s = 2
  /\ GCSDest.lookup (GCSDest.part_name s 3)
       (GCSDest.blobs (snd (GCSDest.abort s))) = Some abcde
  /\ GCSDest.lookup (GCSDest.part_name s 1)
       (GCSDest.blobs (snd (GCSDest.abort s))) = None.
Proof.
  intros s. split; [reflexivity|]. split.
  - rewrite (proj1 (proj2 (GCSDest_abort_deletes_counted_parts s)) 3);
      [reflexivity | lia | reflexivity].
  - apply (proj2 (proj2 (GCSDest_abort_deletes_counted_parts s)));
      [constructor | split; [lia | discriminate]].
Defined.

(** ** S3 to Azure, up to three parts *)

Lemma perm3_cases (l : list Z) :
  Permutation l [0; 1; 2] ->
  l = [0; 1; 2] \/ l = [0; 2; 1] \/ l = [1; 0; 2] \/ l = [1; 2; 0]
  \/ l = [2; 0; 1] \/ l = [2; 1; 0].
Proof.
  intros Hp.
  assert (Hlen := Permutation_length Hp). cbn in Hlen.
  destruct l as [|x l]; [discriminate|].
  assert (Hx : In x [0; 1; 2])
    by (apply (Permutation_in _ Hp); left; reflexivity).
  destruct Hx as [<- | [<- | [<- | []]]].
  - apply Permutation_cons_inv in Hp.
    apply Permutation_sym, Permutation_length_2_inv in Hp as [-> | ->]; auto.
  - assert (Hp' : Permutation (1 :: l) (1 :: [0; 2])).
    { eapply perm_trans; [exact Hp | apply perm_swap]. }
    apply Permutation_cons_inv in Hp'.
    apply Permutation_sym, Permutation_length_2_inv in Hp' as [-> | ->];
      auto 6.
  - assert (Hp' : Permutation (2 :: l) (2 :: [0; 1])).
    { eapply perm_trans; [exact Hp|].
      eapply perm_trans; [apply perm_skip, perm_swap | apply perm_swap]. }
    apply Permutation_cons_inv in Hp'.
    apply Permutation_sym, Permutation_length_2_inv in Hp' as [-> | ->];
      auto 7.
Qed.

(** The block ids of parts 1, 2 and 3 sort, as strings, in the order of
    the parts: whatever the order of arrival, the sorted list stages the
    blocks for the bytes in part order. *)
Lemma azure_three_parts (f : Z -> bytes) (n : Z) (order : list Z) :
  1 <= n <= 3 ->
  Permutation order (range n) ->
  GCSDest.gather
    (Py.sort (fun id : string => id) String.leb
       (map (fun kd : Z * bytes => AzureDest.block_id_of (fst kd))
          (map (fun i => (i + 1, f i)) order)))
    (stored AzureDest.block_id_of (map (fun i => (i + 1, f i)) order) [])
  = Some (List.concat (map f (range n))).
Proof.
  intros Hn Hp.
  assert (Hcases : n = 1 \/ n = 2 \/ n = 3) by lia.
  destruct Hcases as [-> | [-> | ->]].
  - change (range 1) with [0] in *.
    apply Permutation_sym, Permutation_length_1_inv in Hp as ->.
    cbn [map fst].
    generalize (f 0). intros c0. vm_compute. reflexivity.
  - change (range 2) with [0; 1] in *.
    apply Permutation_sym, Permutation_length_2_inv in Hp as [-> | ->];
      cbn [map fst]; generalize (f 0) (f 1); intros c0 c1;
      vm_compute; reflexivity.
  - change (range 3) with [0; 1; 2] in *.
    apply perm3_cases in Hp
      as [-> | [-> | [-> | [-> | [-> | ->]]]]];
      cbn [map fst]; generalize (f 0) (f 1) (f 2); intros c0 c1 c2;
      vm_compute; reflexivity.
Qed.

Lemma AzureDest_upload_part_run (k : Z) (d : bytes) (s s1 : AzureDest.t)
    (r : result unit) :
  AzureDest.upload_part k d s = (r, s1) ->
  match r with
  | Ok _ =>
      AzureDest.block_ids s1
      = AzureDest.block_ids s ++ [AzureDest.block_id_of k]
      /\ AzureDest.staged s1
         = put (AzureDest.block_id_of k) d (AzureDest.staged s)
  | Raise _ =>
      AzureDest.block_ids s1 = AzureDest.block_ids s
      /\ AzureDest.staged s1 = AzureDest.staged s
  end.
Proof.
  unfold AzureDest.upload_part, AzureDest.stage_block.
  destruct (next_fault (AzureDest.pending s)) as [[e|] rest];
    intros H; injection H as <- <-; cbn; auto.
Qed.

(** X18.  Whenever a transfer from S3 to an [AzureDest] of an object of at
    most three parts returns, whatever failed and was retried on the way,
    the committed blob holds exactly the bytes of the source object, and the
    source object is gone. *)
Theorem azure_blob_is_source_object_up_to_three_parts (max_part_size : Z)
    (data : bytes) (existing : option bytes) (f1 f2 : faults)
    (tqdm_installed : bool) (threads : Z) (show_progress : bool)
    (choices : list nat) (s' : S3Source.t * AzureDest.t) (b : bool)
    (t : list event) :
  0 < max_part_size ->
  len data < 2 ^ 53 ->
  len data <= 3 * max_part_size ->
  move_file_with (source_of S3Source.handle) (dest_of AzureDest.handle)
    max_part_size tqdm_installed threads show_progress choices
    (S3Source.init data f1, AzureDest.init existing f2) = (Ok b, s', t) ->
  AzureDest.blob (snd s') = Some data
  /\ S3Source.object (fst s') = None.
Proof.
  intros Hmax Hbound Hsmall H.
  pose (DInv := fun (u : list (Z * bytes)) (d : AzureDest.t) =>
                  AzureDest.block_ids d
                  = map (fun kd => AzureDest.block_id_of (fst kd)) u
                  /\ AzureDest.staged d = stored AzureDest.block_id_of u []).
  assert (Hup :
    forall u k d b1 r b',
      DInv u b1 -> upload_part AzureDest.handle k d b1 = (r, b') ->
      DInv (u ++ match r with Ok _ => [(k, d)] | Raise _ => [] end) b').
  { intros u k d b1 r b' [Hi Hs] E. cbn in E.
    apply AzureDest_upload_part_run in E. unfold DInv.
    destruct r as [[]|e]; destruct E as [E1 E2].
    - rewrite E1, E2, Hi, Hs, map_app, stored_snoc. auto.
    - rewrite E1, E2, app_nil_r. auto. }
  destruct (@s3_run_returns AzureDest.t AzureDest.handle max_part_size Hmax
              data DInv Hup tqdm_installed threads show_progress choices f1
              (AzureDest.init existing f2) s' b t Hbound
              (conj eq_refl eq_refl) H)
    as (Hpos & order & g2 & Hperm & Hu & [Hi Hs] & Hcomp & Hobj).
  split; [|exact Hobj].
  set (n := ceil_div (len data) (Z.min (len data) max_part_size)) in *.
  assert (Hn : 1 <= n <= 3).
  { destruct (planned_count_bounds Hmax Hpos) as [Hb Hn1]. fold n in Hb, Hn1.
    rewrite chunk_size_min in Hb by exact Hmax.
    split; [exact Hn1 | nia]. }
  pose proof (azure_three_parts (chunk max_part_size data) Hn Hperm) as Hg.
  pose proof (@concat_chunks max_part_size Hmax data Hpos) as Hcat.
  fold n in Hcat. rewrite Hcat in Hg. clear Hcat.
  rewrite <- Hu in Hg. rewrite <- Hi, <- Hs in Hg.
  cbn in Hcomp. unfold AzureDest.complete in Hcomp.
  destruct (AzureDest.block_ids g2) as [|id ids] eqn:Eids.
  { exfalso. rewrite Hu in Hi.
    destruct order as [|i order]; [|discriminate].
    apply Permutation_length in Hperm. rewrite range_length in Hperm.
    cbn in Hperm. lia. }
  unfold AzureDest.commit_block_list in Hcomp.
  cbn [AzureDest.pending AzureDest.staged AzureDest.blob AzureDest.sent
       AzureDest.block_ids] in Hcomp.
  rewrite Hg in Hcomp.
  destruct (next_fault (AzureDest.pending g2)) as [[e|] rest]; [discriminate|].
  injection Hcomp as <-. reflexivity.
Qed.

Lemma azure_blob_is_source_object_up_to_three_parts_witness :
  let run :=
    move_file_with (source_of S3Source.handle) (dest_of AzureDest.handle)
      2 true 4 true [2%nat; 0%nat]
      (S3Source.init abcde [Some (ProviderError 500)],
       AzureDest.init None [None; Some (ProviderError 503)])
  in
  fst (fst run) = Ok true
  /\ AzureDest.blob (snd (snd (fst run))) = Some abcde
  /\ S3Source.object (fst (snd (fst run))) = None.
Proof.
  intros run. split; [reflexivity|].
  apply (@azure_blob_is_source_object_up_to_three_parts 2 abcde None
           [Some (ProviderError 500)] [None; Some (ProviderError 503)]
           true 4 true [2%nat; 0%nat] (snd (fst run)) true (snd run));
    [reflexivity | reflexivity | discriminate | reflexivity].
Defined.

(** ** A pool of no threads *)

(** X10.  With [threads <= 0] and a non-empty object, [ThreadPoolExecutor]
    refuses its size: [move_file] raises [ValueError] before any part is
    read, [abort] is called once and neither [complete] nor [delete] is. *)
Theorem move_file_rejects_nonpositive_threads {S} (src : Source S)
    (dest : Dest S) (max_part_size : Z) (tqdm_installed : bool)
    (threads : Z) (show_progress : bool) (choices : list nat) s r s' t :
  0 < max_part_size ->
  0 < get_size src s < 2 ^ 53 ->
  threads <= 0 ->
  move_file_with src dest max_part_size tqdm_installed threads show_progress
    choices s = (r, s', t) ->
  r = Raise ValueError
  /\ s' = snd (abort dest s)
  /\ count is_read t = 0%nat
  /\ uploads t = []
  /\ count is_complete t = 0%nat
  /\ count is_delete t = 0%nat
  /\ count is_abort t = 1%nat.
Proof.
  intros Hmax [Hpos Hlt] Hth H.
  pose proof (num_parts_exact Hmax Hpos Hlt) as Hn.
  set (n := ceil_div _ _) in Hn.
  assert (Hn1 : 1 <= n) by (apply (planned_count_bounds Hmax Hpos)).
  assert (Hbody :
    move_body src dest max_part_size tqdm_installed threads show_progress
      choices s = (Raise ValueError, s, [Log INFO "Starting transfer"])).
  { unfold move_body. unfold bind at 1. unfold emit at 1.
    unfold bind at 1. unfold lift_result. rewrite Hn.
    unfold bind at 1. unfold thread_pool.
    replace (clamp_threads threads n <=? 0) with true; [reflexivity|].
    symmetry. apply Z.leb_le. unfold clamp_threads.
    destruct (Z.ltb_spec n threads); lia. }
  unfold move_file_with in H.
  apply try_catch_inv in H
    as [(b & Hb & _) | (e & s1 & t1 & t2 & Hb & Hh & ->)];
    rewrite Hbody in Hb; [discriminate|].
  injection Hb as <- <- <-.
  apply handler_run in Hh as (-> & -> & _ & A & HA & ->).
  split; [reflexivity|]. split; [reflexivity|].
  destruct HA; cbn; repeat split; reflexivity.
Qed.

Lemma move_file_rejects_nonpositive_threads_witness :
  let run :=
    move_file_with (source_of S3Source.handle) (dest_of DummyDest.handle)
      default_chunk true 0 false []
      (S3Source.init abc [], DummyDest.init) in
  fst (fst run) = Raise ValueError
  /\ snd (fst run)
     = snd (abort (dest_of DummyDest.handle)
              (S3Source.init abc [], DummyDest.init))
  /\ count is_read (snd run) = 0%nat
  /\ uploads (snd run) = []
  /\ count is_complete (snd run) = 0%nat
  /\ count is_delete (snd run) = 0%nat
  /\ count is_abort (snd run) = 1%nat.
Proof.
  intros run.
  apply (@move_file_rejects_nonpositive_threads _
           (source_of S3Source.handle) (dest_of DummyDest.handle)
           default_chunk true 0 false []
           (S3Source.init abc [], DummyDest.init)
           (fst (fst run)) (snd (fst run)) (snd run));
    [reflexivity | split; reflexivity | lia | reflexivity].
Defined.

(** ** The destinations' [abort] returns *)

Lemma quiet_abort_run {S} (src : Source S) (dest : Dest S)
    (max_part_size : Z) (tqdm_installed : bool) (threads : Z)
    (show_progress : bool) (choices : list nat) s e s' t :
  (forall st, fst (abort dest st) = Ok tt) ->
  move_file_with src dest max_part_size tqdm_installed threads show_progress
    choices s = (Raise e, s', t) ->
  exists s1 t0,
    s' = snd (abort dest s1)
    /\ t = t0 ++ [Log ERROR "Transfer failed"; DestAbort None]
    /\ count is_abort t0 = 0%nat.
Proof.
  intros Hq H.
  pose proof (move_file_run _ _ _ _ _ _ _ _ H) as Hshape.
  unfold move_file_with in H.
  apply try_catch_inv in H
    as [(b & _ & Hr) | (e1 & s1 & t1 & t2 & Hb & Hh & ->)]; [discriminate|].
  apply handler_run in Hh as (_ & -> & Hin & A & HA & ->).
  rewrite Hq in Hin. cbn [exc_of] in Hin.
  exists s1, t1. split; [reflexivity|].
  assert (HA' : A = [DestAbort None]).
  { destruct HA as [|abort_err]; [reflexivity|].
    destruct Hin as [Heq | [Heq | [Heq | []]]]; discriminate. }
  subst A. split; [reflexivity|].
  pose proof (run_shape_aborts Hshape) as Hc.
  rewrite count_app in Hc. cbn in Hc. lia.
Qed.

(** X12.  With any source and one of the three destinations of the program,
    every run that raises ends with the error record and one call of [abort]
    that returns: the handler's own [except] branch is never taken, and
    ["Error during abort/cleanup"] is never logged. For S3 the last request
    sent is [abort_multipart_upload], for Azure [delete_blob]. *)
Theorem product_abort_returns {A} (src : Source A) (max_part_size : Z)
    (tqdm_installed : bool) (threads : Z) (show_progress : bool)
    (choices : list nat) (e : exn) (t : list event) :
  (forall s s',
      move_file_with (source_of src) (dest_of S3Dest.handle) max_part_size
        tqdm_installed threads show_progress choices s = (Raise e, s', t) ->
      (exists t0, t = t0 ++ [Log ERROR "Transfer failed"; DestAbort None]
                  /\ count is_abort t0 = 0%nat)
      /\ last (S3Dest.sent (snd s')) (S3Dest.upload_part_req 0 [])
         = S3Dest.abort_multipart_upload_req)
  /\ (forall s s',
         move_file_with (source_of src) (dest_of GCSDest.handle) max_part_size
           tqdm_installed threads show_progress choices s = (Raise e, s', t) ->
         exists t0, t = t0 ++ [Log ERROR "Transfer failed"; DestAbort None]
                    /\ count is_abort t0 = 0%nat)
  /\ (forall s s',
         move_file_with (source_of src) (dest_of AzureDest.handle)
           max_part_size tqdm_installed threads show_progress choices s
         = (Raise e, s', t) ->
         (exists t0, t = t0 ++ [Log ERROR "Transfer failed"; DestAbort None]
                     /\ count is_abort t0 = 0%nat)
         /\ last (AzureDest.sent (snd s')) (AzureDest.upload_blob_req [])
            = AzureDest.delete_blob_req).
Proof.
  split; [|split].
  - intros s s' H. apply quiet_abort_run in H.
    + destruct H as ([a d] & t0 & -> & -> & Hc).
      split; [exists t0; auto|]. cbn.
      unfold S3Dest.abort, S3Dest.request_.
      destruct (next_fault (S3Dest.pending d)) as [[e0|] rest]; cbn;
        apply last_last.
    + intros [a d]. cbn. unfold S3Dest.abort.
      destruct (S3Dest.request_ _ d) as [[[]|e0] d1]; reflexivity.
  - intros s s' H. apply quiet_abort_run in H.
    + destruct H as (s1 & t0 & _ & -> & Hc). exists t0. auto.
    + intros [a d]. reflexivity.
  - intros s s' H. apply quiet_abort_run in H.
    + destruct H as ([a d] & t0 & -> & -> & Hc).
      split; [exists t0; auto|]. cbn.
      unfold AzureDest.abort, AzureDest.delete_blob.
      destruct (next_fault (AzureDest.pending d)) as [[e0|] rest];
        destruct (AzureDest.blob d); cbn; apply last_last.
    + intros [a d]. cbn. unfold AzureDest.abort.
      destruct (AzureDest.delete_blob d) as [r d1]. reflexivity.
Qed.

Lemma product_abort_returns_witness :
  let run :=
    move_file_with (source_of S3Source.handle) (dest_of S3Dest.handle)
      default_chunk true 4 false []
      (S3Source.init abc
         [Some (ProviderError 500); Some (ProviderError 500);
          Some (ProviderError 503)],
       S3Dest.init (fun _ _ => "etag"%string) [Some (ProviderError 500)]) in
  (exists t0,
      snd run = t0 ++ [Log ERROR "Transfer failed"; DestAbort None]
      /\ count is_abort t0 = 0%nat)
  /\ last (S3Dest.sent (snd (snd (fst run)))) (S3Dest.upload_part_req 0 [])
     = S3Dest.abort_multipart_upload_req.
Proof.
  intros run.
  apply (proj1 (@product_abort_returns _ S3Source.handle default_chunk true 4
                  false [] (ProviderError 503) (snd run))
           (S3Source.init abc
              [Some (ProviderError 500); Some (ProviderError 500);
               Some (ProviderError 503)],
            S3Dest.init (fun _ _ => "etag"%string) [Some (ProviderError 500)])
           (snd (fst run))).
  reflexivity.
Defined.

(** ** Transfers that meet no failure, part by part *)

Section ReliableCopy.

Variable S : Type.
Variable src : Source S.
Variable dest : Dest S.
Variable max_part_size : Z.
Variable tqdm_installed : bool.
Variable file_size : Z.
Variable n : Z.

Variable Inv : list (Z * bytes) -> S -> Prop.

Hypothesis Inv_read :
  forall u offset length st r st',
    Inv u st -> read_range src offset length st = (r, st') -> Inv u st'.

Hypothesis Inv_upload :
  forall u k d st r st',
    Inv u st -> upload_part dest k d st = (r, st') ->
    Inv (u ++ match r with Ok _ => [(k, d)] | Raise _ => [] end) st'.

(** In the states of [Inv] the planned reads and the uploads return. *)
Hypothesis reads_return :
  forall u i st,
    Inv u st -> 0 <= i < n ->
    exists d st',
      read_range src (part_offset max_part_size file_size i)
        (bytes_to_read max_part_size file_size i) st = (Ok d, st').

Hypothesis uploads_return :
  forall u k d st,
    Inv u st -> exists st', upload_part dest k d st = (Ok tt, st').




End ReliableCopy.

(** ** S3 to GCS with both services answering *)





(** ** The copy under [build/lib], compared *)

Lemma BuildLib_chunk_size_eq (max_part_size file_size : Z) :
  BuildLib.chunk_size max_part_size file_size
  = chunk_size max_part_size file_size.
Proof.
  unfold BuildLib.chunk_size, chunk_size.
  destruct (Z.ltb_spec file_size max_part_size); lia.
Qed.

Lemma BuildLib_attempt_part_eq {S} (src : Source S) (dest : Dest S)
    (max_part_size : Z) (tqdm_installed : bool) (file_size : Z)
    (show_progress : bool) (i : Z) (s : S) :
  BuildLib.attempt_part src dest max_part_size tqdm_installed file_size
    show_progress i s
  = attempt_part src dest max_part_size tqdm_installed file_size
      show_progress i s.
Proof.
  unfold BuildLib.attempt_part, attempt_part. rewrite BuildLib_chunk_size_eq.
  replace (Z.min (chunk_size max_part_size file_size)
             (file_size - i * chunk_size max_part_size file_size))
    with (bytes_to_read max_part_size file_size i); [reflexivity|].
  unfold bytes_to_read, part_offset.
  destruct (Z.leb_spec (i * chunk_size max_part_size file_size
                        + chunk_size max_part_size file_size) file_size);
    lia.
Qed.

(** X21.  Both copies of [move_file] plan the same parts: the same chunk
    size, the same part count (or the same exception), the same pool size
    and, attempt by attempt, the same reads and uploads. *)
Theorem BuildLib_plans_like_core (max_part_size file_size : Z) :
  BuildLib.chunk_size max_part_size file_size
  = chunk_size max_part_size file_size
  /\ BuildLib.num_parts max_part_size file_size
     = num_parts max_part_size file_size
  /\ (forall threads n, Z.min threads n = clamp_threads threads n)
  /\ (forall S (src : Source S) (dest : Dest S) tqdm_installed show_progress
        i s,
         BuildLib.attempt_part src dest max_part_size tqdm_installed
           file_size show_progress i s
         = attempt_part src dest max_part_size tqdm_installed file_size
             show_progress i s).
Proof.
  split; [apply BuildLib_chunk_size_eq|]. split; [|split].
  - unfold BuildLib.num_parts, num_parts. rewrite BuildLib_chunk_size_eq.
    reflexivity.
  - intros threads n. unfold clamp_threads.
    destruct (Z.ltb_spec n threads); lia.
  - intros S src dest tqdm_installed show_progress i s.
    apply BuildLib_attempt_part_eq.
Qed.

Section BuildLibRetry.

Variable S : Type.
Variable src : Source S.
Variable dest : Dest S.
Variable max_part_size : Z.
Variable tqdm_installed : bool.
Variable file_size : Z.
Variable show_progress : bool.

Lemma BuildLib_attempt_facts (i : Z) s r s' t :
  BuildLib.attempt_part src dest max_part_size tqdm_installed file_size
    show_progress i s = (r, s', t) ->
  all is_worker t /\ count is_read t = 1%nat /\ sleeps t = []
  /\ (forall e, r = Raise e -> uploads t = []).
Proof.
  rewrite BuildLib_attempt_part_eq.
  intros H. destruct r as [[]|e].
  - destruct (@attempt_ok_facts S src dest max_part_size tqdm_installed
                file_size show_progress (fun _ _ => True)
                (fun _ _ _ _ _ _ _ _ => I) (fun _ _ _ _ _ _ _ _ => I)
                i [] s s' t I H) as (_ & W & R & Sl & _).
    split; [exact W|]. split; [exact R|]. split; [exact Sl|].
    intros e0 He. discriminate.
  - destruct (@attempt_raise_facts S src dest max_part_size tqdm_installed
                file_size show_progress (fun _ _ => True)
                (fun _ _ _ _ _ _ _ _ => I) (fun _ _ _ _ _ _ _ _ => I)
                i e [] s s' t I H) as (_ & W & R & Sl & U).
    split; [exact W|]. split; [exact R|]. split; [exact Sl|].
    intros e0 _. exact U.
Qed.

(** The [for] loop: it returns at the first attempt that succeeds, having
    slept [1 + attempt] after every failed one; when every attempt fails
    it sleeps after the last one too and raises [RuntimeError]. *)
Lemma BuildLib_for_attempts_run (i : Z) (l : list Z) :
  forall s r s' t,
    BuildLib.for_attempts src dest max_part_size tqdm_installed file_size
      show_progress l i s = (r, s', t) ->
    all is_worker t
    /\ match r with
       | Ok _ =>
           exists k,
             (k < List.length l)%nat
             /\ count is_read t = Datatypes.S k
             /\ sleeps t = map (fun a => 1 + a) (firstn k l)
       | Raise e =>
           e = RuntimeError
           /\ count is_read t = List.length l
           /\ sleeps t = map (fun a => 1 + a) l
           /\ uploads t = []
       end.
Proof.
  induction l as [|a l IH]; intros s r s' t H.
  - apply raise_inv in H as (-> & _ & ->).
    split; [constructor|]. repeat split.
  - cbn [BuildLib.for_attempts] in H.
    destruct (BuildLib.attempt_part src dest max_part_size tqdm_installed
                file_size show_progress i s) as [[[[]|e] s1] t1] eqn:Ea.
    + injection H as <- <- <-.
      apply BuildLib_attempt_facts in Ea as (W & R & Sl & _).
      split; [exact W|]. exists 0%nat. cbn. repeat split; try assumption. lia.
    + apply BuildLib_attempt_facts in Ea as (W & R & Sl & U).
      destruct ((emit (Log WARNING "Retry");;
                 emit (Sleep (1 + a));;
                 BuildLib.for_attempts src dest max_part_size tqdm_installed
                   file_size show_progress l i) s1)
        as [[r2 s2] t2] eqn:Er.
      injection H as <- <- <-.
      apply bind_emit_inv in Er as (t3 & Er & ->).
      apply bind_emit_inv in Er as (t4 & Er & ->).
      apply IH in Er as (W4 & Hres).
      split.
      { apply all_app; [exact W|]. constructor; [reflexivity|].
        constructor; [reflexivity | exact W4]. }
      change (t1 ++ Log WARNING "Retry" :: Sleep (1 + a) :: t4)
        with (t1 ++ [Log WARNING "Retry"; Sleep (1 + a)] ++ t4).
      rewrite !count_app, !sleeps_app, !uploads_app, R, Sl, (U e eq_refl).
      cbn [count filter is_read List.length sleeps flat_map uploads app].
      destruct r2 as [[]|e2].
      * destruct Hres as (k & Hk & Hr & Hs). exists (Datatypes.S k).
        cbn [List.length firstn map]. rewrite Hr, Hs.
        repeat split; try reflexivity. lia.
      * destruct Hres as (-> & Hr & Hs & Hu). rewrite Hr, Hs, Hu.
        repeat split.
Qed.

End BuildLibRetry.

(** X22.  In the copy under [build/lib], [transfer_part] makes at most three
    attempts and sleeps 1, 2, 3 seconds after the first, second and third
    failure: a part that fails three times costs a third sleep and ends in
    [RuntimeError], the provider's exception being dropped. *)
Theorem BuildLib_transfer_part_run {S} (src : Source S) (dest : Dest S)
    (max_part_size : Z) (tqdm_installed : bool) (file_size : Z)
    (show_progress : bool) (i : Z) s r s' t :
  BuildLib.transfer_part src dest max_part_size tqdm_installed file_size
    show_progress i s = (r, s', t) ->
  match r with
  | Ok _ =>
      exists k,
        (k < 3)%nat /\ count is_read t = Datatypes.S k
        /\ sleeps t = firstn k [1; 2; 3]
  | Raise e =>
      e = RuntimeError /\ count is_read t = 3%nat /\ sleeps t = [1; 2; 3]
      /\ uploads t = []
  end.
Proof.
  unfold BuildLib.transfer_part. change (range 3) with [0; 1; 2].
  intros H. apply BuildLib_for_attempts_run in H as (_ & Hres).
  destruct r as [[]|e].
  - destruct Hres as (k & Hk & Hr & Hs). exists k.
    cbn [List.length] in Hk. repeat split; try assumption.
    rewrite Hs. destruct k as [|[|[|k]]]; try reflexivity. lia.
  - exact Hres.
Qed.

Lemma BuildLib_transfer_part_run_witness :
  let run :=
    BuildLib.transfer_part (source_of S3Source.handle)
      (dest_of DummyDest.handle) default_chunk true 3 false 0
      (S3Source.init abc
         [Some (ProviderError 500); Some (ProviderError 500);
          Some (ProviderError 503)],
       DummyDest.init) in
  fst (fst run) = Raise RuntimeError
  /\ count is_read (snd run) = 3%nat
  /\ sleeps (snd run) = [1; 2; 3]
  /\ uploads (snd run) = [].
Proof.
  intros run. split; [reflexivity|].
  apply (@BuildLib_transfer_part_run _ (source_of S3Source.handle)
           (dest_of DummyDest.handle) default_chunk true 3 false 0
           (S3Source.init abc
              [Some (ProviderError 500); Some (ProviderError 500);
               Some (ProviderError 503)],
            DummyDest.init)
           (Raise RuntimeError) (snd (fst run)) (snd run)).
  reflexivity.
Defined.

(** ** ETags *)

Lemma get_append_end (s : string) (c : ascii) :
  String.get (String.length s) (s ++ String c EmptyString)%string = Some c.
Proof. induction s as [|a s IH]; [reflexivity | exact IH]. Qed.

Lemma rstrip_quoted (c : ascii) (s : string) :
  PyStr.all_chars (fun a => negb (Ascii.eqb a c)) s = true ->
  PyStr.rstrip c (s ++ String c EmptyString)%string = s.
Proof.
  induction s as [|a s IH]; intros H.
  - cbn. rewrite Ascii.eqb_refl. reflexivity.
  - cbn in H. apply andb_true_iff in H as (Ha & Hs).
    apply negb_true_iff in Ha.
    cbn [append PyStr.rstrip]. rewrite (IH Hs).
    destruct s; [rewrite Ha|]; reflexivity.
Qed.

(** X19.  An ETag in the form S3 sends it, between double quotes, is
    recorded without them: by [S3Dest.upload_part] whatever it holds, and by
    the [strip] of the copy under [build/lib] when it holds no quote itself. *)
Theorem etag_quotes_removed (etag : string) :
  let q := BuildLibS3Dest.quote in
  S3Dest.strip_quotes (String q (etag ++ String q EmptyString)) = etag
  /\ (PyStr.all_chars (fun a => negb (Ascii.eqb a q)) etag = true ->
      PyStr.strip q (String q (etag ++ String q EmptyString)) = etag).
Proof.
  intros q. split.
  - unfold S3Dest.strip_quotes.
    cbn [String.length String.get S3Dest.is_quote].
    replace (Datatypes.S (String.length (etag ++ String q EmptyString)) - 1)%nat
      with (Datatypes.S (String.length etag)).
    2: { rewrite length_append. cbn [String.length]. lia. }
    cbn [String.get]. rewrite get_append_end.
    cbn [S3Dest.is_quote]. unfold q, BuildLibS3Dest.quote.
    rewrite Ascii.eqb_refl. cbn [andb].
    replace (Datatypes.S (String.length (etag ++ String (ascii_of_nat 34) EmptyString)) - 2)%nat
      with (String.length etag).
    2: { rewrite length_append. cbn [String.length]. lia. }
    cbn [String.substring]. apply substring_take.
  - intros H. destruct etag as [|a s]; [reflexivity|].
    unfold PyStr.strip.
    change (PyStr.lstrip q (String q (String a s ++ String q EmptyString)))
      with (PyStr.lstrip q (String a s ++ String q EmptyString)).
    assert (Hl : PyStr.lstrip q (String a s ++ String q EmptyString)
                 = (String a s ++ String q EmptyString)%string).
    { pose proof H as H'.
      cbn [PyStr.all_chars] in H'. apply andb_true_iff in H' as (Ha & _).
      apply negb_true_iff in Ha.
      cbn [append PyStr.lstrip]. rewrite Ha. reflexivity. }
    rewrite Hl. apply rstrip_quoted. exact H.
Qed.

Lemma etag_quotes_removed_witness :
  let q := BuildLibS3Dest.quote in
  PyStr.strip q (String q ("9b2cf535f27731c974343645a3985328" ++ String q EmptyString))
  = "9b2cf535f27731c974343645a3985328"%string.
Proof.
  intros q.
  apply (proj2 (etag_quotes_removed "9b2cf535f27731c974343645a3985328")).
  reflexivity.
Defined.

(** ** The handler of the copy under [build/lib] *)

Section PoolCopy.

Variable S : Type.
Variable task : Z -> M S unit.

Hypothesis task_worker :
  forall i s r s' t, task i s = (r, s', t) -> all is_worker t.

Lemma run_futures_copy (order : list Z) :
  forall s r s' t, run_futures task order s = (r, s', t) -> all is_copy t.
Proof.
  induction order as [|i rest IH]; intros s r s' t H.
  - apply ret_inv in H as (_ & _ & ->). constructor.
  - cbn [run_futures] in H.
    apply bind_inv in H
      as [(r1 & s1 & t1 & t2 & H1 & H2 & ->) | (e & H1 & _)].
    2: { unfold capture in H1. destruct (task i s) as [[? ?] ?].
         discriminate. }
    unfold capture in H1. destruct (task i s) as [[r0 s0] t0] eqn:Et.
    injection H1 as <- <- <-.
    pose proof (@task_worker i s r0 s0 t0 Et) as W.
    apply bind_emit_inv in H2 as (t3 & H2 & ->).
    apply all_app; [apply all_worker_copy; exact W|].
    constructor; [reflexivity|].
    apply bind_inv in H2
      as [(later & s2 & t4 & t5 & H3 & H4 & ->) | (e & H3 & ->)].
    + apply ret_inv in H4 as (_ & _ & ->). rewrite app_nil_r.
      apply (IH _ _ _ _ H3).
    + apply (IH _ _ _ _ H3).
Qed.

Lemma thread_pool_copy (threads n : Z) (choices : list nat) s r s' t :
  thread_pool task threads n choices s = (r, s', t) -> all is_copy t.
Proof.
  unfold thread_pool. destruct (threads <=? 0).
  - intros H. apply raise_inv in H as (_ & _ & ->). constructor.
  - intros H. apply bind_inv in H
      as [(first & s1 & t1 & t2 & H1 & H2 & ->) | (e & H1 & _)].
    + apply run_futures_copy in H1.
      destruct first as [e|].
      * apply raise_inv in H2 as (_ & _ & ->). rewrite app_nil_r. exact H1.
      * apply ret_inv in H2 as (_ & _ & ->). rewrite app_nil_r. exact H1.
    + apply run_futures_copy in H1. exact H1.
Qed.

End PoolCopy.

(** X23.  In the copy under [build/lib] the plan is made before the [try]
    and [abort] is called unguarded: a planner that raises leaves both
    handles untouched, [abort] is called at most once, and when it raises,
    its exception is the one the caller gets in place of the transfer's own. *)
Theorem BuildLib_abort_is_unguarded {S} (src : Source S) (dest : Dest S)
    (max_part_size : Z) (tqdm_installed : bool) (threads : Z)
    (show_progress : bool) (choices : list nat) s r s' t :
  BuildLib.move_file_with src dest max_part_size tqdm_installed threads
    show_progress choices s = (r, s', t) ->
  (count is_abort t <= 1)%nat
  /\ (forall e', In (DestAbort (Some e')) t -> r = Raise e')
  /\ (forall e,
         BuildLib.num_parts max_part_size (get_size src s) = Raise e ->
         r = Raise e /\ s' = s /\ t = [Log INFO "Transferring"]).
Proof.
  unfold BuildLib.move_file_with. intros H.
  apply bind_emit_inv in H as (t1 & H & ->).
  apply bind_inv in H as [(n & s1 & t2 & t3 & Hn & H & ->) | (e & Hn & ->)].
  2: { unfold lift_result in Hn. injection Hn as Hn <- <-.
       split; [cbn; lia|]. split.
       - intros e' [Heq | []]. discriminate.
       - intros e0 He. rewrite He in Hn. injection Hn as ->. auto. }
  unfold lift_result in Hn. injection Hn as Hn <- <-. cbn [app].
  assert (Hbody :
    forall rb sb tb,
      (thread_pool
         (BuildLib.transfer_part src dest max_part_size tqdm_installed
            (get_size src s) show_progress) (Z.min threads n) n choices;;
       call (complete dest) DestComplete;;
       call (delete src) SrcDelete;;
       emit (Log INFO "Transfer completed successfully.")) s
      = (rb, sb, tb) ->
      count is_abort tb = 0%nat).
  { intros rb sb tb Hb.
    assert (Hpool :
      forall r0 s0 t0,
        thread_pool
          (BuildLib.transfer_part src dest max_part_size tqdm_installed
             (get_size src s) show_progress) (Z.min threads n) n choices s
        = (r0, s0, t0) -> count is_abort t0 = 0%nat).
    { intros r0 s0 t0 Hp. apply thread_pool_copy in Hp.
      - apply all_copy_count; [apply copy_not_abort | exact Hp].
      - intros i0 st r1 st' t4 Ht. unfold BuildLib.transfer_part in Ht.
        apply BuildLib_for_attempts_run in Ht. apply Ht. }
    apply bind_inv in Hb
      as [([] & s2 & P & t4 & Hp & Hb & ->) | (e & Hp & ->)].
    2: { apply (Hpool _ _ _ Hp). }
    rewrite count_app, (Hpool _ _ _ Hp).
    apply bind_inv in Hb
      as [([] & s3 & t5 & t6 & Hc & Hb & ->) | (e & Hc & ->)].
    2: { apply call_inv in Hc as [_ ->]. reflexivity. }
    apply call_inv in Hc as [_ ->].
    apply bind_inv in Hb
      as [([] & s4 & t7 & t8 & Hd & Hb & ->) | (e & Hd & ->)].
    2: { apply call_inv in Hd as [_ ->]. reflexivity. }
    apply call_inv in Hd as [_ ->].
    apply emit_inv in Hb as (_ & _ & ->). reflexivity. }
  split; [|split].
  3: { intros e He. rewrite He in Hn. discriminate. }
  - apply try_catch_inv in H
      as [([] & Hb & _) | (e & s2 & tb & th & Hb & Hh & ->)].
    + rewrite count_cons, (Hbody _ _ _ Hb). cbn. lia.
    + rewrite count_cons, count_app, (Hbody _ _ _ Hb).
      apply bind_emit_inv in Hh as (t4 & Hh & ->).
      apply bind_inv in Hh
        as [([] & s3 & t5 & t6 & Ha & Hh & ->) | (e' & Ha & ->)].
      * apply call_inv in Ha as [_ ->].
        apply raise_inv in Hh as (_ & _ & ->). cbn. lia.
      * apply call_inv in Ha as [_ ->]. cbn. lia.
  - intros e' Hin.
    apply try_catch_inv in H
      as [([] & Hb & _) | (e & s2 & tb & th & Hb & Hh & ->)].
    + exfalso. destruct Hin as [Heq | Hin]; [discriminate|].
      exact (@count_zero_not_In is_abort _ (DestAbort (Some e'))
               (Hbody _ _ _ Hb) eq_refl Hin).
    + destruct Hin as [Heq | Hin]; [discriminate|].
      apply in_app_or in Hin as [Hin | Hin].
      { exfalso.
        exact (@count_zero_not_In is_abort _ (DestAbort (Some e'))
                 (Hbody _ _ _ Hb) eq_refl Hin). }
      apply bind_emit_inv in Hh as (t4 & Hh & ->).
      destruct Hin as [Heq | Hin]; [discriminate|].
      apply bind_inv in Hh
        as [([] & s3 & t5 & t6 & Ha & Hh & ->) | (e0 & Ha & ->)].
      * apply call_inv in Ha as [_ ->].
        apply raise_inv in Hh as (_ & _ & ->).
        destruct Hin as [Heq | []]. discriminate.
      * apply call_inv in Ha as [_ ->].
        destruct Hin as [Heq | []]. injection Heq as <-. reflexivity.
Qed.

Lemma BuildLib_abort_is_unguarded_witness :
  let run :=
    BuildLib.move_file_with (source_of S3Source.handle)
      (dest_of BuildLibS3Dest.handle) default_chunk true 4 false []
      (S3Source.init abc [],
       S3Dest.init (fun _ _ => "etag"%string)
         [None; Some (ProviderError 500); Some (ProviderError 503)]) in
  In (DestComplete (Some (ProviderError 500))) (snd run)
  /\ In (DestAbort (Some (ProviderError 503))) (snd run)
  /\ fst (fst run) = Raise (ProviderError 503).
Proof.
  intros run. split; [vm_compute; tauto|].
  assert (Hin : In (DestAbort (Some (ProviderError 503))) (snd run))
    by (vm_compute; tauto).
  split; [exact Hin|].
  apply (proj1 (proj2 (@BuildLib_abort_is_unguarded _
                         (source_of S3Source.handle)
                         (dest_of BuildLibS3Dest.handle) default_chunk true 4
                         false []
                         (S3Source.init abc [],
                          S3Dest.init (fun _ _ => "etag"%string)
                            [None; Some (ProviderError 500);
                             Some (ProviderError 503)])
                         (fst (fst run)) (snd (fst run)) (snd run) eq_refl))
           (ProviderError 503) Hin).
Defined.

(** ** [complete] comes after the parts *)

(** X11.  Whenever [move_file] calls [complete], the planner had returned a
    part count, at least one, and exactly that many uploads were accepted
    before the call: [complete] never sees a destination without parts. *)
Theorem complete_after_every_part {S} (src : Source S) (dest : Dest S)
    (max_part_size : Z) (tqdm_installed : bool) (threads : Z)
    (show_progress : bool) (choices : list nat) s r s' t (x : option exn) :
  0 < max_part_size ->
  move_file_with src dest max_part_size tqdm_installed threads show_progress
    choices s = (r, s', t) ->
  In (DestComplete x) t ->
  exists n,
    num_parts max_part_size (get_size src s) = Ok n
    /\ 1 <= n
    /\ List.length (uploads t) = Z.to_nat n
    /\ 1 <= threads.
Proof.
  intros Hmax H Hin.
  assert (Hbody :
    forall rb sb tb,
      move_body src dest max_part_size tqdm_installed threads show_progress
        choices s = (rb, sb, tb) ->
      (count is_complete tb = 0%nat /\ exists e, rb = Raise e)
      \/ exists n,
           num_parts max_part_size (get_size src s) = Ok n
           /\ 1 <= n
           /\ List.length (uploads tb) = Z.to_nat n
           /\ 1 <= threads).
  { intros rb sb tb Hb.
    apply (@move_body_run S src dest max_part_size tqdm_installed
             (fun _ _ => True) (fun _ _ _ _ _ _ _ _ => I)
             (fun _ _ _ _ _ _ _ _ => I)
             threads show_progress choices [] s rb sb tb I) in Hb.
    destruct Hb as (P & rest & s2 & -> & C & _ & Hcases).
    assert (Hcopied :
      copied (fun _ _ => True) src max_part_size threads choices s P ->
      forall rest',
        uploads rest' = [] ->
        exists n,
          num_parts max_part_size (get_size src s) = Ok n
          /\ 1 <= n
          /\ List.length (uploads (Log INFO "Starting transfer" :: P ++ rest'))
             = Z.to_nat n
          /\ 1 <= threads).
    { intros (n & Hn & Hth & _ & Hup) rest' Hr. exists n.
      pose proof (num_parts_ge_one Hmax _ Hn) as Hn1.
      split; [exact Hn|]. split; [exact Hn1|]. split.
      - change (Log INFO "Starting transfer" :: P ++ rest')
          with ([Log INFO "Starting transfer"] ++ P ++ rest').
        rewrite !uploads_app, Hr, app_nil_r. cbn [uploads flat_map app].
        rewrite <- (Forall2_length Hup).
        assert (Hperm :
          Permutation
            (completion_order (Z.to_nat (clamp_threads threads n)) choices
               (Z.to_nat n) (range n)) (range n)).
        { apply completion_order_perm; [lia|]. rewrite range_length. lia. }
        rewrite (Permutation_length Hperm). apply range_length.
      - unfold clamp_threads in Hth. destruct (Z.ltb_spec n threads); lia. }
    destruct rb as [bb|e].
    - destruct Hcases as (_ & -> & Hc & _). right.
      apply (Hcopied Hc). reflexivity.
    - destruct Hcases as [(-> & _ & _) | [(-> & Hc & _) | (-> & Hc & _)]].
      + left. split; [|exists e; reflexivity].
        rewrite app_nil_r, count_cons. cbn [is_complete].
        apply all_copy_count; [apply copy_not_complete | exact C].
      + right. apply (Hcopied Hc). reflexivity.
      + right. apply (Hcopied Hc). reflexivity. }
  unfold move_file_with in H.
  apply try_catch_inv in H
    as [(b & Hb & _) | (e & s1 & t1 & t2 & Hb & Hh & ->)].
  - destruct (Hbody _ _ _ Hb) as [(_ & e & He) | Hn]; [discriminate|].
    exact Hn.
  - apply handler_run in Hh as (_ & _ & _ & A & HA & ->).
    assert (HuA : uploads (Log ERROR "Transfer failed" :: A) = [])
      by (destruct HA; reflexivity).
    destruct (Hbody _ _ _ Hb) as [(Hc & _) | (n & Hn & Hn1 & Hl & Hth)].
    + exfalso. apply in_app_or in Hin as [Hin | Hin].
      * exact (@count_zero_not_In is_complete _ (DestComplete x) Hc eq_refl
                 Hin).
      * destruct HA; cbn in Hin;
          repeat destruct Hin as [Hin | Hin]; try discriminate; auto.
    + exists n. rewrite uploads_app, HuA, app_nil_r. auto.
Qed.

Lemma complete_after_every_part_witness :
  let run :=
    move_file_with (source_of S3Source.handle) (dest_of GCSDest.handle)
      2 true 4 true [1%nat; 0%nat]
      (S3Source.init abcde [Some (ProviderError 500)],
       GCSDest.new [] "out.bin" "0f" [None; Some (ProviderError 503)])
  in
  exists n,
    num_parts 2 5 = Ok n
    /\ 1 <= n
    /\ List.length (uploads (snd run)) = Z.to_nat n
    /\ 1 <= 4.
Proof.
  intros run.
  apply (@complete_after_every_part _
           (source_of S3Source.handle) (dest_of GCSDest.handle)
           2 true 4 true [1%nat; 0%nat]
           (S3Source.init abcde [Some (ProviderError 500)],
            GCSDest.new [] "out.bin" "0f" [None; Some (ProviderError 503)])
           (fst (fst run)) (snd (fst run)) (snd run) None);
    [lia | reflexivity | vm_compute; tauto].
Defined.

(** ** Ranges read from S3 *)

Lemma len_slice (data : bytes) (lo hi : Z) :
  0 <= lo <= hi -> hi <= len data -> len (slice data lo hi) = hi - lo.
Proof.
  intros H1 H2. unfold len, slice in *.
  rewrite length_firstn, length_skipn. lia.
Qed.

(** X13.  [S3Source.read_range(offset, length)] asks for the bytes [offset]
    to [offset + length - 1]: for a range inside the object, and a request
    that is answered, it returns exactly [length] bytes, those from [offset]
    on, and leaves the object in place. *)
Theorem S3Source_read_range_exact (data : bytes) (offset length : Z)
    (a : S3Source.t) :
  S3Source.object a = Some data ->
  fst (next_fault (S3Source.pending a)) = None ->
  0 <= offset -> 0 < length -> offset + length <= len data ->
  exists a',
    S3Source.read_range offset length a
    = (Ok (slice data offset (offset + length)), a')
    /\ len (slice data offset (offset + length)) = length
    /\ S3Source.object a' = Some data.
Proof.
  intros Ho Hf H0 Hl Hin. unfold S3Source.read_range, S3Source.get_object.
  destruct (next_fault (S3Source.pending a)) as [f rest]. cbn in Hf. subst f.
  rewrite Ho.
  replace (len data <=? offset) with false by (symmetry; apply Z.leb_gt; lia).
  replace (offset + length - 1 + 1) with (offset + length) by lia.
  eexists. split; [reflexivity|]. split; [|reflexivity].
  rewrite len_slice; lia.
Qed.

Lemma S3Source_read_range_exact_witness :
  exists a',
    S3Source.read_range 1 3 (S3Source.init abcde [])
    = (Ok (slice abcde 1 (1 + 3)), a')
    /\ len (slice abcde 1 (1 + 3)) = 3
    /\ S3Source.object a' = Some abcde.
Proof.
  apply (@S3Source_read_range_exact abcde 1 3 (S3Source.init abcde []));
    [reflexivity | reflexivity | lia | lia | vm_compute; discriminate].
Defined.

